(** * wflow_w3: the per-cell timestep of the W3RA land-surface water balance

    A shallow embedding of [WflowModel.dynamic] (src/wflow/wflow_w3.py) for
    one grid cell inside the catchment mask.

    Conventions of the embedding.
    - A PCRaster scalar cell is a real number; arithmetic is exact.  The
      result of the closure step is therefore an equation, where the program
      reaches it up to rounding.
    - PCRaster's missing value is not represented.  [x ** 0.5] is [sqrt],
      [x / y] is real division; the side conditions under which the program
      would not produce a number (a zero divisor, a negative radicand) are
      hypotheses of the theorems that depend on them.  Checked division
      ([pcr_div]) is used where a claim is about the divisor itself.
    - The model runs in its default mode [UseETPdata = 1].  The day-length
      fraction and the three lookups in the height-above-drainage profile
      ([interp_hand]) are inputs of the timestep; [with_fday] and
      [with_hand] set them from [daylength_fday] and [hand_lookups]. *)

From Stdlib Require Import Reals Lra Psatz Bool List.

Open Scope R_scope.

(** ** PCRaster cell operations *)

Definition pcr_le (x y : R) : bool := if Rle_dec x y then true else false.
Definition pcr_lt (x y : R) : bool := if Rlt_dec x y then true else false.
Definition pcr_ge (x y : R) : bool := pcr_le y x.
Definition pcr_gt (x y : R) : bool := pcr_lt y x.

(** [pcr.scalar] of a boolean cell *)
Definition pcr_scalar (b : bool) : R := if b then 1 else 0.

Definition ifthenelse (c : bool) (x y : R) : R := if c then x else y.

(** [x ** y] for a base that is not negative; a zero base gives zero. *)
Definition pcr_pow (x y : R) : R := if Rlt_dec 0 x then Rpower x y else 0.

(** Source: [pcr_tanh], lines 58-63. *)
Definition pcr_tanh (x : R) : R := (exp x - exp (- x)) / (exp x + exp (- x)).

(** Division that reports a zero divisor. *)
Definition pcr_div (x y : R) : option R :=
  if Req_dec_T y 0 then None else Some (x / y).

(** ** Soil layers (lines 1057-1151) *)

(** What one layer's update produces: the extraction actually applied, the
    new storage, the vertical drainage and the lateral interflow. *)
Record Layer : Type := mkLayer {
  extraction : R;
  storage : R;
  drainage : R;
  interflow : R
}.

(** The root used by the general case of every layer, as the specification
    writes it. *)
Definition quad_root (A X : R) : R := (- 1 + sqrt (1 + 4 * A * X)) / (2 * A).

(** *** Top soil (lines 1064-1092) *)

(** Lines 1064-1086: general case, then the depletion and the saturation
    overrides. *)
Definition S0_branches (S0 I Es S0max K0sat Kssat Rh_0s : R) : Layer :=
  (* general case *)
  let Km := sqrt (K0sat * Kssat) in
  let A := Km / (S0max ^ 2) in
  let B := 1 in
  let C := - (S0 + I - Es) in
  let S0_g := (- B + sqrt (B ^ 2 - 4 * A * C)) / (2 * A) in
  let D0_g := (1 - Rh_0s) * Km * ((S0_g / S0max) ^ 2) in
  let IF0_g := Rh_0s * Km * ((S0_g / S0max) ^ 2) in
  (* depletion case *)
  let imap := pcr_le (S0 + I) Es in
  let Es_d := ifthenelse imap (S0 + I) Es in
  let S0_d := ifthenelse imap 0 S0_g in
  let D0_d := ifthenelse imap 0 D0_g in
  let IF0_d := ifthenelse imap 0 IF0_g in
  (* saturation case *)
  let imap := pcr_le (S0max - S0 + K0sat) (I - Es_d) in
  let D0_s := ifthenelse imap ((1 - Rh_0s) * K0sat) D0_d in
  let IF0_s :=
    ifthenelse imap
      (Rh_0s * K0sat + (S0 - S0max - K0sat + I - Es_d)) IF0_d in
  let S0_s := ifthenelse imap S0max S0_d in
  mkLayer Es_d S0_s D0_s IF0_s.

(** Lines 1087-1091: clamp the storage, put the residual into the outflows. *)
Definition S0_closure (S0 I S0max Rh_0s : R) (b : Layer) : Layer :=
  let S0_n := Rmax 0 (Rmin (storage b) S0max) in
  let massbal :=
    S0 + I - extraction b - drainage b - interflow b - S0_n in
  let D0 := drainage b + (1 - Rh_0s) * massbal in
  let IF0 := interflow b + Rh_0s * massbal in
  mkLayer (extraction b) S0_n D0 IF0.

Definition S0_balance (S0 I Es S0max K0sat Kssat Rh_0s : R) : Layer :=
  S0_closure S0 I S0max Rh_0s (S0_branches S0 I Es S0max K0sat Kssat Rh_0s).

(** *** Shallow root zone (lines 1099-1127) *)

(** Lines 1099-1121.  The depletion test of this layer reads the local [Ss],
    which at that point holds the general-case root. *)
Definition Ss_branches (Ss D0 Us Ssmax Kssat Kdsat Rh_sd : R) : Layer :=
  (* general case *)
  let Km := sqrt (Kssat * Kdsat) in
  let A := Km / (Ssmax ^ 2) in
  let B := 1 in
  let C := - (Ss + D0 - Us) in
  let Ss_g := (- B + sqrt (B ^ 2 - 4 * A * C)) / (2 * A) in
  let Ds_g := (1 - Rh_sd) * Km * ((Ss_g / Ssmax) ^ 2) in
  let IFs_g := Rh_sd * Km * ((Ss_g / Ssmax) ^ 2) in
  (* depletion case *)
  let imap := pcr_le (Ss_g + D0) Us in
  let Us_d := ifthenelse imap (Ss + D0) Us in
  let Ss_d := ifthenelse imap 0 Ss_g in
  let Ds_d := ifthenelse imap 0 Ds_g in
  let IFs_d := ifthenelse imap 0 IFs_g in
  (* saturation case *)
  let imap := pcr_le (Ssmax - Ss + Kssat) (D0 - Us_d) in
  let Ds_s := ifthenelse imap ((1 - Rh_sd) * Kssat) Ds_d in
  let IFs_s :=
    ifthenelse imap
      (Rh_sd * Kssat + (Ss - Ssmax - Kssat + D0 - Us_d)) IFs_d in
  let Ss_s := ifthenelse imap Ssmax Ss_d in
  mkLayer Us_d Ss_s Ds_s IFs_s.

(** Lines 1122-1126. *)
Definition Ss_closure (Ss D0 Ssmax Rh_sd : R) (b : Layer) : Layer :=
  let Ss_n := Rmax 0 (Rmin (storage b) Ssmax) in
  let massbal :=
    Ss + D0 - extraction b - drainage b - interflow b - Ss_n in
  let Ds := drainage b + (1 - Rh_sd) * massbal in
  let IFs := interflow b + Rh_sd * massbal in
  mkLayer (extraction b) Ss_n Ds IFs.

Definition Ss_balance (Ss D0 Us Ssmax Kssat Kdsat Rh_sd : R) : Layer :=
  Ss_closure Ss D0 Ssmax Rh_sd (Ss_branches Ss D0 Us Ssmax Kssat Kdsat Rh_sd).

(** *** Deep root zone (lines 1129-1151) *)

(** Lines 1130-1146.  As in the shallow layer the depletion test reads the
    local [Sd]. *)
Definition Sd_branches (Sd Ds Ud Sdmax Kdsat : R) : Layer :=
  (* general case *)
  let A := Kdsat / (Sdmax ^ 2) in
  let B := 1 in
  let C := - (Sd + Ds - Ud) in
  let Sd_g := (- B + sqrt (B ^ 2 - 4 * A * C)) / (2 * A) in
  let Dd_g := Kdsat * ((Sd_g / Sdmax) ^ 2) in
  let IFd_g := 0 * Dd_g in
  (* depletion case *)
  let imap := pcr_le (Sd_g + Ds) Ud in
  let Ud_d := ifthenelse imap (Sd + Ds) Ud in
  let Sd_d := ifthenelse imap 0 Sd_g in
  let Dd_d := ifthenelse imap 0 Dd_g in
  (* saturation case *)
  let imap := pcr_le (Sdmax - Sd + Kdsat) (Ds - Ud_d) in
  let Dd_s := ifthenelse imap Kdsat Dd_d in
  let IFd_s := ifthenelse imap (Sd - Sdmax - Kdsat + Ds - Ud_d) IFd_g in
  let Sd_s := ifthenelse imap Sdmax Sd_d in
  mkLayer Ud_d Sd_s Dd_s IFd_s.

(** Lines 1147-1150: the whole residual goes into the drainage. *)
Definition Sd_closure (Sd Ds Sdmax : R) (b : Layer) : Layer :=
  let Sd_n := Rmax 0 (Rmin (storage b) Sdmax) in
  let massbal :=
    Sd + Ds - extraction b - drainage b - interflow b - Sd_n in
  let Dd := drainage b + massbal in
  mkLayer (extraction b) Sd_n Dd (interflow b).

Definition Sd_balance (Sd Ds Ud Sdmax Kdsat : R) : Layer :=
  Sd_closure Sd Ds Sdmax (Sd_branches Sd Ds Ud Sdmax Kdsat).

(** The residual of a layer's water balance. *)
Definition layer_residual (S I : R) (l : Layer) : R :=
  S + I - extraction l - drainage l - interflow l - storage l.

(** ** Snow routine (lines 1009-1041) *)

Record Snow : Type := mkSnow {
  snow_DrySnow : R;
  snow_FreeWater : R;
  snow_InSoil : R;
  snow_Rmelt : R;
  snow_Ps : R
}.

Definition snow_routine
    (Pn Temperature FreeWater DrySnow : R)
    (snow_TT snow_TTI snow_Cfmax snow_Cfr snow_WHC : R) : Snow :=
  let RainFrac :=
    Rmax 0 (Rmin ((Temperature - (snow_TT - snow_TTI / 2)) / snow_TTI) 1) in
  let SnowFrac := 1 - RainFrac in
  let SnowFall := SnowFrac * Pn in
  let RainFall := RainFrac * Pn in
  let PotSnowMelt := snow_Cfmax * Rmax 0 (Temperature - snow_TT) in
  let PotRefreezing :=
    snow_Cfmax * snow_Cfr * Rmax (snow_TT - Temperature) 0 in
  let Refreezing := Rmin PotRefreezing FreeWater in
  let SnowMelt := Rmin PotSnowMelt DrySnow in
  let DrySnow1 := DrySnow + SnowFall + Refreezing - SnowMelt in
  let FreeWater1 := FreeWater - Refreezing in
  let MaxFreeWater := FreeWater1 * snow_WHC in
  let FreeWater2 := FreeWater1 + SnowMelt + RainFall in
  let InSoil := Rmax (FreeWater2 - MaxFreeWater) 0 in
  let FreeWater3 := FreeWater2 - InSoil in
  let Rmelt := pcr_scalar (pcr_lt Temperature 0) * InSoil in
  let Ps := pcr_scalar (pcr_ge Temperature 0) * InSoil in
  mkSnow DrySnow1 FreeWater3 InSoil Rmelt Ps.

(** ** Rainfall interception (lines 978-993) *)

(** Lines 981-989, with every quotient taken by real division. *)
Definition Pwet_of (Sveg fER fveg : R) : R :=
  Rmax 0
    (pcr_scalar (pcr_gt Sveg 0 && pcr_gt fER 0 && pcr_lt (fER / fveg) 1)
     * - ln (1 - fER / fveg) * Sveg / fER).

(** Lines 990-993. *)
Definition Ei_of (T24 Pg Pwet fveg fER : R) : R :=
  pcr_scalar (pcr_gt T24 0)
  * (pcr_scalar (pcr_lt Pg Pwet) * fveg * Pg
     + pcr_scalar (pcr_ge Pg Pwet) * (fveg * Pwet + fER * (Pg - Pwet))).

(** ** Groundwater and surface stores (lines 1157-1169) *)

(** Lines 1158-1162: returns the discharge [Qg] and the new store. *)
Definition groundwater_store (Sg NetGf K_gw : R) : R * R :=
  let Sg1 := Sg + NetGf in
  let Sg_fd := Rmax Sg1 0 in
  let Qg := Rmin Sg_fd ((1 - exp (- K_gw)) * Sg_fd) in
  (Qg, Sg1 - Qg).

(** Lines 1165-1169, inside the catchment mask: returns [Qtot] and the new
    store. *)
Definition surface_store (Sr QR Erl Qg K_rout : R) : R * R :=
  let Sr1 := Rmax 0 (Sr + QR - Erl + Qg) in
  let Qtot := Rmax 0 (Rmin Sr1 ((1 - exp (- K_rout)) * Sr1)) in
  (Qtot, Sr1 - Qtot).

(** ** The state, the parameters and the forcing of one cell *)

(** [stateVariables], lines 127-136. *)
Record State : Type := mkState {
  S0 : R; Ss : R; Sd : R; Mleaf : R;
  FreeWater : R; DrySnow : R; Sg : R; Sr : R
}.

(** The static fields read in [initial] that the timestep uses. *)
Record Param : Type := mkParam {
  S0max : R; Ssmax : R; Sdmax : R;
  K0sat : R; Kssat : R; Kdsat : R;
  w0limE : R; wslimU : R; wdlimU : R;
  OpenWaterFrac : R; slope : R; hveg : R; Gs_scalar : R; ER_coeff : R;
  FsoilEmax : R; S_sls : R;
  snow_Cfmax : R; snow_Cfr : R; snow_TT : R; snow_WHC : R; snow_TTI : R;
  fImp : R; Pref : R; Pref_imp : R; fPotDeep : R; K_gw : R; K_rout : R;
  LAImax : R; ER_exp : R; FwaterE : R; InitLoss : R; Kr_coeff : R;
  LAIref : R; SLA : R; slope_coeff : R; Tgrow : R; Tsenc : R;
  Ud0 : R; Ug0 : R; Us0 : R;
  cGsmax : R; Vc : R
}.

(** The forcing of one timestep and the quantities taken as inputs: the
    day-length fraction and the values [interp_hand] returns (in percent) at
    the capillary fringe and at the shallow and deep rooting depths. *)
Record Forcing : Type := mkForcing {
  PRECIP : R; TDAY : R; EPOT : R; WINDSPEED : R; AIRPRESS : R;
  fday : R;
  hand_fringe : R; hand_shallow : R; hand_deep : R
}.

(** ** The timestep (lines 778-1194, [UseETPdata = 1]) *)

Section Timestep.

Variable p : Param.
Variable f : Forcing.
Variable s : State.

(** Lines 780-807. *)
Definition Pg : R := PRECIP f.
Definition Ta : R := TDAY f.
Definition T24 : R := TDAY f.
Definition u1 : R := WINDSPEED f * (1 - (1 - fday f) * 0.25) / fday f.
Definition pair : R := AIRPRESS f.
Definition pes : R := 610.8 * exp (17.27 * Ta / (237.3 + Ta)).

(** Lines 810-812. *)
Definition w0 : R := S0 s / S0max p.
Definition ws : R := Ss s / Ssmax p.
Definition wd : R := Sd s / Sdmax p.

(** Lines 816-818. *)
Definition LAI : R := SLA p * Mleaf s.
Definition fveg : R := Rmax (1 - exp (- LAI / LAIref p)) 0.000001.
Definition fsoil : R := 1 - fveg.

(** Lines 822-823.  [OpenWaterFrac_t] is the local [OpenWaterFrac], which
    shadows the parameter of that name. *)
Definition ChannelSurface : R := Rmin 0 (0.007 * pcr_pow (Sr s) 0.75).
Definition OpenWaterFrac_t : R := Rmax ChannelSurface (OpenWaterFrac p).

(** Lines 838-855. *)
Definition fg : R := hand_fringe f / 100.
Definition fUgShallow : R := (hand_shallow f / 100) * (1 - fPotDeep p).
Definition fUgDeep : R := hand_deep f / 100 * fPotDeep p.
Definition fUg : R := fUgShallow + fUgDeep.
Definition fw_local : R := ChannelSurface.
Definition fwater : R := OpenWaterFrac_t.
Definition fsat : R := Rmin 1 (Rmax OpenWaterFrac_t fg).

(** Lines 858-863. *)
Definition fh : R := ln (813 / Rmax 0.25 (hveg p) - 5.45).
Definition ku1 : R := 0.359 / (fh * (fh + 2.3)).
Definition ga : R := Rmax 0.001 (ku1 * u1).

(** Lines 866-870. *)
Definition E0 : R := Rmax (EPOT f) 0.
Definition keps : R := 0.655e-3 * pair / pes.
Definition Ept : R := E0.

(** Lines 929-937. *)
Definition Usmax : R := Rmax 0 (Us0 p * Rmin 1 (ws / wslimU p)).
Definition Udmax : R := Rmax 0 (Ud0 p * Rmin 1 (wd / wdlimU p)).
Definition Ugmax : R := Rmax 0 (Ug0 p * Rmax 0 (fUg - fsat)).
Definition Umax : R := Rmax Usmax (Rmax Udmax Ugmax).

(** Lines 940-950. *)
Definition Gsmax : R := Gs_scalar p * cGsmax p * Vc p.
Definition fD : R := 1.
Definition gs : R := fveg * fD * Gsmax.
Definition ft : R := 1 / (1 + (keps / (1 + keps)) * ga / gs).
Definition Etmax : R := ft * E0.

(** Lines 953-962.  [Et_pot] is [Et] as first assigned (line 953), [Et] the
    sum that replaces it (line 962). *)
Definition Et_pot : R := Rmin Umax Etmax.
Definition U0 : R := 0.
Definition Us : R :=
  Rmax 0 (Rmin ((Usmax / (Usmax + Udmax + Ugmax)) * Et_pot) (Ss s - 1e-2)).
Definition Ud : R :=
  Rmax 0 (Rmin ((Udmax / (Usmax + Udmax + Ugmax)) * Et_pot) (Sd s - 1e-2)).
Definition Ug : R :=
  Rmax 0 (Rmin ((Ugmax / (Usmax + Udmax + Ugmax)) * Et_pot) (Sd s - 1e-2)).
Definition Et : R := U0 + Us + Ud + Ug.

(** Lines 965-971. *)
Definition w0x : R := Rmax 0 ((S0 s - U0) / S0max p).
Definition fsoilE : R := FsoilEmax p * Rmin 1 (w0x / w0limE p).
Definition Es0 : R := (1 - fsat) * fsoilE * Rmax 0 (E0 - Et).
Definition Eg0 : R := Rmax 0 (fsat - fwater) * FsoilEmax p * Rmax 0 (E0 - Et).
Definition Es : R := Es0 + Eg0.

(** Lines 974-976. *)
Definition Erl : R := fw_local * FwaterE p * Ept.
Definition Err : R := (fwater - fw_local) * FwaterE p * Ept.
Definition Er : R := Erl + Err.

(** Lines 979-996. *)
Definition Sveg : R := S_sls p * LAI.
Definition fER : R := fveg * ER_coeff p * pcr_pow (Rmax 0.05 (hveg p)) (ER_exp p).
Definition Pwet : R := Pwet_of Sveg fER fveg.
Definition Ei : R := Ei_of T24 Pg Pwet fveg fER.
Definition Edry : R := Et + Es + Er.
Definition EACT : R := Edry + Ei.

(** Lines 1003-1041. *)
Definition Pn : R := Pg - Ei.
Definition snow : Snow :=
  snow_routine Pn T24 (FreeWater s) (DrySnow s)
    (snow_TT p) (snow_TTI p) (snow_Cfmax p) (snow_Cfr p) (snow_WHC p).
Definition Rmelt : R := snow_Rmelt snow.
Definition Ps : R := snow_Ps snow.

(** Lines 1045-1055.  [Pi_t] is the local [Pi], [I_t] is [self.I] and
    [QR_surface] is [self.QR] before the interflows are added. *)
Definition Rsof : R := fsat * Ps.
Definition Pi_t : R := Rmax 0 (Ps - InitLoss p).
Definition Rhof_soil : R :=
  Rmax 0 (1 - fsat - fImp p) * (Pi_t - Pref p * pcr_tanh (Pi_t / Pref p)).
Definition Rhof_imp : R :=
  fImp p * (Pi_t - Pref_imp p * pcr_tanh (Pi_t / Pref_imp p)).
Definition Rhof : R := Rhof_soil + Rhof_imp.
Definition QR_surface : R := Rhof + Rsof + Rmelt.
Definition I_t : R := Ps - Rhof - Rsof.

(** Lines 1060-1092.  [top] gathers [Es], [S0], [D0] and [IF0] as they
    leave the top-soil balance. *)
Definition Kr_0s : R := K0sat p / Kssat p.
Definition Rh_0s : R :=
  pcr_tanh (slope_coeff p * slope p * w0)
  * pcr_tanh (Kr_coeff p * (Kr_0s - 1.0) * w0).
Definition top : Layer :=
  S0_balance (S0 s) I_t Es (S0max p) (K0sat p) (Kssat p) Rh_0s.
Definition D0 : R := drainage top.
Definition IF0 : R := interflow top.

(** Lines 1095-1127. *)
Definition Kr_sd : R := Kssat p / Kdsat p.
Definition Rh_sd : R :=
  pcr_tanh (slope_coeff p * slope p * ws)
  * pcr_tanh (Kr_coeff p * (Kr_sd - 1) * ws).
Definition shallow : Layer :=
  Ss_balance (Ss s) D0 Us (Ssmax p) (Kssat p) (Kdsat p) Rh_sd.
Definition Ds : R := drainage shallow.

(** Lines 1130-1154. *)
Definition deep : Layer := Sd_balance (Sd s) Ds Ud (Sdmax p) (Kdsat p).
Definition Dd : R := drainage deep.
Definition IFd : R := interflow deep.
Definition IFs : R := interflow shallow + IFd.
Definition QR : R := QR_surface + IF0 + IFs.

(** Lines 1158-1169. *)
Definition NetGf : R := Dd - Eg0 - Ug.
Definition groundwater : R * R := groundwater_store (Sg s) NetGf (K_gw p).
Definition Qg : R := fst groundwater.
Definition surface : R * R := surface_store (Sr s) QR Erl Qg (K_rout p).
Definition Qtot : R := fst surface.

(** Lines 1173-1187. *)
Definition fvmax : R := 1 - exp (- Rmax (LAImax p) 0.002778 / LAIref p).
Definition fveq : R :=
  Rmin
    ((1 / Rmax ((E0 / Umax) - 1) 1e-3)
     * (keps / (1 + keps))
     * (ga / (fD * Gsmax)))
    fvmax.
Definition dMleaf : R := - ln (1 - fveq) * LAIref p / SLA p - Mleaf s.
Definition Mleafnet : R :=
  pcr_scalar (pcr_gt dMleaf 0) * (dMleaf / Tgrow p)
  + pcr_scalar (pcr_lt dMleaf 0) * dMleaf / Tsenc p.

(** The state at the end of the timestep. *)
Definition dynamic : State :=
  mkState
    (storage top) (storage shallow) (storage deep)
    (Mleaf s + Mleafnet)
    (snow_FreeWater snow) (snow_DrySnow snow)
    (snd groundwater) (snd surface).

End Timestep.

(** [n] timesteps under a forcing sequence. *)
Fixpoint run (p : Param) (fs : list Forcing) (s : State) : State :=
  match fs with
  | nil => s
  | cons f fs' => run p fs' (dynamic p f s)
  end.

(** ** Conditions and outcomes of the layer regimes *)

Definition depletion_condition (S I U : R) : Prop := S + I <= U.

Definition saturation_condition (S I U Smax Ka : R) : Prop :=
  Smax - S + Ka <= I - U.

(** Zero storage and zero outflows. *)
Definition depletion_outcome (l : Layer) : Prop :=
  storage l = 0 /\ drainage l = 0 /\ interflow l = 0.

(** ** Stores without inflow *)

(** [n] timesteps of a store that receives nothing. *)
Fixpoint recede_Sg (K : R) (n : nat) (x : R) : R :=
  match n with
  | O => x
  | S m => snd (groundwater_store (recede_Sg K m x) 0 K)
  end.

Fixpoint recede_Sr (K : R) (n : nat) (x : R) : R :=
  match n with
  | O => x
  | S m => snd (surface_store (recede_Sr K m x) 0 0 0 K)
  end.

(** ** The quotients by the cover fraction, the wetting coefficient and
    the canopy conductance, with checked division *)

Section Divisors.

Variable p : Param.
Variable f : Forcing.
Variable s : State.

(** The quotient [fER / fveg] of lines 984-985. *)
Definition wetting_ratio : option R := pcr_div (fER p s) (fveg p s).

(** The quotient by [fER] that closes lines 984-987. *)
Definition wetting_point_quotient : option R :=
  pcr_div
    (pcr_scalar
       (pcr_gt (Sveg p s) 0 && pcr_gt (fER p s) 0
        && pcr_lt (fER p s / fveg p s) 1)
     * - ln (1 - fER p s / fveg p s) * Sveg p s)
    (fER p s).

(** The quotient by [gs] of line 949. *)
Definition conductance_ratio : option R :=
  pcr_div ((keps f / (1 + keps f)) * ga p f) (gs p s).

End Divisors.

(** ** Bounds of the stores *)

Definition bounds (p : Param) (s : State) : Prop :=
  0 <= S0 s <= S0max p /\ 0 <= Ss s <= Ssmax p /\ 0 <= Sd s <= Sdmax p
  /\ 0 <= Sr s /\ 0 <= FreeWater s /\ 0 <= DrySnow s.



(** ** A sample cell *)

(** The defaults of [initial] where it has them, the capacities and
    conductivities of the specification's end-to-end scenario, and free choices for
    the interception coefficient, the vegetation index and the relative
    wetness below which shallow root uptake is limited. *)
Definition cell_with (er vc wl : R) : Param :=
  {| S0max := 50; Ssmax := 200; Sdmax := 400;
     K0sat := 5; Kssat := 5; Kdsat := 5;
     w0limE := 0.85; wslimU := wl; wdlimU := 0.3;
     OpenWaterFrac := 0; slope := 0; hveg := 1; Gs_scalar := 1;
     ER_coeff := er; FsoilEmax := 0.2; S_sls := 0.1;
     snow_Cfmax := 3; snow_Cfr := 0.05; snow_TT := 0; snow_WHC := 0.1;
     snow_TTI := 1;
     fImp := 0; Pref := 100; Pref_imp := 10; fPotDeep := 0.5;
     K_gw := 0.05; K_rout := 0.5;
     LAImax := 8; ER_exp := 0.114; FwaterE := 1; InitLoss := 0;
     Kr_coeff := 0.0741; LAIref := 2.4; SLA := 5; slope_coeff := 0.9518;
     Tgrow := 200; Tsenc := 20; Ud0 := 6; Ug0 := 1; Us0 := 6;
     cGsmax := 0.02; Vc := vc |}.

Definition cell (er vc : R) : Param := cell_with er vc 0.3.

(** Soil stores at half their capacity, no snow, empty groundwater and
    surface stores. *)
Definition half_full : State :=
  {| S0 := 25; Ss := 100; Sd := 200; Mleaf := 0.48;
     FreeWater := 0; DrySnow := 0; Sg := 0; Sr := 0 |}.

(** A day with precipitation [P] and mean temperature [T]. *)
Definition day (P T : R) : Forcing :=
  {| PRECIP := P; TDAY := T; EPOT := 5; WINDSPEED := 1; AIRPRESS := 980;
     fday := 0.5; hand_fringe := 0; hand_shallow := 0; hand_deep := 0 |}.

(** A dry cell: 6 mm in the shallow root zone, nothing elsewhere. *)
Definition dry_state : State :=
  {| S0 := 0; Ss := 6; Sd := 0; Mleaf := 0.48;
     FreeWater := 0; DrySnow := 0; Sg := 0; Sr := 0 |}.

(** A calm, dry day at zero degrees with 5 mm of potential evaporation. *)
Definition calm_day : Forcing :=
  {| PRECIP := 0; TDAY := 0; EPOT := 5; WINDSPEED := 0; AIRPRESS := 980;
     fday := 0.5; hand_fringe := 0; hand_shallow := 0; hand_deep := 0 |}.

(** ** Derived parameters ([initial], lines 391-453) *)

(** The soil maps and retention pressures that [initial] reads to derive the
    capacities, conductivities and limits of the timestep.  The parameter
    multipliers of the framework ([wf_multparameters]) are taken to be
    absent. *)
Record Soil : Type := mkSoil {
  theta_s : R; psi_s : R; Lambda : R; k_s : R; K0_scalar : R; Ksat_exp : R;
  d0 : R; ds : R; dd : R;
  psi_FC : R; psi_FC0 : R; psi_ERRP : R; psi_d : R; psi_PWP : R; psi_res : R
}.

(** The layer depths and retention pressures default as in lines 296-304
    and 391-408. *)
Definition default_psi (ths ps lam ks k0 kexp : R) : Soil :=
  {| theta_s := ths; psi_s := ps; Lambda := lam; k_s := ks;
     K0_scalar := k0; Ksat_exp := kexp;
     d0 := 0.15; ds := 0.85; dd := 4.00;
     psi_FC := - 3.3; psi_FC0 := - 0.5; psi_ERRP := - 10; psi_d := - 50;
     psi_PWP := - 150; psi_res := - 1e6 |}.

Module Initial.
Section Derived.

Variable so : Soil.

(** Lines 414-431: the water content at a retention pressure. *)
Definition theta (psi : R) : R :=
  theta_s so * pcr_pow (Rmin 1 (psi_s so / psi)) (Lambda so).

Definition theta_FC : R := theta (psi_FC so).
Definition theta_FC0 : R := theta (psi_FC0 so).
Definition theta_ERRP : R := theta (psi_ERRP so).
Definition theta_d : R := theta (psi_d so).
Definition theta_PWP : R := theta (psi_PWP so).
Definition theta_res : R := theta (psi_res so).

(** Lines 433-453. *)
Definition S0max : R := d0 so * 1000 * (theta_FC0 - theta_res).
Definition Ssmax : R := ds so * 1000 * (theta_s so - theta_PWP).
Definition Sdmax : R := dd so * 1000 * (theta_s so - theta_PWP).
Definition K0sat : R := K0_scalar so * k_s so.
Definition Kssat : R :=
  K0_scalar so * pcr_pow ((ds so + d0 so) / d0 so) (- Ksat_exp so) * k_s so.
Definition Kdsat : R :=
  K0_scalar so
  * pcr_pow ((dd so + ds so + d0 so) / d0 so) (- Ksat_exp so) * k_s so.
Definition w0limE : R := (theta_ERRP - theta_res) / (theta_s so - theta_res).
Definition wslimU : R := (theta_d - theta_PWP) / (theta_s so - theta_PWP).
Definition wdlimU : R := (theta_d - theta_PWP) / (theta_s so - theta_PWP).

End Derived.
End Initial.

(** The parameters of a cell once [initial] has set the derived ones. *)
Definition with_initial (so : Soil) (p : Param) : Param :=
  {| S0max := Initial.S0max so; Ssmax := Initial.Ssmax so;
     Sdmax := Initial.Sdmax so;
     K0sat := Initial.K0sat so; Kssat := Initial.Kssat so;
     Kdsat := Initial.Kdsat so;
     w0limE := Initial.w0limE so; wslimU := Initial.wslimU so;
     wdlimU := Initial.wdlimU so;
     OpenWaterFrac := OpenWaterFrac p; slope := slope p; hveg := hveg p;
     Gs_scalar := Gs_scalar p; ER_coeff := ER_coeff p;
     FsoilEmax := FsoilEmax p; S_sls := S_sls p;
     snow_Cfmax := snow_Cfmax p; snow_Cfr := snow_Cfr p;
     snow_TT := snow_TT p; snow_WHC := snow_WHC p; snow_TTI := snow_TTI p;
     fImp := fImp p; Pref := Pref p; Pref_imp := Pref_imp p;
     fPotDeep := fPotDeep p; K_gw := K_gw p; K_rout := K_rout p;
     LAImax := LAImax p; ER_exp := ER_exp p; FwaterE := FwaterE p;
     InitLoss := InitLoss p; Kr_coeff := Kr_coeff p; LAIref := LAIref p;
     SLA := SLA p; slope_coeff := slope_coeff p; Tgrow := Tgrow p;
     Tsenc := Tsenc p; Ud0 := Ud0 p; Ug0 := Ug0 p; Us0 := Us0 p;
     cGsmax := cGsmax p; Vc := Vc p |}.

(** ** Default initial conditions ([resume] with [reinit = 1], lines 471-481) *)

Definition resume_reinit (p : Param) : State :=
  {| Sg := 0; Sr := 0; Mleaf := 2.0 / SLA p;
     S0 := 0.2 * w0limE p * S0max p;
     Ss := 0.2 * wslimU p * Ssmax p;
     Sd := 0.2 * wdlimU p * Sdmax p;
     FreeWater := 0; DrySnow := 0 |}.

(** ** Day length (lines 751-776) *)

Definition daylength_m (latitude : R) (doy : nat) : R :=
  1 - tan (latitude * PI / 180)
      * tan ((23.439 * PI / 180)
             * cos (2 * PI * (INR doy + 9) / 365.25)).

Definition daylength_fday (latitude : R) (doy : nat) : R :=
  Rmin
    (Rmax 0.02
       (acos (1 - Rmin (Rmax 0 (daylength_m latitude doy)) 2) / PI))
    1.

(** ** Height above nearest drainage ([interp_hand], lines 66-90) *)

(** The profile of one cell along [z]: the elevation and the percentile of
    each level. *)
Definition Profile : Type := list (R * R).

Definition pcr_eq (x y : R) : bool := if Req_dec_T x y then true else false.

(** [max] and [min] along [z] that skip masked levels; [None] (not a
    number) when every level is masked. *)
Fixpoint nanmax (l : list R) : option R :=
  match l with
  | nil => None
  | (x :: l')%list =>
      match nanmax l' with
      | None => Some x
      | Some m => Some (Rmax x m)
      end
  end.

Fixpoint nanmin (l : list R) : option R :=
  match l with
  | nil => None
  | (x :: l')%list =>
      match nanmin l' with
      | None => Some x
      | Some m => Some (Rmin x m)
      end
  end.

(** [fmax 0 (fmin 1 (a / b))] in floating point: [0 / 0] is not a number,
    which [fmin] and [fmax] skip; a non-zero [a] over [0] is infinite. *)
Definition unit_clip (a b : R) : R :=
  if Req_dec_T b 0
  then (if Rlt_dec a 0 then 0 else 1)
  else Rmax 0 (Rmin 1 (a / b)).

(** Lines 66-90 for one cell whose [z] is a number.  [None] stands for an
    empty profile (an index error) and for a result that is not a number (a
    missing value). *)
Definition interp_hand (z : R) (hand : Profile) : option R :=
  match hand with
  | nil => None
  | (first :: _)%list =>
      let z_lim := Rmin (Rmax z (fst first)) (fst (List.last hand first)) in
      let iLower := List.filter (fun l => pcr_le (fst l) z_lim) hand in
      let iUpper := List.filter (fun l => pcr_ge (fst l) z_lim) hand in
      match nanmax (List.map fst iLower), nanmin (List.map fst iUpper) with
      | Some lo, Some up =>
          let atLower := List.filter (fun l => pcr_eq (fst l) lo) iLower in
          let atUpper := List.filter (fun l => pcr_eq (fst l) up) iUpper in
          match nanmax (List.map snd atLower), nanmax (List.map fst atLower),
                nanmax (List.map snd atUpper), nanmax (List.map fst atUpper)
          with
          | Some PercLower, Some zLower, Some PercUpper, Some zUpper =>
              Some (PercLower
                    + (PercUpper - PercLower)
                      * unit_clip (z_lim - zLower) (zUpper - zLower))
          | _, _, _, _ => None
          end
      | _, _ => None
      end
  end.

(** Lines 381-389: [initial] puts a level of zero elevation and zero
    percentile below the levels it reads. *)
Definition HAND_profile (raw : Profile) : Profile :=
  match raw with
  | nil => nil
  | (first :: _)%list => ((fst first * 0.0, snd first * 0.0) :: raw)%list
  end.

(** Lines 831-849: the three lookups of a timestep, for a cell of the given
    porosity and air-entry pressure. *)
Definition z_fringe (hand : Profile) (porosity psi_s : R) (s : State) : R :=
  fst (List.hd (0, 0) hand) + (Sg s / (porosity * 1000) + (- psi_s)).

Definition z_roots (hand : Profile) (porosity RD : R) (s : State) : R :=
  fst (List.hd (0, 0) hand) + Sg s / (porosity * 1e3) + RD.

Definition hand_lookups (hand : Profile) (porosity psi_s : R) (s : State)
  : option (R * R * R) :=
  match interp_hand (z_fringe hand porosity psi_s s) hand,
        interp_hand (z_roots hand porosity 1.0 s) hand,
        interp_hand (z_roots hand porosity 7.0 s) hand
  with
  | Some a, Some b, Some c => Some (a, b, c)
  | _, _, _ => None
  end.

(** ** The forcing of a timestep with its day length and lookups *)

(** Line 764: [self.fday] is set from the latitude and the day of the
    year before the forcing is used. *)
Definition with_fday (f : Forcing) (latitude : R) (doy : nat) : Forcing :=
  {| PRECIP := PRECIP f; TDAY := TDAY f; EPOT := EPOT f;
     WINDSPEED := WINDSPEED f; AIRPRESS := AIRPRESS f;
     fday := daylength_fday latitude doy;
     hand_fringe := hand_fringe f; hand_shallow := hand_shallow f;
     hand_deep := hand_deep f |}.

(** Lines 838-849: the three lookups as the timestep reads them. *)
Definition with_hand (f : Forcing) (t : R * R * R) : Forcing :=
  {| PRECIP := PRECIP f; TDAY := TDAY f; EPOT := EPOT f;
     WINDSPEED := WINDSPEED f; AIRPRESS := AIRPRESS f; fday := fday f;
     hand_fringe := fst (fst t); hand_shallow := snd (fst t);
     hand_deep := snd t |}.

(** ** Predicates of the further properties *)

(** What a layer function keeps: non-negative outflows, a storage within
    the capacity, and an extraction covered by the water at hand. *)
Definition layer_sound (S I Smax : R) (l : Layer) : Prop :=
  0 <= drainage l /\ 0 <= interflow l
  /\ 0 <= storage l <= Smax
  /\ extraction l <= S + I.

(** The water held by the land phase of a cell, and by the whole cell. *)
Definition land_storage (s : State) : R :=
  S0 s + Ss s + Sd s + Sg s + FreeWater s + DrySnow s.

Definition cell_storage (s : State) : R := land_storage s + Sr s.

(** A profile whose percentile does not fall as the elevation rises. *)
Definition rising (hand : Profile) : Prop :=
  forall l l', In l hand -> In l' hand -> fst l <= fst l' -> snd l <= snd l'.

(** The two levels that enclose [z] in a profile: [lo] is the highest
    elevation at or below [z], [up] the lowest at or above it, and [plo],
    [pup] are the largest percentiles recorded at these elevations. *)
Definition selects (z : R) (hand : Profile) (lo plo up pup : R) : Prop :=
  (exists l, In l hand /\ fst l = lo /\ snd l = plo)
  /\ (exists l, In l hand /\ fst l = up /\ snd l = pup)
  /\ lo <= z <= up
  /\ (forall l, In l hand -> fst l <= z -> fst l <= lo)
  /\ (forall l, In l hand -> z <= fst l -> up <= fst l)
  /\ (forall l, In l hand -> fst l = lo -> snd l <= plo)
  /\ (forall l, In l hand -> fst l = up -> snd l <= pup).

(** ** A sample soil and a sample profile *)

(** A loam with the default depths and retention pressures. *)
Definition loam : Soil := default_psi 0.45 (- 0.2) 0.25 100 1 3.

(** Three levels: the drainage base, 2 m at the 10th and 4 m at the 50th
    percentile. *)
Definition steps : Profile := ((0, 0) :: (2, 10) :: (4, 50) :: nil)%list.

(** * Auxiliary results *)

(** ** Comparisons, selections and extrema *)

Lemma pcr_le_true (x y : R) : x <= y -> pcr_le x y = true.
Proof. intros H. unfold pcr_le. destruct (Rle_dec x y); [reflexivity | contradiction]. Qed.

Lemma pcr_le_false (x y : R) : y < x -> pcr_le x y = false.
Proof. intros H. unfold pcr_le. destruct (Rle_dec x y); [lra | reflexivity]. Qed.

Lemma pcr_lt_true (x y : R) : x < y -> pcr_lt x y = true.
Proof. intros H. unfold pcr_lt. destruct (Rlt_dec x y); [reflexivity | contradiction]. Qed.

Lemma pcr_lt_false (x y : R) : y <= x -> pcr_lt x y = false.
Proof. intros H. unfold pcr_lt. destruct (Rlt_dec x y); [lra | reflexivity]. Qed.

Lemma clamp_range (x m : R) : 0 <= m -> 0 <= Rmax 0 (Rmin x m) <= m.
Proof.
  intros Hm. split.
  - apply Rmax_l.
  - apply Rmax_lub; [exact Hm | apply Rmin_r].
Qed.

Lemma clamp_id (x m : R) : 0 <= x <= m -> Rmax 0 (Rmin x m) = x.
Proof.
  intros [H0 Hm]. rewrite Rmin_left by exact Hm. apply Rmax_right. exact H0.
Qed.

Ltac pick_extrema :=
  repeat match goal with
    | |- context [Rmax ?a ?b] =>
        first [ rewrite (Rmax_left a b) by lra
              | rewrite (Rmax_right a b) by lra ]
    | |- context [Rmin ?a ?b] =>
        first [ rewrite (Rmin_left a b) by lra
              | rewrite (Rmin_right a b) by lra ]
    end.

(** ** The root of the general case *)

Section QuadRoot.

Variables A X : R.
Hypothesis A_pos : 0 < A.

(** The program's expression, with [B = 1] and [C = -X], is [quad_root]. *)
Lemma general_root_eq :
  (- 1 + sqrt (1 ^ 2 - 4 * A * - X)) / (2 * A) = quad_root A X.
Proof. unfold quad_root. do 3 f_equal. ring. Qed.

Lemma quad_root_nonpos : X <= 0 -> quad_root A X <= 0.
Proof.
  intros HX. unfold quad_root.
  assert (Hs : sqrt (1 + 4 * A * X) <= 1).
  { rewrite <- sqrt_1 at 2. apply sqrt_le_1_alt. nra. }
  apply Rmult_le_reg_r with (2 * A); [lra |].
  unfold Rdiv. rewrite Rmult_assoc, Rinv_l by lra. lra.
Qed.

Lemma quad_root_pos : 0 < X -> 0 < quad_root A X.
Proof.
  intros HX. unfold quad_root.
  assert (Hs : 1 < sqrt (1 + 4 * A * X)).
  { rewrite <- sqrt_1 at 1. apply sqrt_lt_1_alt. nra. }
  apply Rdiv_lt_0_compat; lra.
Qed.

Lemma quad_root_nonneg : 0 <= X -> 0 <= quad_root A X.
Proof.
  intros [HX | HX].
  - left. apply quad_root_pos. exact HX.
  - subst X. unfold quad_root.
    replace (1 + 4 * A * 0) with 1 by ring. rewrite sqrt_1.
    replace (- 1 + 1) with 0 by ring. unfold Rdiv. rewrite Rmult_0_l. lra.
Qed.

(** The root solves [A r^2 + r - X = 0]. *)
Lemma quad_root_solves :
  0 <= 1 + 4 * A * X ->
  A * quad_root A X ^ 2 + quad_root A X = X.
Proof.
  intros Hd. unfold quad_root.
  pose proof (sqrt_sqrt _ Hd) as Hs.
  set (q := sqrt (1 + 4 * A * X)) in *.
  field_simplify; [| lra].
  replace (q ^ 2) with (q * q) by ring. rewrite Hs. field. lra.
Qed.

Lemma quad_root_le : 0 <= X -> quad_root A X <= X.
Proof.
  intros HX.
  assert (Hd : 0 <= 1 + 4 * A * X) by nra.
  pose proof (quad_root_solves Hd) as He.
  pose proof (quad_root_nonneg HX) as Hr.
  nra.
Qed.

End QuadRoot.


Lemma sqrt_mult_pos (a b : R) : 0 < a -> 0 < b -> 0 < sqrt (a * b).
Proof. intros Ha Hb. apply sqrt_lt_R0. nra. Qed.


(** ** The three regimes of each layer *)

Ltac layer_cases :=
  cbv zeta; rewrite ?general_root_eq; unfold ifthenelse.

Lemma S0_branches_general (S I U Smax Ka Kb Rh : R) :
  U < S + I -> I - U < Smax - S + Ka ->
  S0_branches S I U Smax Ka Kb Rh =
    let Km := sqrt (Ka * Kb) in
    let S' := quad_root (Km / Smax ^ 2) (S + I - U) in
    mkLayer U S' ((1 - Rh) * Km * (S' / Smax) ^ 2) (Rh * Km * (S' / Smax) ^ 2).
Proof.
  intros Hd Hs. unfold S0_branches. layer_cases.
  rewrite (pcr_le_false (S + I) U) by exact Hd.
  rewrite pcr_le_false by lra. reflexivity.
Qed.

Lemma S0_branches_depletion (S I U Smax Ka Kb Rh : R) :
  0 < Smax + Ka -> S + I <= U ->
  S0_branches S I U Smax Ka Kb Rh = mkLayer (S + I) 0 0 0.
Proof.
  intros Hp Hd. unfold S0_branches. layer_cases.
  rewrite (pcr_le_true (S + I) U) by exact Hd.
  rewrite pcr_le_false by lra. reflexivity.
Qed.

Lemma S0_branches_saturation (S I U Smax Ka Kb Rh : R) :
  0 < Smax + Ka -> Smax - S + Ka <= I - U ->
  S0_branches S I U Smax Ka Kb Rh =
    mkLayer U Smax ((1 - Rh) * Ka) (Rh * Ka + (S - Smax - Ka + I - U)).
Proof.
  intros Hp Hs. unfold S0_branches. layer_cases.
  rewrite (pcr_le_false (S + I) U) by lra.
  rewrite pcr_le_true by lra. reflexivity.
Qed.

Lemma S0_closure_residual (S I Smax Rh : R) (b : Layer) :
  layer_residual S I (S0_closure S I Smax Rh b) = 0.
Proof. unfold layer_residual, S0_closure. simpl. ring. Qed.

(** A branch result that already balances and lies within the capacity is
    left alone by the closure. *)
Lemma S0_closure_fixed (S I Smax Rh : R) (b : Layer) :
  0 <= storage b <= Smax -> layer_residual S I b = 0 ->
  S0_closure S I Smax Rh b = b.
Proof.
  intros Hc Hr. unfold S0_closure. rewrite clamp_id by exact Hc.
  unfold layer_residual in Hr. rewrite Hr.
  destruct b; simpl. f_equal; ring.
Qed.

Lemma Ss_branches_general (S I U Smax Ka Kb Rh : R) :
  U < quad_root (sqrt (Ka * Kb) / Smax ^ 2) (S + I - U) + I ->
  I - U < Smax - S + Ka ->
  Ss_branches S I U Smax Ka Kb Rh =
    let Km := sqrt (Ka * Kb) in
    let S' := quad_root (Km / Smax ^ 2) (S + I - U) in
    mkLayer U S' ((1 - Rh) * Km * (S' / Smax) ^ 2) (Rh * Km * (S' / Smax) ^ 2).
Proof.
  intros Hd Hs. unfold Ss_branches. layer_cases.
  rewrite (pcr_le_false (_ + I) U) by exact Hd.
  rewrite pcr_le_false by lra. reflexivity.
Qed.

(** The test the program makes for depletion in this layer. *)
Lemma Ss_branches_depletion_test (S I U Smax Ka Kb Rh : R) :
  0 < Smax + Ka ->
  quad_root (sqrt (Ka * Kb) / Smax ^ 2) (S + I - U) + I <= U ->
  Ss_branches S I U Smax Ka Kb Rh = mkLayer (S + I) 0 0 0.
Proof.
  intros Hp Hd. unfold Ss_branches. layer_cases.
  rewrite (pcr_le_true (_ + I) U) by exact Hd.
  rewrite pcr_le_false by lra. reflexivity.
Qed.

Lemma Ss_branches_depletion (S I U Smax Ka Kb Rh : R) :
  0 < Smax -> 0 < Ka -> 0 < Kb -> 0 <= S -> S + I <= U ->
  Ss_branches S I U Smax Ka Kb Rh = mkLayer (S + I) 0 0 0.
Proof.
  intros HS HKa HKb H0 Hd.
  apply Ss_branches_depletion_test; [lra |].
  assert (HA : 0 < sqrt (Ka * Kb) / Smax ^ 2).
  { apply Rdiv_lt_0_compat; [apply sqrt_mult_pos; assumption | nra]. }
  pose proof (quad_root_nonpos _ (S + I - U) HA). lra.
Qed.

Lemma Ss_branches_saturation (S I U Smax Ka Kb Rh : R) :
  0 < Smax -> 0 < Ka -> 0 < Kb -> S <= Smax -> Smax - S + Ka <= I - U ->
  Ss_branches S I U Smax Ka Kb Rh =
    mkLayer U Smax ((1 - Rh) * Ka) (Rh * Ka + (S - Smax - Ka + I - U)).
Proof.
  intros HS HKa HKb Hle Hs.
  assert (HA : 0 < sqrt (Ka * Kb) / Smax ^ 2).
  { apply Rdiv_lt_0_compat; [apply sqrt_mult_pos; assumption | nra]. }
  assert (Hr : 0 < quad_root (sqrt (Ka * Kb) / Smax ^ 2) (S + I - U)).
  { apply quad_root_pos; [exact HA | lra]. }
  unfold Ss_branches. layer_cases.
  rewrite (pcr_le_false (_ + I) U) by lra.
  rewrite pcr_le_true by lra. reflexivity.
Qed.

Lemma Ss_closure_residual (S I Smax Rh : R) (b : Layer) :
  layer_residual S I (Ss_closure S I Smax Rh b) = 0.
Proof. unfold layer_residual, Ss_closure. simpl. ring. Qed.

Lemma Ss_closure_fixed (S I Smax Rh : R) (b : Layer) :
  0 <= storage b <= Smax -> layer_residual S I b = 0 ->
  Ss_closure S I Smax Rh b = b.
Proof.
  intros Hc Hr. unfold Ss_closure. rewrite clamp_id by exact Hc.
  unfold layer_residual in Hr. rewrite Hr.
  destruct b; simpl. f_equal; ring.
Qed.

Lemma Sd_branches_general (S I U Smax Ka : R) :
  U < quad_root (Ka / Smax ^ 2) (S + I - U) + I ->
  I - U < Smax - S + Ka ->
  Sd_branches S I U Smax Ka =
    let S' := quad_root (Ka / Smax ^ 2) (S + I - U) in
    mkLayer U S' (Ka * (S' / Smax) ^ 2) (0 * (Ka * (S' / Smax) ^ 2)).
Proof.
  intros Hd Hs. unfold Sd_branches. layer_cases.
  rewrite (pcr_le_false (_ + I) U) by exact Hd.
  rewrite pcr_le_false by lra. reflexivity.
Qed.

Lemma Sd_branches_depletion_test (S I U Smax Ka : R) :
  0 < Smax + Ka ->
  quad_root (Ka / Smax ^ 2) (S + I - U) + I <= U ->
  Sd_branches S I U Smax Ka =
    mkLayer (S + I) 0 0
      (0 * (Ka * (quad_root (Ka / Smax ^ 2) (S + I - U) / Smax) ^ 2)).
Proof.
  intros Hp Hd. unfold Sd_branches. layer_cases.
  rewrite (pcr_le_true (_ + I) U) by exact Hd.
  rewrite pcr_le_false by lra. reflexivity.
Qed.

Lemma Sd_branches_depletion (S I U Smax Ka : R) :
  0 < Smax -> 0 < Ka -> 0 <= S -> S + I <= U ->
  Sd_branches S I U Smax Ka = mkLayer (S + I) 0 0 0.
Proof.
  intros HS HKa H0 Hd.
  assert (HA : 0 < Ka / Smax ^ 2) by (apply Rdiv_lt_0_compat; nra).
  pose proof (quad_root_nonpos _ (S + I - U) HA).
  rewrite Sd_branches_depletion_test by lra.
  f_equal. ring.
Qed.

Lemma Sd_branches_saturation (S I U Smax Ka : R) :
  0 < Smax -> 0 < Ka -> S <= Smax -> Smax - S + Ka <= I - U ->
  Sd_branches S I U Smax Ka =
    mkLayer U Smax Ka (S - Smax - Ka + I - U).
Proof.
  intros HS HKa Hle Hs.
  assert (HA : 0 < Ka / Smax ^ 2) by (apply Rdiv_lt_0_compat; nra).
  assert (Hr : 0 < quad_root (Ka / Smax ^ 2) (S + I - U)).
  { apply quad_root_pos; [exact HA | lra]. }
  unfold Sd_branches. layer_cases.
  rewrite (pcr_le_false (_ + I) U) by lra.
  rewrite pcr_le_true by lra. reflexivity.
Qed.

Lemma Sd_closure_residual (S I Smax : R) (b : Layer) :
  layer_residual S I (Sd_closure S I Smax b) = 0.
Proof. unfold layer_residual, Sd_closure. simpl. ring. Qed.

Lemma Sd_closure_fixed (S I Smax : R) (b : Layer) :
  0 <= storage b <= Smax -> layer_residual S I b = 0 ->
  Sd_closure S I Smax b = b.
Proof.
  intros Hc Hr. unfold Sd_closure. rewrite clamp_id by exact Hc.
  unfold layer_residual in Hr. rewrite Hr.
  destruct b; simpl. f_equal; ring.
Qed.

(** The general-case result balances: the root solves the quadratic. *)
Lemma general_case_residual (S I U Smax Km Rh : R) :
  0 < Smax -> 0 < Km -> 0 < S + I - U ->
  let S' := quad_root (Km / Smax ^ 2) (S + I - U) in
  layer_residual S I
    (mkLayer U S' ((1 - Rh) * Km * (S' / Smax) ^ 2)
       (Rh * Km * (S' / Smax) ^ 2)) = 0.
Proof.
  intros HS HK HX S'.
  assert (HA : 0 < Km / Smax ^ 2) by (apply Rdiv_lt_0_compat; nra).
  assert (Hd : 0 <= 1 + 4 * (Km / Smax ^ 2) * (S + I - U)) by nra.
  pose proof (quad_root_solves _ _ HA Hd) as He. fold S' in He.
  unfold layer_residual. simpl.
  assert (Hk : Km * (S' / Smax) ^ 2 = Km / Smax ^ 2 * S' ^ 2) by (field; lra).
  nra.
Qed.

Lemma S0_balance_depletion (S I U Smax Ka Kb Rh : R) :
  0 < Smax -> 0 < Ka -> depletion_condition S I U ->
  S0_balance S I U Smax Ka Kb Rh = mkLayer (S + I) 0 0 0.
Proof.
  intros HS HK Hd. unfold S0_balance.
  rewrite S0_branches_depletion by (assumption || lra).
  apply S0_closure_fixed; [simpl; lra | unfold layer_residual; simpl; ring].
Qed.

Lemma Ss_balance_depletion_test (S I U Smax Ka Kb Rh : R) :
  0 < Smax -> 0 < Ka ->
  quad_root (sqrt (Ka * Kb) / Smax ^ 2) (S + I - U) + I <= U ->
  Ss_balance S I U Smax Ka Kb Rh = mkLayer (S + I) 0 0 0.
Proof.
  intros HS HK Hd. unfold Ss_balance.
  rewrite Ss_branches_depletion_test by (assumption || lra).
  apply Ss_closure_fixed; [simpl; lra | unfold layer_residual; simpl; ring].
Qed.

Lemma Sd_balance_depletion_test (S I U Smax Ka : R) :
  0 < Smax -> 0 < Ka ->
  quad_root (Ka / Smax ^ 2) (S + I - U) + I <= U ->
  Sd_balance S I U Smax Ka = mkLayer (S + I) 0 0 0.
Proof.
  intros HS HK Hd. unfold Sd_balance.
  rewrite Sd_branches_depletion_test by (assumption || lra).
  replace (0 * _) with 0 by ring.
  apply Sd_closure_fixed; [simpl; lra | unfold layer_residual; simpl; ring].
Qed.

Lemma S0_balance_saturation (S I U Smax Ka Kb Rh : R) :
  0 < Smax -> 0 < Ka -> saturation_condition S I U Smax Ka ->
  S0_balance S I U Smax Ka Kb Rh =
    mkLayer U Smax ((1 - Rh) * Ka) (Rh * Ka + (S - Smax - Ka + I - U)).
Proof.
  intros HS HK Hs. unfold S0_balance.
  rewrite S0_branches_saturation by (assumption || lra).
  apply S0_closure_fixed; [simpl; lra | unfold layer_residual; simpl; ring].
Qed.

Lemma Ss_balance_saturation (S I U Smax Ka Kb Rh : R) :
  0 < Smax -> 0 < Ka -> 0 < Kb -> S <= Smax ->
  saturation_condition S I U Smax Ka ->
  Ss_balance S I U Smax Ka Kb Rh =
    mkLayer U Smax ((1 - Rh) * Ka) (Rh * Ka + (S - Smax - Ka + I - U)).
Proof.
  intros HS HKa HKb Hle Hs. unfold Ss_balance.
  rewrite Ss_branches_saturation by assumption.
  apply Ss_closure_fixed; [simpl; lra | unfold layer_residual; simpl; ring].
Qed.

Lemma Sd_balance_saturation (S I U Smax Ka : R) :
  0 < Smax -> 0 < Ka -> S <= Smax ->
  saturation_condition S I U Smax Ka ->
  Sd_balance S I U Smax Ka = mkLayer U Smax Ka (S - Smax - Ka + I - U).
Proof.
  intros HS HKa Hle Hs. unfold Sd_balance.
  rewrite Sd_branches_saturation by assumption.
  apply Sd_closure_fixed; [simpl; lra | unfold layer_residual; simpl; ring].
Qed.

(** ** Recession of the groundwater and surface stores *)

Lemma recession_factor (K : R) : 0 < K -> 0 < exp (- K) < 1.
Proof.
  intros HK. split; [apply exp_pos |].
  rewrite <- exp_0. apply exp_increasing. lra.
Qed.

Lemma groundwater_recession (K x : R) :
  0 < K -> 0 <= x -> snd (groundwater_store x 0 K) = exp (- K) * x.
Proof.
  intros HK Hx. destruct (recession_factor K HK) as [He0 He1].
  unfold groundwater_store. cbn [snd].
  replace (x + 0) with x by ring.
  rewrite (Rmax_left x 0) by exact Hx.
  rewrite Rmin_right by nra. ring.
Qed.

Lemma surface_recession (K x : R) :
  0 < K -> 0 <= x -> snd (surface_store x 0 0 0 K) = exp (- K) * x.
Proof.
  intros HK Hx. destruct (recession_factor K HK) as [He0 He1].
  unfold surface_store. cbn [snd].
  replace (x + 0 - 0 + 0) with x by ring.
  rewrite (Rmax_right 0 x) by exact Hx.
  rewrite Rmin_right by nra.
  rewrite Rmax_right by nra. ring.
Qed.

Lemma recede_Sg_succ (K x : R) (n : nat) :
  0 < K -> 0 <= recede_Sg K n x ->
  recede_Sg K (S n) x = exp (- K) * recede_Sg K n x.
Proof.
  intros HK Hn. cbn [recede_Sg]. apply groundwater_recession; assumption.
Qed.

Lemma recede_Sr_succ (K x : R) (n : nat) :
  0 < K -> 0 <= recede_Sr K n x ->
  recede_Sr K (S n) x = exp (- K) * recede_Sr K n x.
Proof.
  intros HK Hn. cbn [recede_Sr]. apply surface_recession; assumption.
Qed.

Lemma recede_Sg_step (K x : R) (n : nat) :
  0 < K -> 0 <= x ->
  0 <= recede_Sg K n x
  /\ recede_Sg K (S n) x <= recede_Sg K n x
  /\ (0 < x -> 0 < recede_Sg K n x
               /\ recede_Sg K (S n) x < recede_Sg K n x)
  /\ (x = 0 -> recede_Sg K n x = 0).
Proof.
  intros HK Hx. destruct (recession_factor K HK) as [He0 He1].
  induction n as [| n IH].
  - rewrite recede_Sg_succ by (cbn [recede_Sg]; assumption).
    cbn [recede_Sg]. repeat split; nra.
  - destruct IH as (Hn & Hle & Hpos & Hz).
    assert (E1 := recede_Sg_succ K x n HK Hn).
    assert (Hn1 : 0 <= recede_Sg K (S n) x) by (rewrite E1; nra).
    assert (E2 := recede_Sg_succ K x (S n) HK Hn1).
    split; [exact Hn1 |]. split; [rewrite E2; nra |]. split.
    + intros Hp. destruct (Hpos Hp) as [Hp1 _].
      assert (0 < recede_Sg K (S n) x) by (rewrite E1; nra).
      split; [assumption | rewrite E2; nra].
    + intros H0. rewrite E1, (Hz H0). ring.
Qed.

Lemma recede_Sr_step (K x : R) (n : nat) :
  0 < K -> 0 <= x ->
  0 <= recede_Sr K n x
  /\ recede_Sr K (S n) x <= recede_Sr K n x
  /\ (0 < x -> 0 < recede_Sr K n x
               /\ recede_Sr K (S n) x < recede_Sr K n x)
  /\ (x = 0 -> recede_Sr K n x = 0).
Proof.
  intros HK Hx. destruct (recession_factor K HK) as [He0 He1].
  induction n as [| n IH].
  - rewrite recede_Sr_succ by (cbn [recede_Sr]; assumption).
    cbn [recede_Sr]. repeat split; nra.
  - destruct IH as (Hn & Hle & Hpos & Hz).
    assert (E1 := recede_Sr_succ K x n HK Hn).
    assert (Hn1 : 0 <= recede_Sr K (S n) x) by (rewrite E1; nra).
    assert (E2 := recede_Sr_succ K x (S n) HK Hn1).
    split; [exact Hn1 |]. split; [rewrite E2; nra |]. split.
    + intros Hp. destruct (Hpos Hp) as [Hp1 _].
      assert (0 < recede_Sr K (S n) x) by (rewrite E1; nra).
      split; [assumption | rewrite E2; nra].
    + intros H0. rewrite E1, (Hz H0). ring.
Qed.

Lemma surface_store_nonneg (Sr QR Erl Qg K : R) :
  0 <= snd (surface_store Sr QR Erl Qg K).
Proof.
  unfold surface_store. cbn [snd].
  pose proof (Rmax_l 0 (Sr + QR - Erl + Qg)) as H0.
  set (Sr1 := Rmax 0 (Sr + QR - Erl + Qg)) in *.
  pose proof (Rmin_l Sr1 ((1 - exp (- K)) * Sr1)) as Hm.
  assert (Rmax 0 (Rmin Sr1 ((1 - exp (- K)) * Sr1)) <= Sr1).
  { apply Rmax_lub; assumption. }
  lra.
Qed.

(** ** Powers, cover fraction and open water *)

Lemma pcr_pow_nonneg (x y : R) : 0 <= pcr_pow x y.
Proof.
  unfold pcr_pow. destruct (Rlt_dec 0 x); [| lra].
  unfold Rpower. left. apply exp_pos.
Qed.

Lemma pcr_pow_one (y : R) : pcr_pow 1 y = 1.
Proof.
  unfold pcr_pow. destruct (Rlt_dec 0 1); [| lra].
  unfold Rpower. rewrite ln_1, Rmult_0_r. apply exp_0.
Qed.

Lemma pcr_pow_pos (x y : R) : 0 < x -> 0 < pcr_pow x y.
Proof.
  intros Hx. unfold pcr_pow. destruct (Rlt_dec 0 x); [| contradiction].
  unfold Rpower. apply exp_pos.
Qed.

Lemma pcr_tanh_0 : pcr_tanh 0 = 0.
Proof.
  unfold pcr_tanh. replace (- 0) with 0 by ring. rewrite exp_0.
  unfold Rdiv. ring.
Qed.

Lemma exp_minus_one : exp (- 1) < 1 / 2.
Proof.
  assert (H : 1 + 1 < exp 1) by (apply exp_ineq1; lra).
  replace (- 1) with (Ropp 1) by lra. rewrite exp_Ropp.
  apply Rmult_lt_reg_r with (exp 1); [lra |].
  rewrite Rinv_l by lra. lra.
Qed.

Lemma fveg_range (p : Param) (s : State) : 0.000001 <= fveg p s <= 1.
Proof.
  unfold fveg. split; [apply Rmax_r |].
  apply Rmax_lub; [| lra].
  pose proof (exp_pos (- LAI p s / LAIref p)). lra.
Qed.

(** A canopy whose leaf area index equals the reference value covers more
    than half of the cell. *)
Lemma fveg_at_LAIref (p : Param) (s : State) :
  - LAI p s / LAIref p = - 1 -> 1 / 2 < fveg p s <= 1.
Proof.
  intros HL. split; [| apply fveg_range].
  apply Rlt_le_trans with (1 - exp (- LAI p s / LAIref p)); [| apply Rmax_l].
  rewrite HL. pose proof exp_minus_one. lra.
Qed.

Lemma ChannelSurface_zero (s : State) : 0 <= Sr s -> ChannelSurface s = 0.
Proof.
  intros HSr. unfold ChannelSurface. apply Rmin_left.
  pose proof (pcr_pow_nonneg (Sr s) 0.75). nra.
Qed.

Lemma run_Sr_nonneg (p : Param) (fs : list Forcing) (s : State) :
  0 <= Sr s -> 0 <= Sr (run p fs s).
Proof.
  revert s. induction fs as [| f fs IH]; intros s Hs; [exact Hs |].
  cbn [run]. apply IH. unfold dynamic. cbn [Sr]. unfold surface.
  apply surface_store_nonneg.
Qed.

Lemma fER_le_one (p : Param) (s : State) :
  ER_coeff p * pcr_pow (Rmax 0.05 (hveg p)) (ER_exp p) <= 1 ->
  fER p s <= 1.
Proof.
  intros Hc. unfold fER. pose proof (fveg_range p s) as [Hv0 Hv1].
  set (v := fveg p s) in *.
  rewrite Rmult_assoc.
  set (c := ER_coeff p * pcr_pow (Rmax 0.05 (hveg p)) (ER_exp p)) in *.
  destruct (Rle_dec 0 c); nra.
Qed.

(** ** Interception and snow *)

Lemma Ei_frozen (T24 Pg Pwet fveg fER : R) :
  T24 <= 0 -> Ei_of T24 Pg Pwet fveg fER = 0.
Proof.
  intros HT. unfold Ei_of, pcr_gt. rewrite pcr_lt_false by exact HT.
  unfold pcr_scalar. ring.
Qed.

Lemma Ei_below_wetting (T24 Pg Pwet fveg fER : R) :
  0 < T24 -> Pg < Pwet -> Ei_of T24 Pg Pwet fveg fER = fveg * Pg.
Proof.
  intros HT HP. unfold Ei_of, pcr_gt, pcr_ge.
  rewrite (pcr_lt_true 0 T24) by exact HT.
  rewrite pcr_lt_true by exact HP. rewrite pcr_le_false by exact HP.
  unfold pcr_scalar. ring.
Qed.

Lemma Ei_above_wetting (T24 Pg Pwet fveg fER : R) :
  0 < T24 -> Pwet <= Pg ->
  Ei_of T24 Pg Pwet fveg fER = fveg * Pwet + fER * (Pg - Pwet).
Proof.
  intros HT HP. unfold Ei_of, pcr_gt, pcr_ge.
  rewrite (pcr_lt_true 0 T24) by exact HT.
  rewrite pcr_lt_false by exact HP. rewrite pcr_le_true by exact HP.
  unfold pcr_scalar. ring.
Qed.

Lemma Pwet_nonneg (Sveg fER fveg : R) : 0 <= Pwet_of Sveg fER fveg.
Proof. unfold Pwet_of. apply Rmax_l. Qed.


(** Interception does not exceed the precipitation as long as the
    coefficient [fER] does not exceed one. *)
Lemma Ei_le_Pg (T24 Pg Pwet fveg fER : R) :
  0 <= Pg -> 0 <= Pwet -> 0 <= fveg <= 1 -> fER <= 1 ->
  Ei_of T24 Pg Pwet fveg fER <= Pg.
Proof.
  intros HP HW Hv HE.
  destruct (Rlt_dec 0 T24) as [HT | HT].
  - destruct (Rlt_dec Pg Pwet) as [Hlt | Hge].
    + rewrite Ei_below_wetting by assumption. nra.
    + rewrite Ei_above_wetting by lra. nra.
  - rewrite Ei_frozen by lra. exact HP.
Qed.

Lemma RainFrac_range (x : R) : 0 <= Rmax 0 (Rmin x 1) <= 1.
Proof. apply clamp_range. lra. Qed.

Lemma snow_nonneg (Pn T FW DS TT TTI Cfmax Cfr WHC : R) :
  0 <= Pn -> 0 <= FW -> 0 <= DS ->
  0 <= Cfmax -> 0 <= Cfr -> 0 <= WHC ->
  0 <= snow_DrySnow (snow_routine Pn T FW DS TT TTI Cfmax Cfr WHC)
  /\ 0 <= snow_FreeWater (snow_routine Pn T FW DS TT TTI Cfmax Cfr WHC).
Proof.
  intros HPn HFW HDS HCf HCr HW. unfold snow_routine. cbv zeta.
  cbn [snow_DrySnow snow_FreeWater].
  pose proof (RainFrac_range ((T - (TT - TTI / 2)) / TTI)) as HR.
  set (RainFrac := Rmax 0 (Rmin ((T - (TT - TTI / 2)) / TTI) 1)) in *.
  assert (Hmelt0 : 0 <= Cfmax * Rmax 0 (T - TT)).
  { apply Rmult_le_pos; [exact HCf | apply Rmax_l]. }
  assert (Hre0 : 0 <= Cfmax * Cfr * Rmax (TT - T) 0).
  { apply Rmult_le_pos; [nra | apply Rmax_r]. }
  set (PotSnowMelt := Cfmax * Rmax 0 (T - TT)) in *.
  set (PotRefreezing := Cfmax * Cfr * Rmax (TT - T) 0) in *.
  assert (HRf : 0 <= Rmin PotRefreezing FW <= FW).
  { split; [apply Rmin_glb; assumption | apply Rmin_r]. }
  assert (HSm : 0 <= Rmin PotSnowMelt DS <= DS).
  { split; [apply Rmin_glb; assumption | apply Rmin_r]. }
  set (Refreezing := Rmin PotRefreezing FW) in *.
  set (SnowMelt := Rmin PotSnowMelt DS) in *.
  split; [nra |].
  set (FW2 := FW - Refreezing + SnowMelt + RainFrac * Pn).
  assert (HFW2 : 0 <= FW2) by (unfold FW2; nra).
  set (MaxFW := (FW - Refreezing) * WHC).
  assert (HMax : 0 <= MaxFW) by (unfold MaxFW; nra).
  unfold Rmax. destruct (Rle_dec (FW2 - MaxFW) 0); lra.
Qed.

Lemma dynamic_bounds (p : Param) (f : Forcing) (s : State) :
  bounds p s -> 0 <= PRECIP f ->
  0 <= snow_Cfmax p -> 0 <= snow_Cfr p -> 0 <= snow_WHC p ->
  fER p s <= 1 ->
  bounds p (dynamic p f s).
Proof.
  intros (H0 & Hs & Hd & Hr & HFW & HDS) HP HCf HCr HW HE.
  assert (HPn : 0 <= Pn p f s).
  { unfold Pn, Ei, Pg.
    pose proof (Ei_le_Pg (T24 f) (PRECIP f) (Pwet p s) (fveg p s) (fER p s)
                  HP (Pwet_nonneg _ _ _)) as H.
    pose proof (fveg_range p s). lra. }
  destruct (snow_nonneg (Pn p f s) (T24 f) (FreeWater s) (DrySnow s)
              (snow_TT p) (snow_TTI p) (snow_Cfmax p) (snow_Cfr p)
              (snow_WHC p) HPn HFW HDS HCf HCr HW) as [HD' HF'].
  unfold bounds, dynamic. cbn [S0 Ss Sd Sr FreeWater DrySnow].
  split; [apply clamp_range; lra |].
  split; [apply clamp_range; lra |].
  split; [apply clamp_range; lra |].
  split; [apply surface_store_nonneg |].
  split; assumption.
Qed.

(** ** Checked division *)

Lemma pcr_div_defined (x y : R) : y <> 0 -> pcr_div x y = Some (x / y).
Proof.
  intros H. unfold pcr_div. destruct (Req_dec_T y 0); [contradiction |].
  reflexivity.
Qed.

Lemma pcr_div_by_zero (x : R) : pcr_div x 0 = None.
Proof.
  unfold pcr_div. destruct (Req_dec_T 0 0) as [_ | H]; [reflexivity |].
  exfalso. apply H. reflexivity.
Qed.

(** Where they are defined the checked quotients are those of the
    timestep. *)
Lemma checked_quotients_agree (p : Param) (f : Forcing) (s : State) (v : R) :
  (wetting_point_quotient p s = Some v -> Pwet p s = Rmax 0 v)
  /\ (conductance_ratio p f s = Some v -> ft p f s = 1 / (1 + v)).
Proof.
  unfold wetting_point_quotient, conductance_ratio, pcr_div. split.
  - destruct (Req_dec_T (fER p s) 0); [discriminate |].
    intros H. injection H as <-. reflexivity.
  - destruct (Req_dec_T (gs p s) 0); [discriminate |].
    intros H. injection H as <-. reflexivity.
Qed.

(** ** The dry cell on the calm day *)

(** On the calm day the dry cell's shallow root uptake is the maximum
    transpiration, just below the potential evaporation of 5 mm. *)
Lemma dry_day_uptake :
  4.99 < Us (cell_with 0.1 0.5 0.03) calm_day dry_state < 5.
Proof.
  set (p := cell_with 0.1 0.5 0.03). set (f := calm_day). set (s := dry_state).
  assert (Hv : 1 / 2 < fveg p s <= 1).
  { apply fveg_at_LAIref. unfold LAI. cbn. lra. }
  assert (Hsat : fsat p f s = 0).
  { unfold fsat, OpenWaterFrac_t, fg.
    rewrite ChannelSurface_zero by (cbn; lra).
    cbn [OpenWaterFrac hand_fringe p f cell_with calm_day].
    replace (0 / 100) with 0 by lra. pick_extrema. reflexivity. }
  assert (HUsmax : Usmax p s = 6).
  { unfold Usmax, ws. cbn [Us0 wslimU Ss Ssmax p s cell_with dry_state].
    replace (6 / 200 / 0.03) with 1 by lra. pick_extrema. lra. }
  assert (HUdmax : Udmax p s = 0).
  { unfold Udmax, wd. cbn [Ud0 wdlimU Sd Sdmax p s cell_with dry_state].
    replace (0 / 400 / 0.3) with 0 by lra. pick_extrema. lra. }
  assert (HUgmax : Ugmax p f s = 0).
  { unfold Ugmax. rewrite Hsat. unfold fUg, fUgShallow, fUgDeep.
    cbn [Ug0 hand_shallow hand_deep fPotDeep p f cell_with calm_day].
    replace (0 / 100 * (1 - 0.5) + 0 / 100 * 0.5 - 0) with 0 by lra.
    pick_extrema. lra. }
  assert (Hkeps : 0 < keps f < 0.0011).
  { unfold keps, pair, pes, Ta. cbn [AIRPRESS TDAY f calm_day].
    replace (17.27 * 0 / (237.3 + 0)) with 0 by lra. rewrite exp_0. lra. }
  assert (Hga : ga p f = 0.001).
  { unfold ga, u1. cbn [WINDSPEED fday f calm_day].
    replace (ku1 p * (0 * (1 - (1 - 0.5) * 0.25) / 0.5)) with 0 by lra.
    pick_extrema. reflexivity. }
  assert (Hgs : 0.005 < gs p s <= 0.01).
  { unfold gs, fD, Gsmax. cbn [Gs_scalar cGsmax Vc p cell_with]. lra. }
  assert (HE0 : E0 f = 5).
  { unfold E0. cbn [EPOT f calm_day]. pick_extrema. reflexivity. }
  assert (Hft : 0.999 < ft p f s < 1).
  { unfold ft. rewrite Hga.
    set (k := keps f) in *. set (g := gs p s) in *.
    assert (Hk : 0 < k / (1 + k) < 0.0011).
    { split; [apply Rdiv_lt_0_compat; lra |].
      apply Rmult_lt_reg_r with (1 + k); [lra |].
      unfold Rdiv. rewrite Rmult_assoc, Rinv_l by lra. nra. }
    set (r := k / (1 + k)) in *.
    assert (Ht : 0 < r * 0.001 / g < 0.001).
    { split; [apply Rdiv_lt_0_compat; nra |].
      apply Rmult_lt_reg_r with g; [lra |].
      unfold Rdiv. rewrite Rmult_assoc, Rinv_l by lra. nra. }
    set (t := r * 0.001 / g) in *.
    split.
    - apply Rmult_lt_reg_r with (1 + t); [lra |].
      unfold Rdiv. rewrite Rmult_assoc, Rinv_l by lra. nra.
    - apply Rmult_lt_reg_r with (1 + t); [lra |].
      unfold Rdiv. rewrite Rmult_assoc, Rinv_l by lra. nra. }
  assert (HEt : Et_pot p f s = ft p f s * 5).
  { unfold Et_pot, Umax, Etmax. rewrite HUsmax, HUdmax, HUgmax, HE0.
    pick_extrema. reflexivity. }
  unfold Us. rewrite HUsmax, HUdmax, HUgmax, HEt.
  cbn [Ss s dry_state].
  replace (6 / (6 + 0 + 0) * (ft p f s * 5)) with (ft p f s * 5) by lra.
  pick_extrema. lra.
Qed.

(** Nothing reaches or leaves the empty top soil of the dry cell. *)
Lemma dry_day_no_drainage :
  D0 (cell_with 0.1 0.5 0.03) calm_day dry_state = 0.
Proof.
  set (p := cell_with 0.1 0.5 0.03). set (f := calm_day). set (s := dry_state).
  assert (Hc : ChannelSurface s = 0) by (apply ChannelSurface_zero; cbn; lra).
  assert (Hw : fwater p s = 0).
  { unfold fwater, OpenWaterFrac_t. rewrite Hc.
    cbn [OpenWaterFrac p cell_with]. pick_extrema. reflexivity. }
  assert (Hsat : fsat p f s = 0).
  { unfold fsat. fold (fwater p s). rewrite Hw. unfold fg.
    cbn [hand_fringe f calm_day].
    replace (0 / 100) with 0 by lra. pick_extrema. reflexivity. }
  assert (HEs : Es p f s = 0).
  { unfold Es, Es0, Eg0. rewrite Hsat, Hw.
    unfold fsoilE, w0x, U0.
    cbn [S0 S0max w0limE FsoilEmax p s cell_with dry_state].
    replace ((0 - 0) / 50) with 0 by lra.
    replace (0 - 0) with 0 by lra.
    rewrite (Rmax_left 0 0) by lra.
    replace (0 / 0.85) with 0 by lra.
    rewrite (Rmin_right 1 0) by lra. ring. }
  assert (HPs : Ps p f s = 0).
  { unfold Ps, snow, Pn, Ei.
    rewrite Ei_frozen by (unfold T24; cbn; lra).
    unfold Pg, T24.
    cbn [PRECIP TDAY f calm_day FreeWater DrySnow s dry_state
      snow_TT snow_TTI snow_Cfmax snow_Cfr snow_WHC p cell_with].
    unfold snow_routine. cbv zeta. cbn [snow_Ps].
    replace ((0 - (0 - 1 / 2)) / 1) with (1 / 2) by lra.
    replace (0 - 0) with 0 by lra.
    pick_extrema.
    replace (0 - 0 + 0 + 1 / 2 * 0 - (0 - 0) * 0.1) with 0 by lra.
    pick_extrema. ring. }
  assert (HI : I_t p f s = 0).
  { unfold I_t, Rhof, Rhof_soil, Rhof_imp, Rsof, Pi_t. rewrite HPs.
    cbn [InitLoss Pref Pref_imp fImp p cell_with].
    replace (0 - 0) with 0 by lra. rewrite (Rmax_left 0 0) by lra.
    replace (0 / 100) with 0 by lra. replace (0 / 10) with 0 by lra.
    rewrite pcr_tanh_0. ring. }
  unfold D0, top. rewrite HI, HEs.
  cbn [S0 S0max K0sat Kssat p s cell_with dry_state].
  rewrite S0_balance_depletion by (unfold depletion_condition; lra).
  reflexivity.
Qed.

(** * The claims *)

(** ** Soil layers *)

(** C1.  After the closure step the water balance of each of the three soil
    layers is exact: prior storage + inflow - applied extraction - corrected
    drainage - corrected interflow - new (clamped) storage = 0.  The residual
    is spread over drainage and interflow with weights [1 - Rh] and [Rh],
    which add up to one (the deep layer puts all of it into the drainage).
    This holds for the layer updates on any input, hence for the layers of
    every timestep, whose new storages are those of the new state. *)
Theorem closure_mass_balance_exact :
  (forall S I U Smax Ka Kb Rh : R,
      layer_residual S I (S0_balance S I U Smax Ka Kb Rh) = 0
      /\ layer_residual S I (Ss_balance S I U Smax Ka Kb Rh) = 0
      /\ (1 - Rh) + Rh = 1)
  /\ (forall S I U Smax Ka : R,
      layer_residual S I (Sd_balance S I U Smax Ka) = 0)
  /\ (forall (p : Param) (f : Forcing) (s : State),
      S0 s + I_t p f s - extraction (top p f s) - D0 p f s - IF0 p f s
        - S0 (dynamic p f s) = 0
      /\ Ss s + D0 p f s - extraction (shallow p f s) - Ds p f s
           - interflow (shallow p f s) - Ss (dynamic p f s) = 0
      /\ Sd s + Ds p f s - extraction (deep p f s) - Dd p f s - IFd p f s
           - Sd (dynamic p f s) = 0).
Proof.
  split; [| split].
  - intros. split; [| split].
    + apply S0_closure_residual.
    + apply Ss_closure_residual.
    + ring.
  - intros. apply Sd_closure_residual.
  - intros p f s. split; [| split].
    + exact (S0_closure_residual (S0 s) (I_t p f s) (S0max p) (Rh_0s p s) _).
    + exact (Ss_closure_residual (Ss s) (D0 p f s) (Ssmax p) (Rh_sd p s) _).
    + exact (Sd_closure_residual (Sd s) (Ds p f s) (Sdmax p) _).
Qed.



(** C3, evaluated where it fails.  A shallow (or deep) layer holding 6 mm,
    with no inflow and an extraction of 4 mm, has more water than is asked
    of it, so the depletion condition [S + I <= U] is false.  The layer's
    test reads the general-case root (at most 2 mm) in place of the prior
    storage and succeeds: the layer is emptied and the extraction is raised
    from 4 to 6.  The top layer, whose test reads the prior storage, keeps
    the extraction of 4 and a positive storage on the same numbers.  The
    same happens within a timestep: on the calm day the dry cell's shallow
    root zone holds 6 mm, less than 5 mm are asked of it, and it ends
    empty with 6 mm extracted. *)
Theorem depletion_test_reads_updated_storage :
  (~ depletion_condition 6 0 4
   /\ Ss_balance 6 0 4 200 5 5 0 = mkLayer 6 0 0 0
   /\ Sd_balance 6 0 4 400 5 = mkLayer 6 0 0 0
   /\ extraction (S0_balance 6 0 4 200 5 5 0) = 4
   /\ 0 < storage (S0_balance 6 0 4 200 5 5 0))
  /\ (let p := cell_with 0.1 0.5 0.03 in
      ~ depletion_condition (Ss dry_state) (D0 p calm_day dry_state)
          (Us p calm_day dry_state)
      /\ Us p calm_day dry_state < 5
      /\ extraction (shallow p calm_day dry_state) = 6
      /\ Ss (dynamic p calm_day dry_state) = 0).
Proof.
  assert (HKm : 0 < sqrt (5 * 5)) by (apply sqrt_mult_pos; lra).
  assert (HA : 0 < sqrt (5 * 5) / 200 ^ 2) by (apply Rdiv_lt_0_compat; lra).
  assert (HA' : 0 < 5 / 400 ^ 2) by lra.
  split.
  - assert (Hs := quad_root_le _ (6 + 0 - 4) HA ltac:(lra)).
    assert (Hd := quad_root_le _ (6 + 0 - 4) HA' ltac:(lra)).
    assert (Hp := quad_root_pos _ (6 + 0 - 4) HA ltac:(lra)).
    split; [unfold depletion_condition; lra |].
    split; [rewrite Ss_balance_depletion_test by lra; f_equal; lra |].
    split; [rewrite Sd_balance_depletion_test by lra; f_equal; lra |].
    unfold S0_balance. rewrite S0_branches_general by lra.
    cbv zeta. unfold S0_closure. cbn [storage extraction].
    split; [reflexivity |]. rewrite clamp_id; lra.
  - intros p. pose proof dry_day_uptake as HU.
    pose proof dry_day_no_drainage as HD. fold p in HU, HD.
    assert (Hsh : shallow p calm_day dry_state = mkLayer 6 0 0 0).
    { unfold shallow. rewrite HD.
      cbn [Ss Ssmax Kssat Kdsat p cell_with dry_state].
      set (U := Us p calm_day dry_state) in *.
      pose proof (quad_root_le _ (6 + 0 - U) HA ltac:(lra)).
      rewrite Ss_balance_depletion_test by lra. f_equal. lra. }
    unfold depletion_condition. rewrite HD. cbn [Ss dry_state].
    split; [lra |]. split; [lra |].
    unfold dynamic. cbn [Ss]. rewrite Hsh. cbn [extraction storage]. auto.
Qed.

(** C4, as stated, fails.  On an input where both conditions hold the
    saturation override, which is applied last, decides the outcome: here
    the layer ends full, with a non-zero interflow.  Both conditions can
    only hold together when [Smax + Ka <= 0]. *)
Lemma overlap_ends_in_saturation :
  depletion_condition (1 / 2) 0 (1 / 2)
  /\ saturation_condition (1 / 2) 0 (1 / 2) 1 (- 2)
  /\ S0_balance (1 / 2) 0 (1 / 2) 1 (- 2) (- 2) 0 = mkLayer (1 / 2) 1 (- 2) 1
  /\ ~ depletion_outcome (S0_balance (1 / 2) 0 (1 / 2) 1 (- 2) (- 2) 0).
Proof.
  assert (He : S0_balance (1 / 2) 0 (1 / 2) 1 (- 2) (- 2) 0
               = mkLayer (1 / 2) 1 (- 2) 1).
  { unfold S0_balance, S0_branches. layer_cases.
    rewrite (pcr_le_true (1 / 2 + 0) (1 / 2)) by lra.
    rewrite pcr_le_true by lra.
    rewrite S0_closure_fixed.
    - f_equal; lra.
    - cbn [storage]. lra.
    - unfold layer_residual. cbn [storage extraction drainage interflow]. lra. }
  unfold depletion_condition, saturation_condition.
  split; [lra |]. split; [lra |]. split; [exact He |].
  rewrite He. unfold depletion_outcome. cbn [storage]. lra.
Qed.

(** C4, amended.  For a layer with positive capacity and conductivities and
    a prior storage within the capacity, the depletion condition
    [S + I <= U] and the saturation condition [Smax - S + Ka <= I - U]
    exclude each other.  When the first holds the outcome of each layer is
    the depletion outcome: the extraction is [S + I], storage and outflows
    are zero, and the saturation test, made afterwards on the capped
    extraction, does not succeed.  When the second holds the outcome is the
    saturation outcome.  The general-case values are the result of the
    branch selection when neither of the layer's two tests succeeds. *)
Theorem branch_order_well_formed :
  forall S I U Smax Ka Kb Rh : R,
    0 < Smax -> 0 < Ka -> 0 < Kb -> 0 <= S <= Smax ->
    ~ (depletion_condition S I U /\ saturation_condition S I U Smax Ka)
    /\ (depletion_condition S I U ->
        S0_balance S I U Smax Ka Kb Rh = mkLayer (S + I) 0 0 0
        /\ Ss_balance S I U Smax Ka Kb Rh = mkLayer (S + I) 0 0 0
        /\ Sd_balance S I U Smax Ka = mkLayer (S + I) 0 0 0
        /\ depletion_outcome (S0_balance S I U Smax Ka Kb Rh)
        /\ depletion_outcome (Ss_balance S I U Smax Ka Kb Rh)
        /\ depletion_outcome (Sd_balance S I U Smax Ka))
    /\ (saturation_condition S I U Smax Ka ->
        S0_balance S I U Smax Ka Kb Rh =
          mkLayer U Smax ((1 - Rh) * Ka) (Rh * Ka + (S - Smax - Ka + I - U))
        /\ Ss_balance S I U Smax Ka Kb Rh =
          mkLayer U Smax ((1 - Rh) * Ka) (Rh * Ka + (S - Smax - Ka + I - U))
        /\ Sd_balance S I U Smax Ka =
          mkLayer U Smax Ka (S - Smax - Ka + I - U))
    /\ (~ depletion_condition S I U ->
        ~ saturation_condition S I U Smax Ka ->
        storage (S0_branches S I U Smax Ka Kb Rh)
          = quad_root (sqrt (Ka * Kb) / Smax ^ 2) (S + I - U))
    /\ (U < quad_root (sqrt (Ka * Kb) / Smax ^ 2) (S + I - U) + I ->
        ~ saturation_condition S I U Smax Ka ->
        storage (Ss_branches S I U Smax Ka Kb Rh)
          = quad_root (sqrt (Ka * Kb) / Smax ^ 2) (S + I - U))
    /\ (U < quad_root (Ka / Smax ^ 2) (S + I - U) + I ->
        ~ saturation_condition S I U Smax Ka ->
        storage (Sd_branches S I U Smax Ka)
          = quad_root (Ka / Smax ^ 2) (S + I - U)).
Proof.
  intros S I U Smax Ka Kb Rh HS HKa HKb [H0 Hle].
  unfold depletion_condition, saturation_condition.
  split; [intros [Hd Hs]; lra |].
  split.
  { intros Hd.
    assert (E0 := S0_balance_depletion S I U Smax Ka Kb Rh HS HKa Hd).
    assert (Es : Ss_balance S I U Smax Ka Kb Rh = mkLayer (S + I) 0 0 0).
    { unfold Ss_balance. rewrite Ss_branches_depletion by assumption.
      apply Ss_closure_fixed;
        [simpl; lra | unfold layer_residual; simpl; ring]. }
    assert (Ed : Sd_balance S I U Smax Ka = mkLayer (S + I) 0 0 0).
    { unfold Sd_balance. rewrite Sd_branches_depletion by assumption.
      apply Sd_closure_fixed;
        [simpl; lra | unfold layer_residual; simpl; ring]. }
    rewrite E0, Es, Ed. unfold depletion_outcome. simpl. tauto. }
  split.
  { intros Hs. split; [| split].
    - apply S0_balance_saturation; assumption.
    - apply Ss_balance_saturation; assumption.
    - apply Sd_balance_saturation; assumption. }
  split; [| split].
  - intros Hd Hs. rewrite S0_branches_general by lra. reflexivity.
  - intros Hd Hs. rewrite Ss_branches_general by lra. reflexivity.
  - intros Hd Hs. rewrite Sd_branches_general by lra. reflexivity.
Qed.

(** An empty layer that is asked for 1 mm, and a full layer that receives 20 mm. *)
Lemma branch_order_well_formed_witness :
  (S0_balance 0 0 1 10 4 4 (1 / 4) = mkLayer (0 + 0) 0 0 0
   /\ Ss_balance 0 0 1 10 4 4 (1 / 4) = mkLayer (0 + 0) 0 0 0
   /\ Sd_balance 0 0 1 10 4 = mkLayer (0 + 0) 0 0 0)
  /\ S0_balance 10 20 0 10 4 4 (1 / 4) =
       mkLayer 0 10 ((1 - 1 / 4) * 4) (1 / 4 * 4 + (10 - 10 - 4 + 20 - 0)).
Proof.
  split.
  - destruct (branch_order_well_formed 0 0 1 10 4 4 (1 / 4))
      as (_ & Hd & _); try lra.
    destruct Hd as (E0 & Es & Ed & _); [unfold depletion_condition; lra |].
    auto.
  - destruct (branch_order_well_formed 10 20 0 10 4 4 (1 / 4))
      as (_ & _ & Hs & _); try lra.
    destruct Hs as (E0 & _); [unfold saturation_condition; lra |].
    exact E0.
Defined.

(** ** Bounds of the stores *)




(** ** Deep interflow *)

(** C6, as stated, fails: in the saturation branch the deep layer's
    interflow is the water in excess of capacity and saturated drainage. *)
Lemma deep_interflow_nonzero_when_saturated :
  saturation_condition 400 10 0 400 5
  /\ interflow (Sd_balance 400 10 0 400 5) = 5
  /\ interflow (Sd_balance 400 10 0 400 5) <> 0.
Proof.
  assert (Hs : saturation_condition 400 10 0 400 5)
    by (unfold saturation_condition; lra).
  rewrite Sd_balance_saturation by (assumption || lra).
  cbn [interflow]. split; [exact Hs |]. split; lra.
Qed.

(** C6, amended.  For a deep layer with positive capacity and conductivity
    and a prior storage within the capacity, the lateral interflow term is
    zero in the general and in the depletion branch; in the saturation
    branch it is the excess [S - Smax - Ka + I - U], which is not
    negative. *)
Theorem deep_interflow_is_saturation_excess :
  forall S I U Smax Ka : R,
    0 < Smax -> 0 < Ka -> S <= Smax ->
    (~ saturation_condition S I U Smax Ka ->
       interflow (Sd_balance S I U Smax Ka) = 0)
    /\ (saturation_condition S I U Smax Ka ->
       interflow (Sd_balance S I U Smax Ka) = S - Smax - Ka + I - U
       /\ 0 <= interflow (Sd_balance S I U Smax Ka)).
Proof.
  intros S I U Smax Ka HS HKa Hle. unfold saturation_condition. split.
  - intros Hs. unfold Sd_balance, Sd_closure. cbn [interflow].
    unfold Sd_branches. layer_cases. cbn [interflow].
    destruct (pcr_le (quad_root (Ka / Smax ^ 2) (S + I - U) + I) U).
    + rewrite pcr_le_false by lra. ring.
    + rewrite pcr_le_false by lra. ring.
  - intros Hs. rewrite Sd_balance_saturation by assumption.
    cbn [interflow]. split; lra.
Qed.

(** A deep layer at a quarter of its capacity, and a full one that receives 10 mm. *)
Lemma deep_interflow_is_saturation_excess_witness :
  interflow (Sd_balance 100 0 0 400 5) = 0
  /\ interflow (Sd_balance 400 10 0 400 5) = 400 - 400 - 5 + 10 - 0.
Proof.
  split.
  - destruct (deep_interflow_is_saturation_excess 100 0 0 400 5)
      as [Hz _]; try lra.
    apply Hz. unfold saturation_condition. lra.
  - destruct (deep_interflow_is_saturation_excess 400 10 0 400 5)
      as [_ He]; try lra.
    apply He. unfold saturation_condition. lra.
Defined.

(** ** Recession *)

(** C7.  The groundwater discharge of a timestep is
    [Qg = min (max Sg 0) ((1 - exp (- K_gw)) * max Sg 0)], taken on the
    store after its net inflow, and is subtracted from the store; the
    surface store is drawn down by
    [Qtot = max 0 (min Sr ((1 - exp (- K_rout)) * Sr))], taken on the store
    after its inflows and floored at zero.  With no inflow and a positive
    recession constant a store that starts at or above zero is, after each
    further timestep, not negative and not larger than before; it is
    strictly smaller when it started positive and stays at zero when it
    started at zero. *)
Theorem recession_monotone :
  (forall p f s,
      let Sg1 := Sg s + NetGf p f s in
      let Sr1 := Rmax 0 (Sr s + QR p f s - Erl p f s + Qg p f s) in
      Qg p f s = Rmin (Rmax Sg1 0) ((1 - exp (- K_gw p)) * Rmax Sg1 0)
      /\ Sg (dynamic p f s) = Sg1 - Qg p f s
      /\ Qtot p f s = Rmax 0 (Rmin Sr1 ((1 - exp (- K_rout p)) * Sr1))
      /\ Sr (dynamic p f s) = Sr1 - Qtot p f s)
  /\ (forall (K x : R) (n : nat),
      0 < K -> 0 <= x ->
      (0 <= recede_Sg K n x
       /\ recede_Sg K (S n) x <= recede_Sg K n x
       /\ (0 < x -> recede_Sg K (S n) x < recede_Sg K n x)
       /\ (x = 0 -> recede_Sg K n x = 0))
      /\ (0 <= recede_Sr K n x
          /\ recede_Sr K (S n) x <= recede_Sr K n x
          /\ (0 < x -> recede_Sr K (S n) x < recede_Sr K n x)
          /\ (x = 0 -> recede_Sr K n x = 0))).
Proof.
  split.
  - intros p f s Sg1 Sr1. repeat split; reflexivity.
  - intros K x n HK Hx.
    destruct (recede_Sg_step K x n HK Hx) as (A1 & A2 & A3 & A4).
    destruct (recede_Sr_step K x n HK Hx) as (B1 & B2 & B3 & B4).
    repeat split; try assumption.
    + intros Hp. apply A3. exact Hp.
    + intros Hp. apply B3. exact Hp.
Qed.

(** Four timesteps of recession from 10 mm with [K = 1/2]. *)
Lemma recession_monotone_witness :
  (0 <= recede_Sg (1 / 2) 3 10
   /\ recede_Sg (1 / 2) 4 10 < recede_Sg (1 / 2) 3 10)
  /\ (0 <= recede_Sr (1 / 2) 3 10
      /\ recede_Sr (1 / 2) 4 10 < recede_Sr (1 / 2) 3 10).
Proof.
  destruct recession_monotone as [_ H].
  assert (HK : 0 < 1 / 2) by lra.
  assert (Hx : 0 <= 10) by lra.
  destruct (H (1 / 2) 10 3%nat HK Hx)
    as [(A1 & _ & A3 & _) (B1 & _ & B3 & _)].
  split; split.
  - exact A1.
  - apply A3. lra.
  - exact B1.
  - apply B3. lra.
Defined.

(** ** Snow on a cold day *)

(** C8, as stated, fails inside the rain/snow transition band: at -0.25
    degrees with the default band of one degree around [snow_TT = 0], a
    quarter of 4 mm of precipitation falls as rain and 3 mm accumulate as
    dry snow. *)
Lemma transition_band_splits_precipitation :
  TDAY (day 4 (- 1 / 4)) < 0
  /\ 0 <= PRECIP (day 4 (- 1 / 4))
  /\ FreeWater half_full = 0 /\ DrySnow half_full = 0
  /\ DrySnow (dynamic (cell 0.1 0.5) (day 4 (- 1 / 4)) half_full) = 3
  /\ DrySnow (dynamic (cell 0.1 0.5) (day 4 (- 1 / 4)) half_full)
       <> PRECIP (day 4 (- 1 / 4)).
Proof.
  assert (E : DrySnow (dynamic (cell 0.1 0.5) (day 4 (- 1 / 4)) half_full)
              = 3).
  { unfold dynamic. cbn [DrySnow]. unfold snow, Pn.
    unfold Ei. rewrite Ei_frozen by (unfold T24; cbn; lra).
    unfold Pg, T24. cbn [PRECIP TDAY day FreeWater DrySnow half_full
      snow_TT snow_TTI snow_Cfmax snow_Cfr snow_WHC cell cell_with].
    unfold snow_routine. cbv zeta. cbn [snow_DrySnow].
    replace ((- 1 / 4 - (0 - 1 / 2)) / 1) with (1 / 4) by lra.
    replace (0 - - 1 / 4) with (1 / 4) by lra.
    replace (- 1 / 4 - 0) with (- 1 / 4) by lra.
    pick_extrema. lra. }
  rewrite E. cbn [TDAY PRECIP day FreeWater DrySnow half_full].
  repeat split; lra.
Qed.

(** C8, amended.  Interception evaporation is zero whenever the 24-hour mean
    temperature is at or below zero.  For a timestep with a sub-zero mean
    temperature that also lies at or below the lower end
    [snow_TT - snow_TTI / 2] of the rain/snow transition band, precipitation
    [P >= 0], zero prior [FreeWater] and [DrySnow], and a non-negative
    refreezing factor, all precipitation accumulates as dry snow:
    [DrySnow] ends equal to [P], [FreeWater] ends at 0 and nothing leaves
    the snow pack towards the soil. *)
Theorem cold_timestep_snow :
  (forall p f s, TDAY f <= 0 -> Ei p f s = 0)
  /\ (forall p f s,
      TDAY f < 0 -> 0 <= PRECIP f ->
      FreeWater s = 0 -> DrySnow s = 0 ->
      0 < snow_TTI p -> TDAY f <= snow_TT p - snow_TTI p / 2 ->
      0 <= snow_Cfmax p * snow_Cfr p ->
      Ei p f s = 0
      /\ DrySnow (dynamic p f s) = PRECIP f
      /\ FreeWater (dynamic p f s) = 0
      /\ snow_InSoil (snow p f s) = 0
      /\ Ps p f s = 0).
Proof.
  assert (HEi : forall p f s, TDAY f <= 0 -> Ei p f s = 0).
  { intros p f s HT. unfold Ei. apply Ei_frozen. exact HT. }
  split; [exact HEi |].
  intros p f s HT HP HFW HDS HTTI Hband HCf.
  assert (E : Ei p f s = 0) by (apply HEi; lra).
  assert (HRain :
    Rmax 0 (Rmin ((TDAY f - (snow_TT p - snow_TTI p / 2)) / snow_TTI p) 1)
    = 0).
  { apply Rmax_left. apply Rle_trans with
      ((TDAY f - (snow_TT p - snow_TTI p / 2)) / snow_TTI p);
      [apply Rmin_l |].
    assert (Hinv : 0 < / snow_TTI p) by (apply Rinv_0_lt_compat; exact HTTI).
    unfold Rdiv. nra. }
  assert (HMelt : Rmax 0 (TDAY f - snow_TT p) = 0)
    by (apply Rmax_left; lra).
  assert (HRe : 0 <= snow_Cfmax p * snow_Cfr p
                     * Rmax (snow_TT p - TDAY f) 0).
  { apply Rmult_le_pos; [exact HCf | apply Rmax_r]. }
  assert (Hsnow : snow p f s = mkSnow (PRECIP f) 0 0 0 0).
  { unfold snow, Pn, Pg, T24. rewrite E, HFW, HDS.
    unfold snow_routine. cbv zeta. rewrite HRain, HMelt.
    rewrite (Rmin_right _ 0) by exact HRe.
    replace (snow_Cfmax p * 0) with 0 by ring.
    rewrite (Rmin_left 0 0) by lra.
    replace (0 - 0 + 0 + 0 * (PRECIP f - 0) - (0 - 0) * snow_WHC p)
      with 0 by ring.
    rewrite (Rmax_left 0 0) by lra.
    f_equal; ring. }
  split; [exact E |].
  unfold dynamic, Ps. cbn [DrySnow FreeWater]. rewrite Hsnow.
  cbn [snow_DrySnow snow_FreeWater snow_InSoil snow_Ps]. auto.
Qed.

(** The sample cell on a day at -1 degree with 4 mm of precipitation. *)
Lemma cold_timestep_snow_witness :
  Ei (cell 0.1 0.5) (day 4 (- 1)) half_full = 0
  /\ DrySnow (dynamic (cell 0.1 0.5) (day 4 (- 1)) half_full) = 4
  /\ FreeWater (dynamic (cell 0.1 0.5) (day 4 (- 1)) half_full) = 0
  /\ Ps (cell 0.1 0.5) (day 4 (- 1)) half_full = 0.
Proof.
  destruct cold_timestep_snow as [_ H].
  destruct (H (cell 0.1 0.5) (day 4 (- 1)) half_full)
    as (E & HD & HF & _ & HP); cbn; try lra.
  repeat split; assumption.
Defined.

(** ** Floors and divisors *)

(** C9, as stated, fails: the canopy conductance and the wetting
    coefficient carry no floor.  A cell without vegetation index
    ([Vc = 0]) has [gs = 0], and a cell with [ER_coeff = 0] has
    [fER = 0]; the quotients by them have a zero divisor. *)
Lemma zero_divisors_reachable :
  gs (cell 0.1 0) half_full = 0
  /\ conductance_ratio (cell 0.1 0) (day 4 10) half_full = None
  /\ fER (cell 0 0.5) half_full = 0
  /\ wetting_point_quotient (cell 0 0.5) half_full = None.
Proof.
  assert (Hg : gs (cell 0.1 0) half_full = 0).
  { unfold gs, Gsmax. cbn [Gs_scalar cGsmax Vc cell cell_with]. ring. }
  assert (He : fER (cell 0 0.5) half_full = 0).
  { unfold fER. cbn [ER_coeff cell cell_with]. ring. }
  split; [exact Hg |]. split.
  - unfold conductance_ratio. rewrite Hg. apply pcr_div_by_zero.
  - split; [exact He |].
    unfold wetting_point_quotient. rewrite He. apply pcr_div_by_zero.
Qed.

(** C9, amended.  The vegetation cover fraction and the aerodynamic
    conductance are bounded away from zero by explicit floors
    ([fveg >= 0.000001], [ga >= 0.001]) for every input, so the quotient
    [fER / fveg] is always defined.  The wetting coefficient [fER] and the
    canopy conductance [gs] have no floor: the quotient by [fER] is defined
    when [ER_coeff] is not zero and the quotient [ga / gs] when
    [Gs_scalar * cGsmax * Vc] is not zero. *)
Theorem floors_and_divisors :
  forall (p : Param) (f : Forcing) (s : State),
    0.000001 <= fveg p s
    /\ 0.001 <= ga p f
    /\ wetting_ratio p s = Some (fER p s / fveg p s)
    /\ (ER_coeff p <> 0 ->
        fER p s <> 0 /\ wetting_point_quotient p s <> None)
    /\ (Gs_scalar p * cGsmax p * Vc p <> 0 ->
        gs p s <> 0 /\ conductance_ratio p f s <> None).
Proof.
  intros p f s. pose proof (fveg_range p s) as [Hv0 Hv1].
  split; [exact Hv0 |].
  split; [unfold ga; apply Rmax_l |].
  split; [unfold wetting_ratio; apply pcr_div_defined; lra |].
  split.
  - intros HE.
    assert (Hp : 0 < pcr_pow (Rmax 0.05 (hveg p)) (ER_exp p)).
    { apply pcr_pow_pos. pose proof (Rmax_l 0.05 (hveg p)). lra. }
    assert (HfER : fER p s <> 0).
    { unfold fER. apply Rmult_integral_contrapositive_currified;
        [apply Rmult_integral_contrapositive_currified; [lra | exact HE]
        | lra]. }
    split; [exact HfER |].
    unfold wetting_point_quotient. rewrite pcr_div_defined by exact HfER.
    discriminate.
  - intros HG.
    assert (Hgs : gs p s <> 0).
    { unfold gs, fD, Gsmax. apply Rmult_integral_contrapositive_currified;
        [nra | exact HG]. }
    split; [exact Hgs |].
    unfold conductance_ratio. rewrite pcr_div_defined by exact Hgs.
    discriminate.
Qed.

(** The sample cell has a non-zero interception coefficient and vegetation index. *)
Lemma floors_and_divisors_witness :
  wetting_point_quotient (cell 0.1 0.5) half_full <> None
  /\ conductance_ratio (cell 0.1 0.5) (day 4 10) half_full <> None.
Proof.
  destruct (floors_and_divisors (cell 0.1 0.5) (day 4 10) half_full)
    as (_ & _ & _ & HE & HG).
  split.
  - apply HE. cbn. lra.
  - apply HG. cbn. lra.
Defined.

(** ** Channel surface *)

(** C10.  For every surface store [Sr >= 0] the channel-surface fraction
    [min 0 (0.007 * Sr ** 0.75)] is 0.  The local open-water fraction and
    the local channel evaporation [Erl] are therefore 0 in every timestep:
    the open-water evaporation is that of the static open-water fraction,
    and the surface store is updated without an evaporation term.  The
    surface store stays non-negative, so this holds after any number of
    timesteps. *)
Theorem channel_surface_is_zero :
  forall (p : Param) (f : Forcing) (s : State),
    0 <= Sr s ->
    ChannelSurface s = 0
    /\ fw_local s = 0
    /\ Erl p f s = 0
    /\ fwater p s = Rmax 0 (OpenWaterFrac p)
    /\ Er p f s = Rmax 0 (OpenWaterFrac p) * FwaterE p * Ept f
    /\ Sr (dynamic p f s) =
         snd (surface_store (Sr s) (QR p f s) 0 (Qg p f s) (K_rout p))
    /\ (forall (fs : list Forcing) (f' : Forcing),
          Erl p f' (run p fs s) = 0).
Proof.
  intros p f s HSr.
  assert (Hc : ChannelSurface s = 0) by (apply ChannelSurface_zero; exact HSr).
  assert (He : Erl p f s = 0).
  { unfold Erl, fw_local. rewrite Hc. ring. }
  assert (Hw : fwater p s = Rmax 0 (OpenWaterFrac p)).
  { unfold fwater, OpenWaterFrac_t. rewrite Hc. reflexivity. }
  split; [exact Hc |]. split; [exact Hc |]. split; [exact He |].
  split; [exact Hw |]. split.
  - unfold Er, Err. rewrite He, Hw. unfold fw_local. rewrite Hc. ring.
  - split.
    + unfold dynamic. cbn [Sr]. unfold surface. rewrite He. reflexivity.
    + intros fs f'. unfold Erl, fw_local.
      rewrite ChannelSurface_zero by (apply run_Sr_nonneg; exact HSr). ring.
Qed.

(** The sample cell, whose surface store is empty. *)
Lemma channel_surface_is_zero_witness :
  Erl (cell 0.1 0.5) (day 4 10) half_full = 0
  /\ ChannelSurface half_full = 0.
Proof.
  destruct (channel_surface_is_zero (cell 0.1 0.5) (day 4 10) half_full)
    as (Hc & _ & He & _).
  - cbn. lra.
  - split; assumption.
Defined.

(** * Further properties of the code *)

(** ** Hyperbolic tangent and the partition coefficient *)

Lemma exp_inverse (x : R) : exp x * exp (- x) = 1.
Proof. rewrite <- exp_plus. replace (x + - x) with 0 by ring. apply exp_0. Qed.

Lemma pcr_tanh_range (x : R) : - 1 < pcr_tanh x < 1.
Proof.
  unfold pcr_tanh. pose proof (exp_pos x) as Hp. pose proof (exp_pos (- x)) as Hn.
  split.
  - apply Rmult_lt_reg_r with (exp x + exp (- x)); [lra |].
    unfold Rdiv. rewrite Rmult_assoc, Rinv_l by lra. lra.
  - apply Rmult_lt_reg_r with (exp x + exp (- x)); [lra |].
    unfold Rdiv. rewrite Rmult_assoc, Rinv_l by lra. lra.
Qed.

Lemma pcr_tanh_odd (x : R) : pcr_tanh (- x) = - pcr_tanh x.
Proof.
  unfold pcr_tanh. rewrite Ropp_involutive.
  pose proof (exp_pos x). pose proof (exp_pos (- x)). field. lra.
Qed.

Lemma pcr_tanh_increasing (x y : R) : x < y -> pcr_tanh x < pcr_tanh y.
Proof.
  intros Hxy. unfold pcr_tanh.
  pose proof (exp_pos x) as Hx. pose proof (exp_pos (- x)) as Hx'.
  pose proof (exp_pos y) as Hy. pose proof (exp_pos (- y)) as Hy'.
  assert (H1 : exp x < exp y) by (apply exp_increasing; exact Hxy).
  assert (H2 : exp (- y) < exp (- x)) by (apply exp_increasing; lra).
  apply Rmult_lt_reg_r with (exp x + exp (- x)); [lra |].
  apply Rmult_lt_reg_r with (exp y + exp (- y)); [lra |].
  unfold Rdiv.
  replace ((exp x - exp (- x)) * / (exp x + exp (- x)) * (exp x + exp (- x))
           * (exp y + exp (- y)))
    with ((exp x - exp (- x)) * (exp y + exp (- y))) by (field; lra).
  replace ((exp y - exp (- y)) * / (exp y + exp (- y)) * (exp x + exp (- x))
           * (exp y + exp (- y)))
    with ((exp y - exp (- y)) * (exp x + exp (- x))) by (field; lra).
  nra.
Qed.

Lemma pcr_tanh_nonneg (x : R) : 0 <= x -> 0 <= pcr_tanh x.
Proof.
  intros [Hx | Hx].
  - left. rewrite <- pcr_tanh_0. apply pcr_tanh_increasing. exact Hx.
  - subst x. rewrite pcr_tanh_0. lra.
Qed.

Lemma id_sinh_nonneg (x : R) : 0 <= x * sinh x.
Proof.
  unfold sinh.
  destruct (Rle_dec 0 x) as [Hx | Hx].
  - assert (H : exp (- x) <= exp x).
    { destruct Hx as [Hx | <-]; [left; apply exp_increasing; lra |].
      rewrite Ropp_0. lra. }
    nra.
  - assert (H : exp x < exp (- x)) by (apply exp_increasing; lra).
    nra.
Qed.

Lemma sinh_le_id_cosh (y : R) : 0 <= y -> sinh y <= y * cosh y.
Proof.
  intros Hy.
  pose (g := (id * cosh - sinh)%F).
  assert (Hlim : forall x, derivable_pt_lim g x
                   ((1 * cosh x + id x * sinh x) - cosh x)).
  { intros x. unfold g. apply derivable_pt_lim_minus.
    - apply derivable_pt_lim_mult.
      + apply derivable_pt_lim_id.
      + apply derivable_pt_lim_cosh.
    - apply derivable_pt_lim_sinh. }
  pose (pr := fun x : R =>
          exist (fun l => derivable_pt_abs g x l) _ (Hlim x) : derivable_pt g x).
  assert (Hinc : increasing g).
  { apply (nonneg_derivative_1 g pr). intros x. unfold derive_pt, pr.
    cbn [proj1_sig]. unfold id.
    pose proof (id_sinh_nonneg x). lra. }
  specialize (Hinc 0 y Hy). unfold g, minus_fct, mult_fct, id in Hinc.
  rewrite sinh_0 in Hinc. lra.
Qed.

Lemma pcr_tanh_le_id (y : R) : 0 <= y -> pcr_tanh y <= y.
Proof.
  intros Hy. pose proof (sinh_le_id_cosh y Hy) as H.
  unfold sinh, cosh in H. unfold pcr_tanh.
  pose proof (exp_pos y) as Hp. pose proof (exp_pos (- y)) as Hn.
  apply Rmult_le_reg_r with (exp y + exp (- y)); [lra |].
  unfold Rdiv. rewrite Rmult_assoc, Rinv_l by lra. lra.
Qed.

(** Infiltration excess of one surface: [x - P tanh (x / P)]. *)
Lemma infiltration_excess (x P : R) :
  0 <= x -> 0 < P -> 0 <= x - P * pcr_tanh (x / P) <= x.
Proof.
  intros Hx HP.
  assert (Hi : 0 < / P) by (apply Rinv_0_lt_compat; exact HP).
  assert (Hq : 0 <= x / P) by (unfold Rdiv; nra).
  pose proof (pcr_tanh_le_id (x / P) Hq) as H1.
  pose proof (pcr_tanh_nonneg (x / P) Hq) as H0.
  assert (E : P * (x / P) = x) by (field; lra).
  split; nra.
Qed.

(** X1.  [pcr_tanh] (lines 58-63) takes its values strictly between -1 and
    1, is odd and strictly increasing, vanishes at zero only, and lies
    between 0 and its argument for a non-negative argument. *)
Theorem pcr_tanh_shape :
  forall x y : R,
    - 1 < pcr_tanh x < 1
    /\ pcr_tanh (- x) = - pcr_tanh x
    /\ (x < y -> pcr_tanh x < pcr_tanh y)
    /\ (pcr_tanh x = 0 <-> x = 0)
    /\ (0 <= x -> 0 <= pcr_tanh x <= x).
Proof.
  intros x y. split; [apply pcr_tanh_range |].
  split; [apply pcr_tanh_odd |].
  split; [apply pcr_tanh_increasing |].
  split; [split |].
  - intros H0. destruct (Rtotal_order x 0) as [Hlt | [Heq | Hgt]].
    + pose proof (pcr_tanh_increasing x 0 Hlt). rewrite pcr_tanh_0 in H. lra.
    + exact Heq.
    + pose proof (pcr_tanh_increasing 0 x Hgt). rewrite pcr_tanh_0 in H. lra.
  - intros ->. apply pcr_tanh_0.
  - intros Hx. split; [apply pcr_tanh_nonneg | apply pcr_tanh_le_id]; exact Hx.
Qed.

Lemma pcr_tanh_shape_witness :
  pcr_tanh 0 < pcr_tanh 1 /\ 0 <= pcr_tanh 1 <= 1.
Proof.
  destruct (pcr_tanh_shape 0 1) as (_ & _ & Hinc & _).
  destruct (pcr_tanh_shape 1 0) as (_ & _ & _ & _ & Hid).
  split; [apply Hinc; lra | apply Hid; lra].
Defined.

Lemma product_in_unit (a b : R) : - 1 < a < 1 -> - 1 < b < 1 -> - 1 < a * b < 1.
Proof. intros Ha Hb. split; nra. Qed.

Lemma product_in_unit_nonneg (a b : R) :
  0 <= a < 1 -> 0 <= b < 1 -> 0 <= a * b < 1.
Proof. intros Ha Hb. split; nra. Qed.

Lemma Rh_nonneg (p : Param) (s : State) :
  0 <= slope_coeff p * slope p -> 0 <= Kr_coeff p ->
  0 < Kdsat p <= Kssat p -> Kssat p <= K0sat p ->
  0 <= S0 s -> 0 <= Ss s -> 0 < S0max p -> 0 < Ssmax p ->
  0 <= Rh_0s p s < 1 /\ 0 <= Rh_sd p s < 1.
Proof.
  intros Hsl HKr [HKd HKds] HKs0 HS0 HSs HS0m HSsm.
  assert (Hw0 : 0 <= w0 p s).
  { unfold w0. apply Rmult_le_pos; [exact HS0 |].
    left. apply Rinv_0_lt_compat. exact HS0m. }
  assert (Hws : 0 <= ws p s).
  { unfold ws. apply Rmult_le_pos; [exact HSs |].
    left. apply Rinv_0_lt_compat. exact HSsm. }
  assert (HK0 : 1 <= Kr_0s p).
  { unfold Kr_0s. apply Rmult_le_reg_r with (Kssat p); [lra |].
    unfold Rdiv. rewrite Rmult_assoc, Rinv_l by lra. lra. }
  assert (HK1 : 1 <= Kr_sd p).
  { unfold Kr_sd. apply Rmult_le_reg_r with (Kdsat p); [lra |].
    unfold Rdiv. rewrite Rmult_assoc, Rinv_l by lra. lra. }
  split; apply product_in_unit_nonneg; split;
    try apply pcr_tanh_range; apply pcr_tanh_nonneg.
  + apply Rmult_le_pos; assumption.
  + apply Rmult_le_pos; [apply Rmult_le_pos; lra | exact Hw0].
  + apply Rmult_le_pos; assumption.
  + apply Rmult_le_pos; [apply Rmult_le_pos; lra | exact Hws].
Qed.

(** X2.  The lateral shares [Rh_0s] and [Rh_sd] (lines 1060-1063 and
    1095-1098) lie strictly between -1 and 1 for every input and vanish on
    flat ground ([slope = 0]).  They lie in [0, 1) when the slope term and
    [Kr_coeff] are non-negative, the conductivities are positive and do not
    increase with depth, and the stores and capacities are non-negative and
    positive. *)
Theorem partition_coefficient_range :
  forall (p : Param) (s : State),
    (- 1 < Rh_0s p s < 1 /\ - 1 < Rh_sd p s < 1)
    /\ (slope p = 0 -> Rh_0s p s = 0 /\ Rh_sd p s = 0)
    /\ (0 <= slope_coeff p * slope p -> 0 <= Kr_coeff p ->
        0 < Kdsat p <= Kssat p -> Kssat p <= K0sat p ->
        0 <= S0 s -> 0 <= Ss s -> 0 < S0max p -> 0 < Ssmax p ->
        0 <= Rh_0s p s < 1 /\ 0 <= Rh_sd p s < 1).
Proof.
  intros p s. split; [| split].
  - split; apply product_in_unit; apply pcr_tanh_range.
  - intros Hs. unfold Rh_0s, Rh_sd. rewrite Hs.
    replace (slope_coeff p * 0 * w0 p s) with 0 by ring.
    replace (slope_coeff p * 0 * ws p s) with 0 by ring.
    rewrite pcr_tanh_0. split; ring.
  - apply Rh_nonneg.
Qed.

Lemma partition_coefficient_range_witness :
  0 <= Rh_0s (cell 0.1 0.5) half_full < 1
  /\ 0 <= Rh_sd (cell 0.1 0.5) half_full < 1.
Proof.
  destruct (partition_coefficient_range (cell 0.1 0.5) half_full)
    as (_ & _ & H).
  apply H; cbn; lra.
Defined.

(** ** Signs of the layer fluxes *)

(** The closure of the top and shallow layers applied to a general-case
    result whose root is positive: the part of the root above the capacity
    goes to the outflows. *)
Lemma closure_general (S I U Smax Km Rh : R) :
  0 < Smax -> 0 < Km -> 0 < S + I - U -> 0 <= Rh <= 1 ->
  let S' := quad_root (Km / Smax ^ 2) (S + I - U) in
  layer_sound S I Smax
    (S0_closure S I Smax Rh
       (mkLayer U S' ((1 - Rh) * Km * (S' / Smax) ^ 2)
          (Rh * Km * (S' / Smax) ^ 2))).
Proof.
  intros HS HK HX HRh S'.
  pose proof (general_case_residual S I U Smax Km Rh HS HK HX) as Hres.
  cbv zeta in Hres. fold S' in Hres.
  unfold layer_residual in Hres. cbn [extraction storage drainage interflow] in Hres.
  assert (HA : 0 < Km / Smax ^ 2) by (apply Rdiv_lt_0_compat; nra).
  pose proof (quad_root_pos _ _ HA HX) as Hr. fold S' in Hr.
  assert (HF : 0 <= Km * (S' / Smax) ^ 2).
  { apply Rmult_le_pos; [lra |]. apply pow2_ge_0. }
  set (F := Km * (S' / Smax) ^ 2) in *.
  unfold layer_sound, S0_closure. cbn [extraction storage drainage interflow].
  assert (Hc : 0 <= Rmax 0 (Rmin S' Smax) <= Smax) by (apply clamp_range; lra).
  assert (Hle : Rmax 0 (Rmin S' Smax) <= S').
  { apply Rmax_lub; [lra | apply Rmin_l]. }
  set (c := Rmax 0 (Rmin S' Smax)) in *.
  replace ((1 - Rh) * Km * (S' / Smax) ^ 2) with ((1 - Rh) * F) in *
    by (unfold F; ring).
  replace (Rh * Km * (S' / Smax) ^ 2) with (Rh * F) in * by (unfold F; ring).
  assert (Hm : S + I - U - (1 - Rh) * F - Rh * F - c = S' - c) by lra.
  rewrite Hm.
  repeat split; try lra; nra.
Qed.

Lemma Ss_closure_is_S0_closure : Ss_closure = S0_closure.
Proof. reflexivity. Qed.

Lemma Sd_closure_general (S I U Smax Ka : R) :
  0 < Smax -> 0 < Ka -> 0 < S + I - U ->
  let S' := quad_root (Ka / Smax ^ 2) (S + I - U) in
  layer_sound S I Smax
    (Sd_closure S I Smax
       (mkLayer U S' (Ka * (S' / Smax) ^ 2) (0 * (Ka * (S' / Smax) ^ 2)))).
Proof.
  intros HS HK HX S'.
  pose proof (general_case_residual S I U Smax Ka 0 HS HK HX) as Hres.
  cbv zeta in Hres. fold S' in Hres.
  unfold layer_residual in Hres. cbn [extraction storage drainage interflow] in Hres.
  assert (HA : 0 < Ka / Smax ^ 2) by (apply Rdiv_lt_0_compat; nra).
  pose proof (quad_root_pos _ _ HA HX) as Hr. fold S' in Hr.
  assert (HF : 0 <= Ka * (S' / Smax) ^ 2).
  { apply Rmult_le_pos; [lra |]. apply pow2_ge_0. }
  set (F := Ka * (S' / Smax) ^ 2) in *.
  unfold layer_sound, Sd_closure. cbn [extraction storage drainage interflow].
  assert (Hc : 0 <= Rmax 0 (Rmin S' Smax) <= Smax) by (apply clamp_range; lra).
  assert (Hle : Rmax 0 (Rmin S' Smax) <= S').
  { apply Rmax_lub; [lra | apply Rmin_l]. }
  set (c := Rmax 0 (Rmin S' Smax)) in *.
  replace ((1 - 0) * Ka * (S' / Smax) ^ 2) with F in Hres by (unfold F; ring).
  replace (0 * Ka * (S' / Smax) ^ 2) with 0 in Hres by ring.
  repeat split; try lra.
Qed.

Lemma S0_balance_sound (S I U Smax Ka Kb Rh : R) :
  0 < Smax -> 0 < Ka -> 0 < Kb -> 0 <= Rh <= 1 ->
  layer_sound S I Smax (S0_balance S I U Smax Ka Kb Rh).
Proof.
  intros HS HKa HKb HRh.
  destruct (Rle_dec (S + I) U) as [Hd | Hd].
  - rewrite S0_balance_depletion by assumption.
    unfold layer_sound. cbn [extraction storage drainage interflow]. lra.
  - destruct (Rle_dec (Smax - S + Ka) (I - U)) as [Hs | Hs].
    + rewrite S0_balance_saturation by assumption.
      unfold layer_sound. cbn [extraction storage drainage interflow].
      repeat split; try lra; nra.
    + unfold S0_balance. rewrite S0_branches_general by lra.
      apply closure_general; try lra. apply sqrt_mult_pos; assumption.
Qed.

Lemma Ss_balance_sound (S I U Smax Ka Kb Rh : R) :
  0 < Smax -> 0 < Ka -> 0 < Kb -> 0 <= S <= Smax -> 0 <= Rh <= 1 ->
  layer_sound S I Smax (Ss_balance S I U Smax Ka Kb Rh).
Proof.
  intros HS HKa HKb HSr HRh.
  assert (HKm : 0 < sqrt (Ka * Kb)) by (apply sqrt_mult_pos; assumption).
  assert (HA : 0 < sqrt (Ka * Kb) / Smax ^ 2) by (apply Rdiv_lt_0_compat; nra).
  destruct (Rle_dec (quad_root (sqrt (Ka * Kb) / Smax ^ 2) (S + I - U) + I) U)
    as [Hd | Hd].
  - rewrite Ss_balance_depletion_test by assumption.
    unfold layer_sound. cbn [extraction storage drainage interflow]. lra.
  - assert (HX : 0 < S + I - U).
    { destruct (Rlt_dec 0 (S + I - U)) as [Hok | Hno]; [exact Hok |].
      pose proof (quad_root_nonpos _ (S + I - U) HA). lra. }
    destruct (Rle_dec (Smax - S + Ka) (I - U)) as [Hs | Hs].
    + rewrite Ss_balance_saturation by (assumption || lra).
      unfold layer_sound. cbn [extraction storage drainage interflow].
      repeat split; try lra; nra.
    + unfold Ss_balance. rewrite Ss_branches_general by lra.
      rewrite Ss_closure_is_S0_closure.
      apply closure_general; try lra.
Qed.

Lemma Sd_balance_sound (S I U Smax Ka : R) :
  0 < Smax -> 0 < Ka -> 0 <= S <= Smax ->
  layer_sound S I Smax (Sd_balance S I U Smax Ka).
Proof.
  intros HS HKa HSr.
  assert (HA : 0 < Ka / Smax ^ 2) by (apply Rdiv_lt_0_compat; nra).
  destruct (Rle_dec (quad_root (Ka / Smax ^ 2) (S + I - U) + I) U)
    as [Hd | Hd].
  - rewrite Sd_balance_depletion_test by assumption.
    unfold layer_sound. cbn [extraction storage drainage interflow]. lra.
  - assert (HX : 0 < S + I - U).
    { destruct (Rlt_dec 0 (S + I - U)) as [Hok | Hno]; [exact Hok |].
      pose proof (quad_root_nonpos _ (S + I - U) HA). lra. }
    destruct (Rle_dec (Smax - S + Ka) (I - U)) as [Hs | Hs].
    + rewrite Sd_balance_saturation by (assumption || lra).
      unfold layer_sound. cbn [extraction storage drainage interflow].
      repeat split; try lra.
    + unfold Sd_balance. rewrite Sd_branches_general by lra.
      apply Sd_closure_general; lra.
Qed.

(** X3.  For a layer with positive capacity and conductivities, a prior
    storage within the capacity and a lateral share in [0, 1], each of the
    three layer balances (lines 1064-1151) returns non-negative drainage and
    interflow, a storage in [0, Smax] and an extraction of at most the water
    at hand [S + I]; the top layer never extracts more than was asked. *)
Theorem layer_fluxes_nonnegative :
  forall S I U Smax Ka Kb Rh : R,
    0 < Smax -> 0 < Ka -> 0 < Kb -> 0 <= S <= Smax -> 0 <= Rh <= 1 ->
    layer_sound S I Smax (S0_balance S I U Smax Ka Kb Rh)
    /\ layer_sound S I Smax (Ss_balance S I U Smax Ka Kb Rh)
    /\ layer_sound S I Smax (Sd_balance S I U Smax Ka)
    /\ extraction (S0_balance S I U Smax Ka Kb Rh) <= U.
Proof.
  intros S I U Smax Ka Kb Rh HS HKa HKb HSr HRh.
  split; [apply S0_balance_sound; assumption |].
  split; [apply Ss_balance_sound; assumption |].
  split; [apply Sd_balance_sound; assumption |].
  unfold S0_balance, S0_closure, S0_branches. cbn [extraction].
  unfold ifthenelse, pcr_le. destruct (Rle_dec (S + I) U); lra.
Qed.

Lemma layer_fluxes_nonnegative_witness :
  layer_sound 100 12 200 (Ss_balance 100 12 3 200 5 2 (1 / 4))
  /\ 0 <= drainage (Sd_balance 400 10 0 400 5).
Proof.
  split.
  - destruct (layer_fluxes_nonnegative 100 12 3 200 5 2 (1 / 4))
      as (_ & H & _); try lra. exact H.
  - destruct (layer_fluxes_nonnegative 400 10 0 400 5 5 0)
      as (_ & _ & H & _); try lra. destruct H as [H _]. exact H.
Defined.

(** ** Water balance of the snow pack *)

Lemma snow_routine_balance (Pn T FW DS TT TTI Cfmax Cfr WHC : R) :
  let sn := snow_routine Pn T FW DS TT TTI Cfmax Cfr WHC in
  snow_DrySnow sn + snow_FreeWater sn + snow_InSoil sn = DS + FW + Pn
  /\ snow_Rmelt sn + snow_Ps sn = snow_InSoil sn.
Proof.
  unfold snow_routine. cbv zeta.
  cbn [snow_DrySnow snow_FreeWater snow_InSoil snow_Rmelt snow_Ps].
  split; [ring |].
  unfold pcr_ge, pcr_le, pcr_lt, pcr_scalar.
  destruct (Rlt_dec T 0), (Rle_dec 0 T); try lra; ring.
Qed.

(** X4.  The snow routine (lines 1009-1041) conserves water: dry snow,
    free water and the outflow [InSoil] add up to the prior pack plus the net
    precipitation.  The outflow is non-negative and is handed over whole,
    as frozen-ground runoff [Rmelt] below zero degrees and as input to the
    soil [Ps] at or above zero. *)
Theorem snow_pack_conserves_water :
  forall Pn T FW DS TT TTI Cfmax Cfr WHC : R,
    let sn := snow_routine Pn T FW DS TT TTI Cfmax Cfr WHC in
    snow_DrySnow sn + snow_FreeWater sn + snow_InSoil sn = DS + FW + Pn
    /\ snow_Rmelt sn + snow_Ps sn = snow_InSoil sn
    /\ (T < 0 -> snow_Ps sn = 0 /\ snow_Rmelt sn = snow_InSoil sn)
    /\ (0 <= T -> snow_Rmelt sn = 0 /\ snow_Ps sn = snow_InSoil sn)
    /\ 0 <= snow_InSoil sn.
Proof.
  intros Pn T FW DS TT TTI Cfmax Cfr WHC sn.
  destruct (snow_routine_balance Pn T FW DS TT TTI Cfmax Cfr WHC) as [H1 H2].
  fold sn in H1, H2.
  split; [exact H1 |]. split; [exact H2 |].
  assert (HI : 0 <= snow_InSoil sn).
  { unfold sn, snow_routine. cbv zeta. cbn [snow_InSoil]. apply Rmax_r. }
  split; [| split]; [| | exact HI].
  - intros HT. unfold sn, snow_routine. cbv zeta. cbn [snow_Ps snow_Rmelt snow_InSoil].
    unfold pcr_ge. rewrite pcr_le_false by exact HT.
    rewrite pcr_lt_true by exact HT. unfold pcr_scalar. split; ring.
  - intros HT. unfold sn, snow_routine. cbv zeta. cbn [snow_Ps snow_Rmelt snow_InSoil].
    unfold pcr_ge. rewrite pcr_le_true by exact HT.
    rewrite pcr_lt_false by exact HT. unfold pcr_scalar. split; ring.
Qed.

Lemma snow_pack_conserves_water_witness :
  snow_Ps (snow_routine 4 (- 3) 0 2 0 1 3 0.05 0.1) = 0
  /\ snow_Rmelt (snow_routine 4 10 0 2 0 1 3 0.05 0.1) = 0.
Proof.
  destruct (snow_pack_conserves_water 4 (- 3) 0 2 0 1 3 0.05 0.1)
    as (_ & _ & Hcold & _).
  destruct (snow_pack_conserves_water 4 10 0 2 0 1 3 0.05 0.1)
    as (_ & _ & _ & Hwarm & _).
  split; [apply Hcold; lra | apply Hwarm; lra].
Defined.

(** ** Free water in the snow pack *)
Lemma snow_free_water_held (Pn T FW DS TT TTI Cfmax Cfr WHC : R) :
  0 <= FW -> 0 <= Cfmax * Cfr -> 0 <= WHC ->
  snow_FreeWater (snow_routine Pn T FW DS TT TTI Cfmax Cfr WHC) <= FW * WHC.
Proof.
  intros HFW HC HW. unfold snow_routine. cbv zeta. cbn [snow_FreeWater].
  assert (Hre0 : 0 <= Cfmax * Cfr * Rmax (TT - T) 0).
  { apply Rmult_le_pos; [exact HC | apply Rmax_r]. }
  set (PotRefreezing := Cfmax * Cfr * Rmax (TT - T) 0) in *.
  assert (HRf : 0 <= Rmin PotRefreezing FW <= FW).
  { split; [apply Rmin_glb; assumption | apply Rmin_r]. }
  set (Refreezing := Rmin PotRefreezing FW) in *.
  set (FW2 := FW - Refreezing + _ + _).
  unfold Rmax at 1. destruct (Rle_dec (FW2 - (FW - Refreezing) * WHC) 0); nra.
Qed.

Lemma run_bounds (p : Param) (fs : list Forcing) (s : State) :
  bounds p s -> List.Forall (fun f => 0 <= PRECIP f) fs ->
  0 <= snow_Cfmax p -> 0 <= snow_Cfr p -> 0 <= snow_WHC p ->
  ER_coeff p * pcr_pow (Rmax 0.05 (hveg p)) (ER_exp p) <= 1 ->
  bounds p (run p fs s).
Proof.
  revert s. induction fs as [| f fs IH]; intros s Hb HP HCf HCr HW HE.
  - exact Hb.
  - cbn [run]. inversion HP as [| f' fs' Hf Hfs]; subst.
    apply IH; try assumption.
    apply dynamic_bounds; try assumption.
    apply fER_le_one. exact HE.
Qed.

Lemma free_water_step (p : Param) (f : Forcing) (s : State) :
  0 <= FreeWater s -> 0 <= snow_Cfmax p -> 0 <= snow_Cfr p ->
  0 <= snow_WHC p ->
  FreeWater (dynamic p f s) <= FreeWater s * snow_WHC p.
Proof.
  intros HFW HCf HCr HW. unfold dynamic. cbn [FreeWater]. unfold snow.
  apply snow_free_water_held; try assumption.
  apply Rmult_le_pos; assumption.
Qed.

(** X5.  The liquid water held by the snow pack is capped by the
    water-holding capacity applied to the liquid water itself (line 1029), not
    to the dry snow: after a timestep [FreeWater] is at most
    [snow_WHC * FreeWater] of before.  Hence, while the bounds of the stores
    are kept, it never grows when [snow_WHC <= 1], and a pack that starts
    without liquid water never holds any, over any number of timesteps. *)
Theorem free_water_never_accumulates :
  forall (p : Param) (fs : list Forcing) (s : State),
    bounds p s -> List.Forall (fun f => 0 <= PRECIP f) fs ->
    0 <= snow_Cfmax p -> 0 <= snow_Cfr p -> 0 <= snow_WHC p ->
    ER_coeff p * pcr_pow (Rmax 0.05 (hveg p)) (ER_exp p) <= 1 ->
    (forall f, FreeWater (dynamic p f s) <= FreeWater s * snow_WHC p)
    /\ (snow_WHC p <= 1 -> 0 <= FreeWater (run p fs s) <= FreeWater s)
    /\ (FreeWater s = 0 -> FreeWater (run p fs s) = 0).
Proof.
  intros p fs s Hb HP HCf HCr HW HE.
  assert (Hstep : forall f s', bounds p s' ->
            FreeWater (dynamic p f s') <= FreeWater s' * snow_WHC p).
  { intros f s' (_ & _ & _ & _ & HFW & _).
    apply free_water_step; assumption. }
  assert (Hrun : snow_WHC p <= 1 -> 0 <= FreeWater (run p fs s) <= FreeWater s).
  { intros HW1. revert s Hb HP.
    induction fs as [| f fs IH]; intros s Hb HP.
    - cbn [run]. destruct Hb as (_ & _ & _ & _ & HFW & _). lra.
    - cbn [run]. inversion HP as [| f' fs' Hf Hfs]; subst.
      assert (Hb' : bounds p (dynamic p f s)).
      { apply dynamic_bounds; try assumption. apply fER_le_one. exact HE. }
      destruct (IH (dynamic p f s) Hb' Hfs) as [I0 I1].
      pose proof (Hstep f s Hb) as Hs.
      destruct Hb as (_ & _ & _ & _ & HFW & _).
      split; [exact I0 |]. nra. }
  split; [intros f; apply Hstep; exact Hb |]. split; [exact Hrun |].
  intros H0. clear Hrun. revert s Hb HP H0.
  induction fs as [| f fs IH]; intros s Hb HP H0.
  - exact H0.
  - cbn [run]. inversion HP as [| f' fs' Hf Hfs]; subst.
    assert (Hb' : bounds p (dynamic p f s)).
    { apply dynamic_bounds; try assumption. apply fER_le_one. exact HE. }
    assert (H0' : FreeWater (dynamic p f s) = 0).
    { pose proof (Hstep f s Hb) as Hs. rewrite H0 in Hs.
      destruct Hb' as (_ & _ & _ & _ & HFW' & _). lra. }
    exact (IH (dynamic p f s) Hb' Hfs H0').
Qed.

Lemma free_water_never_accumulates_witness :
  FreeWater (run (cell 0.1 0.5) (day 20 (- 3) :: day 0 10 :: nil)%list
               half_full) = 0
  /\ 0 <= FreeWater (run (cell 0.1 0.5) (day 20 (- 3) :: day 0 10 :: nil)%list
                       half_full)
       <= FreeWater half_full.
Proof.
  assert (Hc : ER_coeff (cell 0.1 0.5)
               * pcr_pow (Rmax 0.05 (hveg (cell 0.1 0.5)))
                   (ER_exp (cell 0.1 0.5)) <= 1).
  { cbn [ER_coeff hveg ER_exp cell cell_with].
    rewrite (Rmax_right 0.05 1) by lra. rewrite pcr_pow_one. lra. }
  assert (HP : List.Forall (fun f => 0 <= PRECIP f)
                 (day 20 (- 3) :: day 0 10 :: nil)%list).
  { repeat (apply List.Forall_cons; [cbn; lra |]). apply List.Forall_nil. }
  assert (Hb : bounds (cell 0.1 0.5) half_full) by (unfold bounds; cbn; lra).
  destruct (free_water_never_accumulates (cell 0.1 0.5)
              (day 20 (- 3) :: day 0 10 :: nil)%list half_full Hb HP)
    as (_ & H1 & H0); [cbn; lra .. | exact Hc |].
  split; [apply H0; reflexivity | apply H1; cbn; lra].
Defined.

(** ** Water balance of the land phase *)

(** The balances of the three layers and of the snow pack, in the names of
    the timestep. *)
Lemma timestep_residuals (p : Param) (f : Forcing) (s : State) :
  S0 s + I_t p f s
  = extraction (top p f s) + D0 p f s + IF0 p f s + storage (top p f s)
  /\ Ss s + D0 p f s
     = extraction (shallow p f s) + Ds p f s + interflow (shallow p f s)
       + storage (shallow p f s)
  /\ Sd s + Ds p f s
     = extraction (deep p f s) + Dd p f s + IFd p f s + storage (deep p f s)
  /\ snow_DrySnow (snow p f s) + snow_FreeWater (snow p f s)
     + Rmelt p f s + Ps p f s
     = DrySnow s + FreeWater s + Pn p f s.
Proof.
  pose proof (S0_closure_residual (S0 s) (I_t p f s) (S0max p) (Rh_0s p s)
                (S0_branches (S0 s) (I_t p f s) (Es p f s) (S0max p)
                   (K0sat p) (Kssat p) (Rh_0s p s))) as H0.
  pose proof (Ss_closure_residual (Ss s) (D0 p f s) (Ssmax p) (Rh_sd p s)
                (Ss_branches (Ss s) (D0 p f s) (Us p f s) (Ssmax p)
                   (Kssat p) (Kdsat p) (Rh_sd p s))) as Hs.
  pose proof (Sd_closure_residual (Sd s) (Ds p f s) (Sdmax p)
                (Sd_branches (Sd s) (Ds p f s) (Ud p f s) (Sdmax p)
                   (Kdsat p))) as Hd.
  fold (S0_balance (S0 s) (I_t p f s) (Es p f s) (S0max p) (K0sat p)
          (Kssat p) (Rh_0s p s)) in H0.
  fold (top p f s) in H0.
  fold (Ss_balance (Ss s) (D0 p f s) (Us p f s) (Ssmax p) (Kssat p)
          (Kdsat p) (Rh_sd p s)) in Hs.
  fold (shallow p f s) in Hs.
  fold (Sd_balance (Sd s) (Ds p f s) (Ud p f s) (Sdmax p) (Kdsat p)) in Hd.
  fold (deep p f s) in Hd.
  unfold layer_residual in H0, Hs, Hd.
  destruct (snow_routine_balance (Pn p f s) (T24 f) (FreeWater s) (DrySnow s)
              (snow_TT p) (snow_TTI p) (snow_Cfmax p) (snow_Cfr p)
              (snow_WHC p)) as [Hsn Hin].
  fold (snow p f s) in Hsn, Hin.
  fold (Rmelt p f s) in Hin. fold (Ps p f s) in Hin.
  split; [| split; [| split]].
  - unfold D0, IF0. lra.
  - unfold Ds. lra.
  - unfold Dd, IFd. lra.
  - lra.
Qed.

(** X6.  Water balance of the land phase of a timestep, for every input:
    the change of the soil, groundwater and snow stores equals precipitation
    minus interception, the extractions of the three layers, groundwater
    evaporation and uptake, the runoff [QR] and the groundwater discharge
    [Qg]. *)
Theorem land_phase_water_balance :
  forall (p : Param) (f : Forcing) (s : State),
    land_storage (dynamic p f s) - land_storage s
    = Pg f - Ei p f s
      - extraction (top p f s) - extraction (shallow p f s)
      - extraction (deep p f s) - Eg0 p f s - Ug p f s
      - QR p f s - Qg p f s.
Proof.
  intros p f s.
  destruct (timestep_residuals p f s) as (H0 & Hs & Hd & Hsn).
  assert (HSg : Sg (dynamic p f s) = Sg s + NetGf p f s - Qg p f s)
    by reflexivity.
  assert (HI : I_t p f s = Ps p f s - Rhof p f s - Rsof p f s)
    by reflexivity.
  assert (HQ : QR p f s
               = Rhof p f s + Rsof p f s + Rmelt p f s + IF0 p f s
                 + (interflow (shallow p f s) + IFd p f s))
    by reflexivity.
  assert (HP : Pn p f s = Pg f - Ei p f s) by reflexivity.
  unfold land_storage. rewrite HSg, HQ.
  unfold dynamic. cbn [S0 Ss Sd FreeWater DrySnow].
  unfold NetGf. lra.
Qed.

(** ** Discharge *)

Lemma recession_coefficient (K : R) : 0 <= K -> 0 <= 1 - exp (- K) < 1.
Proof.
  intros [HK | HK].
  - pose proof (recession_factor K HK). lra.
  - subst K. replace (- 0) with 0 by ring. rewrite exp_0. lra.
Qed.

(** X7.  For a non-negative recession coefficient the groundwater
    discharge (lines 1158-1162) lies between zero and the positive part of the
    store after its net inflow; a store at or below zero discharges nothing
    and keeps its deficit, a store at or above zero is multiplied by
    [exp (- K)].  The surface store (lines 1165-1169) is first floored at zero,
    then discharges the fraction [1 - exp (- K)] of it. *)
Theorem discharge_within_store :
  forall Sg NetGf Sr QR Erl Qg K : R,
    0 <= K ->
    let gw := groundwater_store Sg NetGf K in
    let sw := surface_store Sr QR Erl Qg K in
    (0 <= fst gw <= Rmax (Sg + NetGf) 0
     /\ (Sg + NetGf <= 0 -> fst gw = 0 /\ snd gw = Sg + NetGf)
     /\ (0 <= Sg + NetGf ->
         fst gw = (1 - exp (- K)) * (Sg + NetGf)
         /\ snd gw = exp (- K) * (Sg + NetGf)))
    /\ (0 <= fst sw <= Rmax 0 (Sr + QR - Erl + Qg)
        /\ fst sw = (1 - exp (- K)) * Rmax 0 (Sr + QR - Erl + Qg)
        /\ snd sw = exp (- K) * Rmax 0 (Sr + QR - Erl + Qg)
        /\ (Sr + QR - Erl + Qg <= 0 -> fst sw = 0 /\ snd sw = 0)).
Proof.
  intros Sg NetGf Sr QR Erl Qg K HK gw sw.
  pose proof (recession_coefficient K HK) as Hc.
  set (c := 1 - exp (- K)) in *.
  split.
  - unfold gw, groundwater_store. cbn [fst snd]. fold c.
    pose proof (Rmax_r (Sg + NetGf) 0) as H0.
    set (m := Rmax (Sg + NetGf) 0) in *.
    assert (Hq : Rmin m (c * m) = c * m) by (apply Rmin_right; nra).
    rewrite Hq. split; [nra |]. split.
    + intros Hn. assert (Hm : m = 0) by (apply Rmax_right; exact Hn).
      rewrite Hm. split; ring.
    + intros Hp. assert (Hm : m = Sg + NetGf) by (apply Rmax_left; exact Hp).
      rewrite Hm. split; [reflexivity |]. unfold c. ring.
  - unfold sw, surface_store. cbn [fst snd]. fold c.
    pose proof (Rmax_l 0 (Sr + QR - Erl + Qg)) as H0.
    set (m := Rmax 0 (Sr + QR - Erl + Qg)) in *.
    assert (Hq : Rmin m (c * m) = c * m) by (apply Rmin_right; nra).
    rewrite Hq. rewrite (Rmax_right 0 (c * m)) by nra.
    split; [nra |]. split; [reflexivity |]. split; [unfold c; ring |].
    intros Hn. assert (Hm : m = 0) by (apply Rmax_left; exact Hn).
    rewrite Hm. split; ring.
Qed.

Lemma discharge_within_store_witness :
  fst (groundwater_store 2 (- 5) (1 / 2)) = 0
  /\ snd (groundwater_store 2 (- 5) (1 / 2)) = 2 + - 5
  /\ 0 <= fst (surface_store 1 4 0 2 (1 / 2)) <= Rmax 0 (1 + 4 - 0 + 2).
Proof.
  destruct (discharge_within_store 2 (- 5) 1 4 0 2 (1 / 2))
    as [(_ & Hn & _) (Hs & _)]; [lra |].
  destruct Hn as [H1 H2]; [lra |].
  split; [exact H1 |]. split; [exact H2 | exact Hs].
Defined.

(** ** Root water uptake and evaporation *)

Lemma uptake_share (a b c E cap : R) :
  0 <= a -> 0 < a + b + c ->
  0 <= Rmax 0 (Rmin (a / (a + b + c) * E) cap)
  /\ Rmax 0 (Rmin (a / (a + b + c) * E) cap) <= a / (a + b + c) * Rmax 0 E
  /\ Rmax 0 (Rmin (a / (a + b + c) * E) cap) <= Rmax 0 cap.
Proof.
  intros Ha Hs.
  assert (Hf : 0 <= a / (a + b + c)).
  { apply Rmult_le_pos; [exact Ha |]. left. apply Rinv_0_lt_compat. exact Hs. }
  set (fr := a / (a + b + c)) in *.
  pose proof (Rmax_l 0 E) as HE0. pose proof (Rmax_r 0 E) as HE1.
  split; [apply Rmax_l |]. split.
  - apply Rmax_lub; [nra |].
    apply Rle_trans with (fr * E); [apply Rmin_l | nra].
  - apply Rmax_lub; [apply Rmax_l |].
    apply Rle_trans with cap; [apply Rmin_r | apply Rmax_r].
Qed.

Lemma Umax_parts (p : Param) (f : Forcing) (s : State) :
  0 <= Usmax p s /\ 0 <= Udmax p s /\ 0 <= Ugmax p f s
  /\ 0 <= Umax p f s.
Proof.
  unfold Umax, Usmax, Udmax, Ugmax.
  repeat split; try apply Rmax_l.
  eapply Rle_trans; [| apply Rmax_l]. apply Rmax_l.
Qed.

Lemma transpiration_limited (p : Param) (f : Forcing) (s : State) :
  0 < Usmax p s + Udmax p s + Ugmax p f s ->
  0 <= Et p f s <= Rmax 0 (Et_pot p f s).
Proof.
  intros Hsum. destruct (Umax_parts p f s) as (Hs & Hd & Hg & _).
  unfold Et, U0, Us, Ud, Ug.
  set (a := Usmax p s) in *. set (b := Udmax p s) in *.
  set (c := Ugmax p f s) in *. set (E := Et_pot p f s).
  destruct (uptake_share a b c E (Ss s - 1e-2) Hs Hsum) as (A1 & A2 & _).
  assert (Hsum' : 0 < b + a + c) by lra.
  destruct (uptake_share b a c E (Sd s - 1e-2) Hd Hsum') as (B1 & B2 & _).
  assert (Hsum'' : 0 < c + a + b) by lra.
  destruct (uptake_share c a b E (Sd s - 1e-2) Hg Hsum'') as (C1 & C2 & _).
  replace (b + a + c) with (a + b + c) in * by ring.
  replace (c + a + b) with (a + b + c) in * by ring.
  split; [lra |].
  pose proof (Rmax_l 0 E) as HE.
  assert (Hone : a / (a + b + c) + b / (a + b + c) + c / (a + b + c) = 1)
    by (field; lra).
  set (M := Rmax 0 E) in *.
  set (fa := a / (a + b + c)) in *. set (fb := b / (a + b + c)) in *.
  set (fc := c / (a + b + c)) in *.
  assert (fa * M + fb * M + fc * M = M) by nra.
  lra.
Qed.

(** X8.  The root water uptakes (lines 959-961) are non-negative and stop
    0.01 mm short of emptying a store: [Us] is at most the positive part of
    [Ss - 0.01], and [Ud] and the groundwater uptake [Ug] are each at most
    the positive part of [Sd - 0.01] (the groundwater uptake is capped by
    the deep soil store).  When some uptake capacity is positive the
    transpiration [Et], their sum, is non-negative, at most the positive part
    of the transpiration first assigned, and at most [Umax]. *)
Theorem root_uptake_within_limits :
  forall (p : Param) (f : Forcing) (s : State),
    (0 <= Us p f s <= Rmax 0 (Ss s - 1e-2)
     /\ 0 <= Ud p f s <= Rmax 0 (Sd s - 1e-2)
     /\ 0 <= Ug p f s <= Rmax 0 (Sd s - 1e-2))
    /\ (0 < Usmax p s + Udmax p s + Ugmax p f s ->
        0 <= Et p f s
        /\ Et p f s <= Rmax 0 (Et_pot p f s)
        /\ Et p f s <= Umax p f s).
Proof.
  intros p f s. split.
  - unfold Us, Ud, Ug.
    repeat split; try apply Rmax_l;
      (apply Rmax_lub; [apply Rmax_l |];
       eapply Rle_trans; [apply Rmin_r | apply Rmax_r]).
  - intros Hsum. destruct (transpiration_limited p f s Hsum) as [H0 H1].
    split; [exact H0 |]. split; [exact H1 |].
    destruct (Umax_parts p f s) as (_ & _ & _ & HU).
    eapply Rle_trans; [exact H1 |].
    apply Rmax_lub; [exact HU |]. unfold Et_pot. apply Rmin_l.
Qed.

Lemma Usmax_half_full : Usmax (cell 0.1 0.5) half_full = 6.
Proof.
  unfold Usmax, ws. cbn [Us0 wslimU Ss Ssmax cell cell_with half_full].
  pick_extrema. lra.
Qed.

Lemma root_uptake_within_limits_witness :
  Et (cell 0.1 0.5) (day 4 10) half_full
  <= Umax (cell 0.1 0.5) (day 4 10) half_full.
Proof.
  destruct (root_uptake_within_limits (cell 0.1 0.5) (day 4 10) half_full)
    as [_ H].
  destruct H as (_ & _ & H).
  - destruct (Umax_parts (cell 0.1 0.5) (day 4 10) half_full)
      as (_ & Hd & Hg & _).
    rewrite Usmax_half_full. lra.
  - exact H.
Defined.

(** ** Evaporation within the potential *)

Lemma keps_nonneg (f : Forcing) : 0 <= AIRPRESS f -> 0 <= keps f.
Proof.
  intros HP. unfold keps, pair, pes.
  pose proof (exp_pos (17.27 * Ta f / (237.3 + Ta f))) as He.
  apply Rmult_le_pos; [nra |]. left. apply Rinv_0_lt_compat. nra.
Qed.

Lemma ga_pos (p : Param) (f : Forcing) : 0.001 <= ga p f.
Proof. unfold ga. apply Rmax_l. Qed.

Lemma gs_pos (p : Param) (s : State) :
  0 < Gs_scalar p * cGsmax p * Vc p -> 0 < gs p s.
Proof.
  intros HG. unfold gs, fD, Gsmax. pose proof (fveg_range p s). nra.
Qed.

Lemma ft_range (p : Param) (f : Forcing) (s : State) :
  0 <= AIRPRESS f -> 0 < Gs_scalar p * cGsmax p * Vc p ->
  0 < ft p f s <= 1.
Proof.
  intros HP HG. pose proof (keps_nonneg f HP) as Hk.
  pose proof (ga_pos p f) as Hga. pose proof (gs_pos p s HG) as Hgs.
  unfold ft.
  assert (Hr : 0 <= keps f / (1 + keps f)).
  { apply Rmult_le_pos; [exact Hk |]. left. apply Rinv_0_lt_compat. lra. }
  assert (Hq : 0 <= keps f / (1 + keps f) * ga p f / gs p s).
  { apply Rmult_le_pos; [nra |]. left. apply Rinv_0_lt_compat. exact Hgs. }
  set (q := keps f / (1 + keps f) * ga p f / gs p s) in *.
  split.
  - apply Rdiv_lt_0_compat; lra.
  - apply Rmult_le_reg_r with (1 + q); [lra |].
    unfold Rdiv. rewrite Rmult_assoc, Rinv_l by lra. lra.
Qed.

Lemma fwater_nonneg (p : Param) (s : State) :
  0 <= OpenWaterFrac p -> 0 <= fwater p s.
Proof.
  intros H. unfold fwater, OpenWaterFrac_t.
  eapply Rle_trans; [exact H | apply Rmax_r].
Qed.

Lemma soil_evaporation_share (p : Param) (f : Forcing) (s : State) :
  0 <= OpenWaterFrac p -> 0 <= FsoilEmax p <= 1 -> 0 < w0limE p ->
  0 <= (1 - fsat p f s) * fsoilE p s
       + Rmax 0 (fsat p f s - fwater p s) * FsoilEmax p <= 1.
Proof.
  intros HO HF Hw. pose proof (fwater_nonneg p s HO) as Hfw.
  assert (Hsat1 : fsat p f s <= 1) by (unfold fsat; apply Rmin_l).
  assert (HfE : 0 <= fsoilE p s <= FsoilEmax p).
  { unfold fsoilE.
    assert (Hx : 0 <= w0x p s) by (unfold w0x; apply Rmax_l).
    assert (Hr : 0 <= w0x p s / w0limE p).
    { apply Rmult_le_pos; [exact Hx |]. left. apply Rinv_0_lt_compat. exact Hw. }
    assert (Hm : 0 <= Rmin 1 (w0x p s / w0limE p) <= 1).
    { split; [apply Rmin_glb; lra | apply Rmin_l]. }
    nra. }
  assert (Hsat0 : 0 <= fsat p f s).
  { unfold fsat. fold (fwater p s). apply Rmin_glb; [lra |].
    eapply Rle_trans; [exact Hfw | apply Rmax_l]. }
  assert (Hm : 0 <= Rmax 0 (fsat p f s - fwater p s) <= fsat p f s).
  { split; [apply Rmax_l | apply Rmax_lub; lra]. }
  set (m := Rmax 0 (fsat p f s - fwater p s)) in *.
  set (fs := fsat p f s) in *. set (e := fsoilE p s) in *.
  set (F := FsoilEmax p) in *.
  split; [nra |].
  assert ((1 - fs) * e <= (1 - fs) * F) by nra.
  assert (m * F <= fs * F) by nra.
  nra.
Qed.

(** X9.  With a positive canopy conductance, a non-negative air pressure
    and open-water fraction, [FsoilEmax] in [0, 1], a positive [w0limE] and
    some positive uptake capacity, transpiration is at most [ft * E0], soil
    and groundwater evaporation are non-negative, and transpiration plus soil
    and groundwater evaporation do not exceed the potential [E0]
    (lines 940-971). *)
Theorem evaporation_within_potential :
  forall (p : Param) (f : Forcing) (s : State),
    0 <= AIRPRESS f -> 0 < Gs_scalar p * cGsmax p * Vc p ->
    0 <= OpenWaterFrac p -> 0 <= FsoilEmax p <= 1 -> 0 < w0limE p ->
    0 < Usmax p s + Udmax p s + Ugmax p f s ->
    0 <= Et p f s <= ft p f s * E0 f
    /\ 0 <= Es p f s
    /\ Et p f s + Es p f s <= E0 f.
Proof.
  intros p f s HP HG HO HF Hw Hsum.
  destruct (ft_range p f s HP HG) as [Hft0 Hft1].
  assert (HE0 : 0 <= E0 f) by (unfold E0; apply Rmax_r).
  destruct (transpiration_limited p f s Hsum) as [HEt0 HEt1].
  assert (HEtm : Rmax 0 (Et_pot p f s) <= ft p f s * E0 f).
  { apply Rmax_lub; [nra |]. unfold Et_pot, Etmax. apply Rmin_r. }
  assert (HEt : Et p f s <= ft p f s * E0 f) by lra.
  assert (Hd : 0 <= E0 f - Et p f s) by nra.
  pose proof (soil_evaporation_share p f s HO HF Hw) as [Hc0 Hc1].
  assert (HEs : Es p f s
                = ((1 - fsat p f s) * fsoilE p s
                   + Rmax 0 (fsat p f s - fwater p s) * FsoilEmax p)
                  * (E0 f - Et p f s)).
  { unfold Es, Es0, Eg0. rewrite (Rmax_right 0 (E0 f - Et p f s)) by exact Hd.
    ring. }
  set (c := (1 - fsat p f s) * fsoilE p s
            + Rmax 0 (fsat p f s - fwater p s) * FsoilEmax p) in *.
  split; [split; assumption |].
  rewrite HEs. split; nra.
Qed.

Lemma evaporation_within_potential_witness :
  Et (cell 0.1 0.5) (day 4 10) half_full
  + Es (cell 0.1 0.5) (day 4 10) half_full
  <= E0 (day 4 10).
Proof.
  assert (Hsum : 0 < Usmax (cell 0.1 0.5) half_full
                     + Udmax (cell 0.1 0.5) half_full
                     + Ugmax (cell 0.1 0.5) (day 4 10) half_full).
  { destruct (Umax_parts (cell 0.1 0.5) (day 4 10) half_full)
      as (_ & Hd & Hg & _).
    rewrite Usmax_half_full. lra. }
  apply (evaporation_within_potential (cell 0.1 0.5) (day 4 10) half_full);
    try exact Hsum; cbn; lra.
Defined.

(** ** Interception as a function of the precipitation *)

Lemma pcr_scalar_01 (b : bool) : 0 <= pcr_scalar b <= 1.
Proof. destruct b; simpl; lra. Qed.


Lemma Ei_of_cases (T24 Pg Pwet fveg fER : R) :
  Ei_of T24 Pg Pwet fveg fER
  = pcr_scalar (pcr_gt T24 0)
    * (if Rlt_dec Pg Pwet then fveg * Pg
       else fveg * Pwet + fER * (Pg - Pwet)).
Proof.
  unfold Ei_of, pcr_ge, pcr_le, pcr_lt, pcr_scalar.
  destruct (Rlt_dec Pg Pwet), (Rle_dec Pwet Pg); try lra; ring.
Qed.

(** X10.  For cover and wetting coefficients in [0, 1] and a non-negative
    wetting point, interception (lines 990-993) does not decrease with the
    precipitation and lies between zero and the precipitation; the two
    branches meet at the wetting point, above which it grows with slope
    [fER]. *)
Theorem interception_monotone_and_bounded :
  forall T24 Pwet fveg fER Pg1 Pg2 : R,
    0 <= fveg <= 1 -> 0 <= fER <= 1 -> 0 <= Pwet ->
    (Pg1 <= Pg2 ->
       Ei_of T24 Pg1 Pwet fveg fER <= Ei_of T24 Pg2 Pwet fveg fER)
    /\ (0 <= Pg1 -> 0 <= Ei_of T24 Pg1 Pwet fveg fER <= Pg1)
    /\ Ei_of T24 Pwet Pwet fveg fER = pcr_scalar (pcr_gt T24 0) * (fveg * Pwet)
    /\ (Pwet <= Pg1 -> Pwet <= Pg2 ->
        Ei_of T24 Pg2 Pwet fveg fER - Ei_of T24 Pg1 Pwet fveg fER
        = pcr_scalar (pcr_gt T24 0) * (fER * (Pg2 - Pg1))).
Proof.
  intros T24 Pwet fveg fER Pg1 Pg2 Hv HE HW.
  rewrite !Ei_of_cases.
  pose proof (pcr_scalar_01 (pcr_gt T24 0)) as Hs.
  set (k := pcr_scalar (pcr_gt T24 0)) in *.
  split; [| split; [| split]].
  - intros Hle.
    assert (Hin : (if Rlt_dec Pg1 Pwet then fveg * Pg1
                   else fveg * Pwet + fER * (Pg1 - Pwet))
                  <= (if Rlt_dec Pg2 Pwet then fveg * Pg2
                      else fveg * Pwet + fER * (Pg2 - Pwet))).
    { destruct (Rlt_dec Pg1 Pwet), (Rlt_dec Pg2 Pwet); try lra; nra. }
    apply Rmult_le_compat_l; [lra | exact Hin].
  - intros HP.
    assert (Hin : 0 <= (if Rlt_dec Pg1 Pwet then fveg * Pg1
                        else fveg * Pwet + fER * (Pg1 - Pwet)) <= Pg1).
    { destruct (Rlt_dec Pg1 Pwet); split; nra. }
    split; nra.
  - destruct (Rlt_dec Pwet Pwet); [lra | ring].
  - intros H1 H2.
    destruct (Rlt_dec Pg1 Pwet), (Rlt_dec Pg2 Pwet); first [lra | ring].
Qed.

Lemma interception_monotone_and_bounded_witness :
  Ei_of 10 2 5 (1 / 2) (1 / 10) <= Ei_of 10 8 5 (1 / 2) (1 / 10)
  /\ 0 <= Ei_of 10 2 5 (1 / 2) (1 / 10) <= 2.
Proof.
  assert (Hv : 0 <= 1 / 2 <= 1) by lra.
  assert (HE : 0 <= 1 / 10 <= 1) by lra.
  assert (HW : 0 <= 5) by lra.
  destruct (interception_monotone_and_bounded 10 5 (1 / 2) (1 / 10) 2 8
              Hv HE HW) as (Hm & Hb & _).
  split; [apply Hm; lra | apply Hb; lra].
Defined.

(** ** Vegetation adjustment *)

Lemma fvmax_range (p : Param) : 0 < LAIref p -> 0 < fvmax p < 1.
Proof.
  intros HL. unfold fvmax.
  pose proof (Rmax_r (LAImax p) 0.002778) as Hm.
  set (L := Rmax (LAImax p) 0.002778) in *.
  assert (Hneg : - L / LAIref p < 0).
  { unfold Rdiv. assert (0 < / LAIref p) by (apply Rinv_0_lt_compat; exact HL).
    nra. }
  pose proof (exp_pos (- L / LAIref p)).
  assert (exp (- L / LAIref p) < 1).
  { rewrite <- exp_0. apply exp_increasing. exact Hneg. }
  lra.
Qed.

(** The equilibrium leaf mass of lines 1173-1182. *)
Lemma equilibrium_leaf_area (p : Param) (f : Forcing) (s : State) :
  0 < LAIref p -> 0 < SLA p ->
  SLA p * (dMleaf p f s + Mleaf s) <= Rmax (LAImax p) 0.002778.
Proof.
  intros HL HS. unfold dMleaf.
  replace (- ln (1 - fveq p f s) * LAIref p / SLA p - Mleaf s + Mleaf s)
    with (- ln (1 - fveq p f s) * LAIref p / SLA p) by ring.
  replace (SLA p * (- ln (1 - fveq p f s) * LAIref p / SLA p))
    with (- ln (1 - fveq p f s) * LAIref p) by (field; lra).
  set (L := Rmax (LAImax p) 0.002778).
  assert (Hq : fveq p f s <= fvmax p) by (unfold fveq; apply Rmin_r).
  assert (Hv : 1 - fvmax p = exp (- L / LAIref p)) by (unfold fvmax, L; ring).
  assert (Hpos : 0 < exp (- L / LAIref p)) by apply exp_pos.
  assert (Hln : - L / LAIref p <= ln (1 - fveq p f s)).
  { rewrite <- (ln_exp (- L / LAIref p)).
    destruct (Req_dec (exp (- L / LAIref p)) (1 - fveq p f s)) as [E | E].
    - rewrite E. lra.
    - left. apply ln_increasing; lra. }
  assert (Hm : - ln (1 - fveq p f s) <= L / LAIref p).
  { unfold Rdiv in *. lra. }
  apply Rle_trans with (L / LAIref p * LAIref p); [nra |].
  right. field. lra.
Qed.

Lemma Mleafnet_cases (p : Param) (f : Forcing) (s : State) :
  Mleafnet p f s
  = if Rlt_dec 0 (dMleaf p f s) then dMleaf p f s / Tgrow p
    else if Rlt_dec (dMleaf p f s) 0 then dMleaf p f s / Tsenc p
    else 0.
Proof.
  unfold Mleafnet, pcr_gt, pcr_lt, pcr_scalar.
  destruct (Rlt_dec 0 (dMleaf p f s)), (Rlt_dec (dMleaf p f s) 0);
    try lra; unfold Rdiv; ring.
Qed.

Lemma relax_fraction (d T : R) : 1 <= T -> 0 < d -> 0 < d / T <= d.
Proof.
  intros HT Hd. assert (Hi : 0 < / T) by (apply Rinv_0_lt_compat; lra).
  split; [unfold Rdiv; nra |].
  apply Rmult_le_reg_r with T; [lra |].
  unfold Rdiv. rewrite Rmult_assoc, Rinv_l by lra. nra.
Qed.

Lemma fveq_nonneg (p : Param) (f : Forcing) (s : State) :
  0 < LAIref p -> 0 <= AIRPRESS f -> 0 < Gs_scalar p * cGsmax p * Vc p ->
  0 <= fveq p f s.
Proof.
  intros HL HP HG. unfold fveq.
  apply Rmin_glb; [| left; apply fvmax_range; exact HL].
  pose proof (keps_nonneg f HP) as Hk. pose proof (ga_pos p f) as Hga.
  assert (H1 : 0 < 1 / Rmax (E0 f / Umax p f s - 1) 1e-3).
  { apply Rdiv_lt_0_compat; [lra |].
    pose proof (Rmax_r (E0 f / Umax p f s - 1) 1e-3). lra. }
  assert (H2 : 0 <= keps f / (1 + keps f)).
  { apply Rmult_le_pos; [exact Hk |]. left. apply Rinv_0_lt_compat. lra. }
  assert (H3 : 0 < ga p f / (fD * Gsmax p)).
  { apply Rdiv_lt_0_compat; [lra |]. unfold fD, Gsmax. lra. }
  apply Rmult_le_pos; [apply Rmult_le_pos; lra | lra].
Qed.

Lemma ln_nonpos (x : R) : 0 < x <= 1 -> ln x <= 0.
Proof.
  intros [H0 [H1 | H1]].
  - left. rewrite <- ln_1. apply ln_increasing; assumption.
  - subst x. rewrite ln_1. lra.
Qed.

(** X11.  Vegetation adjustment (lines 1173-1187) with [Tgrow >= 1] and
    [Tsenc > 1]: the equilibrium cover fraction lies in [0, 1), the
    equilibrium leaf area in [0, max LAImax 0.002778], and the leaf mass moves
    towards its equilibrium without passing it, in growth and in senescence.
    The leaf area therefore stays below the larger of its prior value and
    the maximum, and a positive leaf mass stays positive. *)
Theorem leaf_mass_relaxes_without_overshoot :
  forall (p : Param) (f : Forcing) (s : State),
    0 < LAIref p -> 0 < SLA p -> 1 <= Tgrow p -> 1 < Tsenc p ->
    0 <= AIRPRESS f -> 0 < Gs_scalar p * cGsmax p * Vc p ->
    let target := Mleaf s + dMleaf p f s in
    0 <= fveq p f s < 1
    /\ 0 <= SLA p * target <= Rmax (LAImax p) 0.002778
    /\ (Mleaf s <= target ->
        Mleaf s <= Mleaf (dynamic p f s) <= target)
    /\ (target <= Mleaf s ->
        target <= Mleaf (dynamic p f s) <= Mleaf s)
    /\ LAI p (dynamic p f s)
       <= Rmax (LAI p s) (Rmax (LAImax p) 0.002778)
    /\ (0 < Mleaf s -> 0 < Mleaf (dynamic p f s)).
Proof.
  intros p f s HL HS HTg HTs HP HG target.
  assert (Hq : fveq p f s < 1).
  { apply Rle_lt_trans with (fvmax p); [unfold fveq; apply Rmin_r |].
    apply fvmax_range. exact HL. }
  pose proof (fveq_nonneg p f s HL HP HG) as Hq0.
  pose proof (equilibrium_leaf_area p f s HL HS) as Heq.
  replace (dMleaf p f s + Mleaf s) with target in Heq by (unfold target; ring).
  assert (Ht0 : 0 <= target).
  { unfold target, dMleaf.
    replace (Mleaf s + (- ln (1 - fveq p f s) * LAIref p / SLA p - Mleaf s))
      with (- ln (1 - fveq p f s) * LAIref p / SLA p) by ring.
    pose proof (ln_nonpos (1 - fveq p f s) ltac:(lra)) as Hln.
    apply Rmult_le_pos; [nra |]. left. apply Rinv_0_lt_compat. exact HS. }
  assert (HM : Mleaf (dynamic p f s) = Mleaf s + Mleafnet p f s) by reflexivity.
  rewrite Mleafnet_cases in HM.
  assert (Hup : Mleaf s <= target -> Mleaf s <= Mleaf (dynamic p f s) <= target).
  { intros Hle. rewrite HM. unfold target in *.
    destruct (Rlt_dec 0 (dMleaf p f s)) as [Hp | Hp].
    - pose proof (relax_fraction _ _ HTg Hp). lra.
    - destruct (Rlt_dec (dMleaf p f s) 0); lra. }
  assert (Hdn : target <= Mleaf s -> target <= Mleaf (dynamic p f s) <= Mleaf s).
  { intros Hle. rewrite HM. unfold target in *.
    destruct (Rlt_dec 0 (dMleaf p f s)) as [Hp | Hp]; [lra |].
    destruct (Rlt_dec (dMleaf p f s) 0) as [Hn | Hn]; [| lra].
    assert (Hn' : 0 < - dMleaf p f s) by lra.
    pose proof (relax_fraction (- dMleaf p f s) (Tsenc p) ltac:(lra) Hn') as Hr.
    replace (- dMleaf p f s / Tsenc p) with (- (dMleaf p f s / Tsenc p)) in Hr
      by (unfold Rdiv; ring).
    lra. }
  split; [split; assumption |]. split; [split; [nra | exact Heq] |].
  split; [exact Hup |]. split; [exact Hdn |]. split.
  - unfold LAI.
    destruct (Rle_dec (Mleaf s) target) as [Hc | Hc].
    + destruct (Hup Hc) as [_ H2].
      apply Rle_trans with (SLA p * target); [nra |].
      eapply Rle_trans; [exact Heq | apply Rmax_r].
    + destruct (Hdn ltac:(lra)) as [_ H2].
      apply Rle_trans with (SLA p * Mleaf s); [nra | apply Rmax_l].
  - intros HM0.
    destruct (Rle_dec (Mleaf s) target) as [Hc | Hc].
    + destruct (Hup Hc) as [H1 _]. lra.
    + rewrite HM. unfold target in *.
      destruct (Rlt_dec 0 (dMleaf p f s)) as [Hp | Hp]; [lra |].
      destruct (Rlt_dec (dMleaf p f s) 0) as [Hn | Hn]; [| lra].
      assert (Hi : 0 < / Tsenc p < 1).
      { split; [apply Rinv_0_lt_compat; lra |].
        rewrite <- Rinv_1. apply Rinv_lt_contravar; lra. }
      unfold Rdiv. nra.
Qed.

Lemma leaf_mass_relaxes_without_overshoot_witness :
  0 < Mleaf (dynamic (cell 0.1 0.5) (day 4 10) half_full)
  /\ LAI (cell 0.1 0.5) (dynamic (cell 0.1 0.5) (day 4 10) half_full)
     <= Rmax (LAI (cell 0.1 0.5) half_full)
          (Rmax (LAImax (cell 0.1 0.5)) 0.002778).
Proof.
  destruct (leaf_mass_relaxes_without_overshoot
              (cell 0.1 0.5) (day 4 10) half_full)
    as (_ & _ & _ & _ & HL & HM); try (cbn; lra).
  split; [apply HM; cbn; lra | exact HL].
Defined.

(** ** Surface runoff, soil fluxes and the water balance of the cell *)

Lemma fsat_range (p : Param) (f : Forcing) (s : State) :
  0 <= OpenWaterFrac p -> 0 <= fsat p f s <= 1.
Proof.
  intros HO. unfold fsat, OpenWaterFrac_t. split; [| apply Rmin_l].
  apply Rmin_glb; [lra |].
  apply Rle_trans with (Rmax (ChannelSurface s) (OpenWaterFrac p));
    [| apply Rmax_l].
  apply Rle_trans with (OpenWaterFrac p); [exact HO | apply Rmax_r].
Qed.

Lemma snow_outflow_nonneg (p : Param) (f : Forcing) (s : State) :
  0 <= Ps p f s /\ 0 <= Rmelt p f s.
Proof.
  unfold Ps, Rmelt, snow, snow_routine. cbv zeta. cbn [snow_Ps snow_Rmelt].
  split; apply Rmult_le_pos; try apply Rmax_r; apply pcr_scalar_01.
Qed.

(** X12.  Surface water partition (lines 1041-1055) for positive reference
    precipitations, a non-negative initial loss, and saturated and impervious
    fractions that add up to at most one: saturation-excess and
    infiltration-excess runoff are non-negative, the latter is at most the
    unsaturated share of the precipitation after the initial loss, and the
    infiltration lies between zero and the precipitation that reaches the
    soil; the three add up to that precipitation. *)
Theorem runoff_partition :
  forall (p : Param) (f : Forcing) (s : State),
    0 < Pref p -> 0 < Pref_imp p -> 0 <= InitLoss p -> 0 <= fImp p ->
    0 <= OpenWaterFrac p -> fsat p f s + fImp p <= 1 ->
    0 <= Ps p f s /\ 0 <= Rmelt p f s
    /\ 0 <= Rsof p f s <= fsat p f s * Ps p f s
    /\ 0 <= Rhof p f s <= (1 - fsat p f s) * Pi_t p f s
    /\ 0 <= I_t p f s <= Ps p f s
    /\ I_t p f s + Rhof p f s + Rsof p f s = Ps p f s
    /\ 0 <= QR_surface p f s.
Proof.
  intros p f s HP HPi HL HI HO Hs.
  destruct (snow_outflow_nonneg p f s) as [HPs HRm].
  destruct (fsat_range p f s HO) as [Hf0 Hf1].
  assert (HPi0 : 0 <= Pi_t p f s <= Ps p f s).
  { unfold Pi_t. split; [apply Rmax_l |]. apply Rmax_lub; lra. }
  destruct (infiltration_excess (Pi_t p f s) (Pref p) (proj1 HPi0) HP) as [A0 A1].
  destruct (infiltration_excess (Pi_t p f s) (Pref_imp p) (proj1 HPi0) HPi)
    as [B0 B1].
  assert (Hsoil : 0 <= Rhof_soil p f s
                  <= (1 - fsat p f s - fImp p) * Pi_t p f s).
  { unfold Rhof_soil. rewrite Rmax_right by lra. split; nra. }
  assert (Himp : 0 <= Rhof_imp p f s <= fImp p * Pi_t p f s).
  { unfold Rhof_imp. split; nra. }
  assert (HRsof : 0 <= Rsof p f s <= fsat p f s * Ps p f s).
  { unfold Rsof. split; nra. }
  assert (HRhof : 0 <= Rhof p f s <= (1 - fsat p f s) * Pi_t p f s).
  { unfold Rhof. split; nra. }
  split; [exact HPs |]. split; [exact HRm |]. split; [exact HRsof |].
  split; [exact HRhof |].
  assert (HIt : I_t p f s = Ps p f s - Rhof p f s - Rsof p f s) by reflexivity.
  assert (HRs : Rsof p f s = fsat p f s * Ps p f s) by reflexivity.
  split; [| split].
  - assert (Hm : (1 - fsat p f s) * Pi_t p f s <= (1 - fsat p f s) * Ps p f s).
    { apply Rmult_le_compat_l; lra. }
    assert (Hn : 0 <= fsat p f s * Ps p f s) by (apply Rmult_le_pos; lra).
    rewrite HIt, HRs. split; lra.
  - rewrite HIt. ring.
  - unfold QR_surface. lra.
Qed.

Lemma runoff_partition_witness :
  0 <= I_t (cell 0.1 0.5) (day 20 10) half_full
       <= Ps (cell 0.1 0.5) (day 20 10) half_full.
Proof.
  assert (Hs : fsat (cell 0.1 0.5) (day 20 10) half_full
               + fImp (cell 0.1 0.5) <= 1).
  { unfold fsat, OpenWaterFrac_t, fg.
    rewrite ChannelSurface_zero by (cbn; lra).
    cbn [OpenWaterFrac fImp cell cell_with hand_fringe day].
    replace (0 / 100) with 0 by lra.
    pick_extrema. lra. }
  destruct (runoff_partition (cell 0.1 0.5) (day 20 10) half_full)
    as (_ & _ & _ & _ & H & _); [cbn; lra .. | exact Hs | exact H].
Defined.

Lemma groundwater_discharge_nonneg (Sg NetGf K : R) :
  0 <= K -> 0 <= fst (groundwater_store Sg NetGf K).
Proof.
  intros HK. pose proof (recession_coefficient K HK) as Hc.
  unfold groundwater_store. cbn [fst].
  pose proof (Rmax_r (Sg + NetGf) 0) as H0.
  set (m := Rmax (Sg + NetGf) 0) in *.
  apply Rmin_glb; nra.
Qed.

Lemma timestep_layers_sound (p : Param) (f : Forcing) (s : State) :
  bounds p s ->
  0 < S0max p -> 0 < Ssmax p -> 0 < Sdmax p ->
  0 < Kdsat p <= Kssat p -> Kssat p <= K0sat p ->
  0 <= slope_coeff p * slope p -> 0 <= Kr_coeff p ->
  layer_sound (S0 s) (I_t p f s) (S0max p) (top p f s)
  /\ layer_sound (Ss s) (D0 p f s) (Ssmax p) (shallow p f s)
  /\ layer_sound (Sd s) (Ds p f s) (Sdmax p) (deep p f s).
Proof.
  intros (B0 & Bs & Bd & _) C0 Cs Cd HK HK0 Hsl HKr.
  destruct (Rh_nonneg p s Hsl HKr HK HK0 (proj1 B0) (proj1 Bs) C0 Cs)
    as [R0 Rs].
  split; [| split].
  - unfold top. apply S0_balance_sound; lra.
  - unfold shallow. apply Ss_balance_sound; lra.
  - unfold deep. apply Sd_balance_sound; lra.
Qed.

(** X13.  In a timestep that starts within the bounds of the stores, with
    positive capacities, positive conductivities that do not increase with
    depth, and a non-negative slope term and [Kr_coeff], every drainage and
    every interflow of the three soil layers is non-negative, and each layer
    extracts at most its prior storage plus its inflow. *)
Theorem soil_fluxes_nonnegative :
  forall (p : Param) (f : Forcing) (s : State),
    bounds p s ->
    0 < S0max p -> 0 < Ssmax p -> 0 < Sdmax p ->
    0 < Kdsat p <= Kssat p -> Kssat p <= K0sat p ->
    0 <= slope_coeff p * slope p -> 0 <= Kr_coeff p ->
    (0 <= D0 p f s /\ 0 <= IF0 p f s)
    /\ (0 <= Ds p f s /\ 0 <= interflow (shallow p f s))
    /\ (0 <= Dd p f s /\ 0 <= IFd p f s)
    /\ 0 <= IFs p f s
    /\ extraction (top p f s) <= S0 s + I_t p f s
    /\ extraction (shallow p f s) <= Ss s + D0 p f s
    /\ extraction (deep p f s) <= Sd s + Ds p f s.
Proof.
  intros p f s Hb C0 Cs Cd HK HK0 Hsl HKr.
  destruct (timestep_layers_sound p f s Hb C0 Cs Cd HK HK0 Hsl HKr)
    as ((T1 & T2 & T3 & T4) & (S1 & S2 & S3 & S4) & (D1 & D2 & D3 & D4)).
  unfold D0, IF0, Ds, Dd, IFd, IFs. unfold IFd.
  repeat split; try assumption. lra.
Qed.

Lemma sample_cell_bounds : bounds (cell 0.1 0.5) half_full.
Proof. unfold bounds. cbn. lra. Qed.

Lemma soil_fluxes_nonnegative_witness :
  0 <= D0 (cell 0.1 0.5) (day 20 10) half_full
  /\ 0 <= IFs (cell 0.1 0.5) (day 20 10) half_full.
Proof.
  destruct (soil_fluxes_nonnegative (cell 0.1 0.5) (day 20 10) half_full)
    as ((H1 & _) & _ & _ & H2 & _);
    [exact sample_cell_bounds | cbn; lra .. | split; assumption].
Defined.

(** X14.  Water balance of the whole cell.  Under the conditions of X12 and
    X13 and a non-negative [K_gw], the runoff and the groundwater discharge
    are non-negative, the channel evaporation [Erl] is zero, the floor of the
    surface store does not bind, and the change of all stores equals
    precipitation minus interception, the extractions of the three layers,
    groundwater evaporation and uptake, and the streamflow [Qtot]. *)
Theorem cell_water_balance :
  forall (p : Param) (f : Forcing) (s : State),
    bounds p s ->
    0 < S0max p -> 0 < Ssmax p -> 0 < Sdmax p ->
    0 < Kdsat p <= Kssat p -> Kssat p <= K0sat p ->
    0 <= slope_coeff p * slope p -> 0 <= Kr_coeff p ->
    0 < Pref p -> 0 < Pref_imp p -> 0 <= InitLoss p -> 0 <= fImp p ->
    0 <= OpenWaterFrac p -> fsat p f s + fImp p <= 1 ->
    0 <= K_gw p ->
    0 <= QR p f s /\ 0 <= Qg p f s /\ Erl p f s = 0
    /\ Sr (dynamic p f s) = Sr s + QR p f s + Qg p f s - Qtot p f s
    /\ cell_storage (dynamic p f s) - cell_storage s
       = Pg f - Ei p f s
         - extraction (top p f s) - extraction (shallow p f s)
         - extraction (deep p f s) - Eg0 p f s - Ug p f s
         - Qtot p f s.
Proof.
  intros p f s Hb C0 Cs Cd HK HK0 Hsl HKr HP HPi HL HI HO Hs HKg.
  destruct (timestep_layers_sound p f s Hb C0 Cs Cd HK HK0 Hsl HKr)
    as ((T1 & T2 & T3 & T4) & (S1 & S2 & S3 & S4) & (D1 & D2 & D3 & D4)).
  assert (HSr : 0 <= Sr s) by (destruct Hb as (_ & _ & _ & H & _); exact H).
  assert (HQs : 0 <= QR_surface p f s).
  { unfold QR_surface.
    destruct (snow_outflow_nonneg p f s) as [HPs HRm].
    destruct (fsat_range p f s HO) as [Hf0 Hf1].
    assert (HPi0 : 0 <= Pi_t p f s) by (unfold Pi_t; apply Rmax_l).
    destruct (infiltration_excess (Pi_t p f s) (Pref p) HPi0 HP) as [A0 A1].
    destruct (infiltration_excess (Pi_t p f s) (Pref_imp p) HPi0 HPi)
      as [B0 B1].
    assert (H1 : 0 <= Rhof_soil p f s).
    { unfold Rhof_soil. apply Rmult_le_pos; [apply Rmax_l | exact A0]. }
    assert (H2 : 0 <= Rhof_imp p f s).
    { unfold Rhof_imp. apply Rmult_le_pos; assumption. }
    assert (H3 : 0 <= Rsof p f s).
    { unfold Rsof. apply Rmult_le_pos; assumption. }
    unfold Rhof. lra. }
  assert (HQR : 0 <= QR p f s).
  { unfold QR, IFs, IF0, IFd. lra. }
  assert (HQg : 0 <= Qg p f s).
  { unfold Qg, groundwater. apply groundwater_discharge_nonneg. exact HKg. }
  assert (HErl : Erl p f s = 0).
  { unfold Erl, fw_local. rewrite (ChannelSurface_zero s HSr). ring. }
  assert (HSr' : Sr (dynamic p f s)
                 = Sr s + QR p f s + Qg p f s - Qtot p f s).
  { assert (E : Sr (dynamic p f s)
                = Rmax 0 (Sr s + QR p f s - Erl p f s + Qg p f s) - Qtot p f s)
      by reflexivity.
    rewrite E, HErl. rewrite Rmax_right by lra. ring. }
  split; [exact HQR |]. split; [exact HQg |]. split; [exact HErl |].
  split; [exact HSr' |].
  destruct (timestep_residuals p f s) as (R0 & Rs & Rd & Rsn).
  assert (HSg : Sg (dynamic p f s) = Sg s + NetGf p f s - Qg p f s)
    by reflexivity.
  assert (HI' : I_t p f s = Ps p f s - Rhof p f s - Rsof p f s)
    by reflexivity.
  assert (HQ : QR p f s
               = Rhof p f s + Rsof p f s + Rmelt p f s + IF0 p f s
                 + (interflow (shallow p f s) + IFd p f s))
    by reflexivity.
  assert (HPn : Pn p f s = Pg f - Ei p f s) by reflexivity.
  unfold cell_storage, land_storage. rewrite HSr', HSg, HQ.
  unfold dynamic. cbn [S0 Ss Sd FreeWater DrySnow].
  unfold NetGf. lra.
Qed.

Lemma cell_water_balance_witness :
  cell_storage (dynamic (cell 0.1 0.5) (day 20 10) half_full)
  - cell_storage half_full
  = Pg (day 20 10) - Ei (cell 0.1 0.5) (day 20 10) half_full
    - extraction (top (cell 0.1 0.5) (day 20 10) half_full)
    - extraction (shallow (cell 0.1 0.5) (day 20 10) half_full)
    - extraction (deep (cell 0.1 0.5) (day 20 10) half_full)
    - Eg0 (cell 0.1 0.5) (day 20 10) half_full
    - Ug (cell 0.1 0.5) (day 20 10) half_full
    - Qtot (cell 0.1 0.5) (day 20 10) half_full.
Proof.
  assert (Hs : fsat (cell 0.1 0.5) (day 20 10) half_full
               + fImp (cell 0.1 0.5) <= 1).
  { unfold fsat, OpenWaterFrac_t, fg.
    rewrite ChannelSurface_zero by (cbn; lra).
    cbn [OpenWaterFrac fImp cell cell_with hand_fringe day].
    replace (0 / 100) with 0 by lra.
    pick_extrema. lra. }
  destruct (cell_water_balance (cell 0.1 0.5) (day 20 10) half_full)
    as (_ & _ & _ & _ & H);
    [exact sample_cell_bounds | cbn; lra .. | exact Hs | cbn; lra | exact H].
Defined.

(** ** Derived parameters of [initial] *)

Lemma pcr_pow_Rpower (x y : R) : 0 < x -> pcr_pow x y = Rpower x y.
Proof.
  intros Hx. unfold pcr_pow. destruct (Rlt_dec 0 x); [reflexivity | contradiction].
Qed.

Lemma pcr_pow_le (x y e : R) :
  0 <= e -> 0 < x <= y -> pcr_pow x e <= pcr_pow y e.
Proof.
  intros He Hxy. rewrite !pcr_pow_Rpower by lra.
  apply Rle_Rpower_l; assumption.
Qed.

Lemma pcr_pow_lt (x y e : R) :
  0 < e -> 0 < x < y -> pcr_pow x e < pcr_pow y e.
Proof.
  intros He Hxy. rewrite !pcr_pow_Rpower by lra.
  apply Rlt_Rpower_l; assumption.
Qed.

Lemma pressure_ratio (ps a b : R) :
  ps < 0 -> a <= b -> b < 0 -> 0 < ps / a <= ps / b.
Proof.
  intros Hps Hab Hb.
  assert (Ha : a < 0) by lra.
  assert (Hia : / a < 0) by (apply Rinv_lt_0_compat; exact Ha).
  assert (Hib : / b < 0) by (apply Rinv_lt_0_compat; exact Hb).
  assert (Hle : / b <= / a).
  { destruct Hab as [Hlt | Heq]; [| subst; lra].
    left. apply Rinv_lt_contravar; [nra | exact Hlt]. }
  unfold Rdiv. split; nra.
Qed.

Lemma pressure_ratio_lt (ps a b : R) :
  ps < 0 -> a < b -> b < 0 -> ps / a < ps / b.
Proof.
  intros Hps Hab Hb.
  assert (Ha : a < 0) by lra.
  assert (Hle : / b < / a) by (apply Rinv_lt_contravar; [nra | exact Hab]).
  unfold Rdiv. nra.
Qed.

Section Retention.

Variable so : Soil.
Hypothesis theta_s_pos : 0 < theta_s so.
Hypothesis Lambda_pos : 0 < Lambda so.
Hypothesis psi_s_neg : psi_s so < 0.

Lemma theta_monotone (a b : R) :
  a <= b -> b < 0 -> Initial.theta so a <= Initial.theta so b.
Proof.
  intros Hab Hb. unfold Initial.theta.
  destruct (pressure_ratio (psi_s so) a b psi_s_neg Hab Hb) as [H0 Hle].
  apply Rmult_le_compat_l; [lra |].
  apply pcr_pow_le; [lra |]. split.
  - apply Rmin_glb_lt; lra.
  - apply Rle_min_compat_l. exact Hle.
Qed.

Lemma theta_le_saturation (a : R) :
  a < 0 -> 0 < Initial.theta so a <= theta_s so.
Proof.
  intros Ha. unfold Initial.theta.
  destruct (pressure_ratio (psi_s so) a a psi_s_neg ltac:(lra) Ha) as [H0 _].
  assert (Hm : 0 < Rmin 1 (psi_s so / a) <= 1).
  { split; [apply Rmin_glb_lt; lra | apply Rmin_l]. }
  pose proof (pcr_pow_pos (Rmin 1 (psi_s so / a)) (Lambda so) ltac:(lra)) as Hp.
  pose proof (pcr_pow_le _ 1 (Lambda so) ltac:(lra) Hm) as Hle.
  rewrite pcr_pow_one in Hle. split; nra.
Qed.

Lemma theta_strict (a b : R) :
  a < b -> b < 0 -> a < psi_s so ->
  Initial.theta so a < Initial.theta so b.
Proof.
  intros Hab Hb Has. unfold Initial.theta.
  destruct (pressure_ratio (psi_s so) a b psi_s_neg ltac:(lra) Hb) as [H0 _].
  pose proof (pressure_ratio_lt (psi_s so) a b psi_s_neg Hab Hb) as Hlt.
  assert (H1 : psi_s so / a < 1).
  { apply Rmult_lt_reg_r with (- a); [lra |].
    unfold Rdiv. replace (psi_s so * / a * - a) with (- psi_s so) by (field; lra).
    lra. }
  apply Rmult_lt_compat_l; [lra |].
  apply pcr_pow_lt; [lra |]. split.
  - apply Rmin_glb_lt; lra.
  - rewrite (Rmin_right 1 (psi_s so / a)) by lra.
    apply Rmin_glb_lt; lra.
Qed.

Lemma theta_below_saturation (a : R) :
  a < psi_s so -> Initial.theta so a < theta_s so.
Proof.
  intros Has. unfold Initial.theta.
  assert (Ha : a < 0) by lra.
  destruct (pressure_ratio (psi_s so) a a psi_s_neg ltac:(lra) Ha) as [H0 _].
  assert (H1 : psi_s so / a < 1).
  { apply Rmult_lt_reg_r with (- a); [lra |].
    unfold Rdiv. replace (psi_s so * / a * - a) with (- psi_s so) by (field; lra).
    lra. }
  rewrite (Rmin_right 1 (psi_s so / a)) by lra.
  pose proof (pcr_pow_lt (psi_s so / a) 1 (Lambda so) Lambda_pos ltac:(lra)) as Hp.
  rewrite pcr_pow_one in Hp. nra.
Qed.

End Retention.

Lemma unit_fraction (a b c : R) : c <= a <= b -> c < b -> 0 <= (a - c) / (b - c) <= 1.
Proof.
  intros Hab Hcb. assert (Hi : 0 < / (b - c)) by (apply Rinv_0_lt_compat; lra).
  split.
  - unfold Rdiv. nra.
  - apply Rmult_le_reg_r with (b - c); [lra |].
    unfold Rdiv. rewrite Rmult_assoc, Rinv_l by lra. lra.
Qed.

(** X15.  [initial] (lines 414-453): for a positive porosity and pore-size
    index, an air-entry pressure above the wilting pressure, positive layer
    depths and retention pressures ordered as their defaults are, the water
    contents increase from residual to saturation, the three capacities are
    positive, and the relative wetness limits [w0limE], [wslimU] and
    [wdlimU] lie in [0, 1], the last two being equal. *)
Theorem retention_orders_capacities :
  forall so : Soil,
    0 < theta_s so -> 0 < Lambda so ->
    psi_res so < psi_PWP so -> psi_PWP so <= psi_d so ->
    psi_d so <= psi_ERRP so -> psi_ERRP so <= psi_FC so ->
    psi_FC so <= psi_FC0 so -> psi_FC0 so < 0 ->
    psi_PWP so < psi_s so -> psi_s so < 0 ->
    0 < d0 so -> 0 < ds so -> 0 < dd so ->
    (0 < Initial.theta_res so
     /\ Initial.theta_res so < Initial.theta_PWP so
     /\ Initial.theta_PWP so <= Initial.theta_d so
     /\ Initial.theta_d so <= Initial.theta_ERRP so
     /\ Initial.theta_ERRP so <= Initial.theta_FC so
     /\ Initial.theta_FC so <= Initial.theta_FC0 so
     /\ Initial.theta_FC0 so <= theta_s so
     /\ Initial.theta_PWP so < theta_s so)
    /\ (0 < Initial.S0max so /\ 0 < Initial.Ssmax so /\ 0 < Initial.Sdmax so)
    /\ (0 <= Initial.w0limE so <= 1
        /\ 0 <= Initial.wslimU so <= 1
        /\ Initial.wdlimU so = Initial.wslimU so).
Proof.
  intros so Hth HL H1 H2 H3 H4 H5 H6 H7 H8 Hd0 Hds Hdd.
  assert (T0 : 0 < Initial.theta_res so).
  { apply (theta_le_saturation so Hth HL H8). lra. }
  assert (T1 : Initial.theta_res so < Initial.theta_PWP so).
  { apply theta_strict; try assumption; lra. }
  assert (T2 : Initial.theta_PWP so <= Initial.theta_d so).
  { apply theta_monotone; try assumption; lra. }
  assert (T3 : Initial.theta_d so <= Initial.theta_ERRP so).
  { apply theta_monotone; try assumption; lra. }
  assert (T4 : Initial.theta_ERRP so <= Initial.theta_FC so).
  { apply theta_monotone; try assumption; lra. }
  assert (T5 : Initial.theta_FC so <= Initial.theta_FC0 so).
  { apply theta_monotone; try assumption; lra. }
  assert (T6 : Initial.theta_FC0 so <= theta_s so).
  { apply (theta_le_saturation so Hth HL H8). lra. }
  assert (T7 : Initial.theta_PWP so < theta_s so).
  { apply theta_below_saturation; assumption. }
  split; [repeat split; assumption |].
  split.
  - unfold Initial.S0max, Initial.Ssmax, Initial.Sdmax. repeat split; nra.
  - unfold Initial.w0limE, Initial.wslimU, Initial.wdlimU.
    split; [apply unit_fraction; lra |].
    split; [apply unit_fraction; lra | reflexivity].
Qed.

Lemma retention_orders_capacities_witness :
  0 < Initial.S0max loam /\ 0 <= Initial.wslimU loam <= 1.
Proof.
  destruct (retention_orders_capacities loam)
    as (_ & (HS & _) & (_ & Hw & _)); [cbn; lra .. | split; assumption].
Defined.

(** ** Conductivities with depth *)
Lemma depth_factor (b1 b2 e : R) :
  0 <= e -> 1 <= b1 <= b2 ->
  0 < pcr_pow b2 (- e) <= pcr_pow b1 (- e) /\ pcr_pow b1 (- e) <= 1.
Proof.
  intros He [H1 H12].
  rewrite !pcr_pow_Rpower by lra. unfold Rpower.
  assert (L1 : 0 <= ln b1).
  { destruct H1 as [H1 | H1]; [| subst; rewrite ln_1; lra].
    left. rewrite <- ln_1. apply ln_increasing; lra. }
  assert (L2 : ln b1 <= ln b2).
  { destruct H12 as [H | H]; [| subst; lra].
    left. apply ln_increasing; lra. }
  assert (E1 : - e * ln b2 <= - e * ln b1) by nra.
  assert (E2 : - e * ln b1 <= 0) by nra.
  split; [split; [apply exp_pos |] |].
  - destruct E1 as [E1 | E1]; [left; apply exp_increasing; exact E1 | rewrite E1; lra].
  - rewrite <- exp_0.
    destruct E2 as [E2 | E2]; [left; apply exp_increasing; exact E2 | rewrite E2; lra].
Qed.

(** X16.  [initial] (lines 436-448): for positive [K0_scalar], [k_s] and
    top-layer depth and a non-negative [Ksat_exp], the saturated
    conductivities are positive and do not increase with depth, so the
    geometric mean that drives a layer's outflow is at most the layer's own
    conductivity. *)
Theorem conductivity_decreases_with_depth :
  forall so : Soil,
    0 < K0_scalar so -> 0 < k_s so -> 0 <= Ksat_exp so ->
    0 < d0 so -> 0 <= ds so -> 0 <= dd so ->
    0 < Initial.Kdsat so
    /\ Initial.Kdsat so <= Initial.Kssat so
    /\ Initial.Kssat so <= Initial.K0sat so
    /\ sqrt (Initial.K0sat so * Initial.Kssat so) <= Initial.K0sat so
    /\ sqrt (Initial.Kssat so * Initial.Kdsat so) <= Initial.Kssat so.
Proof.
  intros so HK Hk He Hd0 Hds Hdd.
  assert (Hb1 : 1 <= (ds so + d0 so) / d0 so).
  { apply Rmult_le_reg_r with (d0 so); [lra |].
    unfold Rdiv. rewrite Rmult_assoc, Rinv_l by lra. lra. }
  assert (Hb2 : (ds so + d0 so) / d0 so <= (dd so + ds so + d0 so) / d0 so).
  { unfold Rdiv. apply Rmult_le_compat_r; [| lra].
    left. apply Rinv_0_lt_compat. exact Hd0. }
  destruct (depth_factor _ _ (Ksat_exp so) He (conj Hb1 Hb2)) as [[P0 P1] P2].
  unfold Initial.Kdsat, Initial.Kssat, Initial.K0sat.
  set (q1 := pcr_pow ((ds so + d0 so) / d0 so) (- Ksat_exp so)) in *.
  set (q2 := pcr_pow ((dd so + ds so + d0 so) / d0 so) (- Ksat_exp so)) in *.
  assert (HKk : 0 < K0_scalar so * k_s so) by nra.
  assert (A1 : 0 < K0_scalar so * q2 * k_s so) by nra.
  assert (A2 : K0_scalar so * q2 * k_s so <= K0_scalar so * q1 * k_s so) by nra.
  assert (A3 : K0_scalar so * q1 * k_s so <= K0_scalar so * k_s so) by nra.
  split; [exact A1 |]. split; [exact A2 |]. split; [exact A3 |].
  split.
  - rewrite <- (sqrt_square (K0_scalar so * k_s so)) at 2 by lra.
    apply sqrt_le_1_alt. nra.
  - rewrite <- (sqrt_square (K0_scalar so * q1 * k_s so)) at 2 by lra.
    apply sqrt_le_1_alt. nra.
Qed.

Lemma conductivity_decreases_with_depth_witness :
  Initial.Kdsat loam <= Initial.Kssat loam
  /\ Initial.Kssat loam <= Initial.K0sat loam.
Proof.
  destruct (conductivity_decreases_with_depth loam)
    as (_ & H1 & H2 & _); [cbn; lra .. | split; assumption].
Defined.

(** ** The default initial state *)

Lemma initial_limits (so : Soil) :
  0 < theta_s so -> 0 < Lambda so ->
  psi_res so < psi_PWP so -> psi_PWP so <= psi_d so ->
  psi_d so <= psi_ERRP so -> psi_ERRP so <= psi_FC so ->
  psi_FC so <= psi_FC0 so -> psi_FC0 so < 0 ->
  psi_PWP so < psi_s so -> psi_s so < 0 ->
  0 < d0 so -> 0 < ds so -> 0 < dd so ->
  (0 < Initial.S0max so /\ 0 < Initial.Ssmax so /\ 0 < Initial.Sdmax so)
  /\ 0 <= Initial.w0limE so <= 1
  /\ 0 <= Initial.wslimU so <= 1.
Proof.
  intros Hth HL H1 H2 H3 H4 H5 H6 H7 H8 Hd0 Hds Hdd.
  assert (T0 : 0 < Initial.theta_res so).
  { apply (theta_le_saturation so Hth HL H8). lra. }
  assert (T1 : Initial.theta_res so < Initial.theta_PWP so).
  { apply theta_strict; try assumption; lra. }
  assert (T2 : Initial.theta_PWP so <= Initial.theta_d so).
  { apply theta_monotone; try assumption; lra. }
  assert (T3 : Initial.theta_d so <= Initial.theta_ERRP so).
  { apply theta_monotone; try assumption; lra. }
  assert (T4 : Initial.theta_ERRP so <= Initial.theta_FC so).
  { apply theta_monotone; try assumption; lra. }
  assert (T5 : Initial.theta_FC so <= Initial.theta_FC0 so).
  { apply theta_monotone; try assumption; lra. }
  assert (T6 : Initial.theta_FC0 so <= theta_s so).
  { apply (theta_le_saturation so Hth HL H8). lra. }
  assert (T7 : Initial.theta_PWP so < theta_s so).
  { apply theta_below_saturation; assumption. }
  split.
  - unfold Initial.S0max, Initial.Ssmax, Initial.Sdmax. repeat split; nra.
  - unfold Initial.w0limE, Initial.wslimU.
    split; apply unit_fraction; lra.
Qed.

Lemma fifth_of_capacity (w c : R) :
  0 <= w <= 1 -> 0 < c -> 0 <= 0.2 * w * c <= 0.2 * c.
Proof. intros Hw Hc. split; nra. Qed.

(** X17.  [resume] with [reinit = 1] (lines 471-481) after [initial]: under
    the conditions of X15 the default state fills each soil store to at most
    a fifth of its capacity, has a leaf area index of 2 and satisfies the
    bounds of the stores, which every run from it keeps (for non-negative
    precipitation and snow parameters and an interception coefficient of at
    most one). *)
Theorem cold_start_within_bounds :
  forall (so : Soil) (p : Param) (fs : list Forcing),
    0 < theta_s so -> 0 < Lambda so ->
    psi_res so < psi_PWP so -> psi_PWP so <= psi_d so ->
    psi_d so <= psi_ERRP so -> psi_ERRP so <= psi_FC so ->
    psi_FC so <= psi_FC0 so -> psi_FC0 so < 0 ->
    psi_PWP so < psi_s so -> psi_s so < 0 ->
    0 < d0 so -> 0 < ds so -> 0 < dd so ->
    SLA p <> 0 ->
    0 <= snow_Cfmax p -> 0 <= snow_Cfr p -> 0 <= snow_WHC p ->
    ER_coeff p * pcr_pow (Rmax 0.05 (hveg p)) (ER_exp p) <= 1 ->
    List.Forall (fun f => 0 <= PRECIP f) fs ->
    let p' := with_initial so p in
    let s0 := resume_reinit p' in
    (0 <= S0 s0 <= 0.2 * S0max p'
     /\ 0 <= Ss s0 <= 0.2 * Ssmax p'
     /\ 0 <= Sd s0 <= 0.2 * Sdmax p')
    /\ LAI p' s0 = 2
    /\ bounds p' s0
    /\ bounds p' (run p' fs s0).
Proof.
  intros so p fs Hth HL H1 H2 H3 H4 H5 H6 H7 H8 Hd0 Hds Hdd HSLA
         HCf HCr HW HE HP p' s0.
  destruct (initial_limits so Hth HL H1 H2 H3 H4 H5 H6 H7 H8 Hd0 Hds Hdd)
    as ((C0 & Cs & Cd) & W0 & Ws).
  pose proof (fifth_of_capacity _ _ W0 C0) as B0.
  pose proof (fifth_of_capacity _ _ Ws Cs) as Bs.
  pose proof (fifth_of_capacity _ _ Ws Cd) as Bd.
  assert (Hs : 0 <= S0 s0 <= 0.2 * S0max p'
               /\ 0 <= Ss s0 <= 0.2 * Ssmax p'
               /\ 0 <= Sd s0 <= 0.2 * Sdmax p').
  { subst s0 p'. unfold resume_reinit, with_initial.
    cbn [S0 Ss Sd S0max Ssmax Sdmax w0limE wslimU wdlimU].
    unfold Initial.wdlimU. fold (Initial.wslimU so).
    repeat split; lra. }
  assert (Hb : bounds p' s0).
  { destruct Hs as (A0 & As & Ad).
    assert (C0' : 0 < S0max p') by exact C0.
    assert (Cs' : 0 < Ssmax p') by exact Cs.
    assert (Cd' : 0 < Sdmax p') by exact Cd.
    unfold bounds. repeat split; try lra.
    all: subst s0; unfold resume_reinit; cbn [Sr FreeWater DrySnow]; lra. }
  split; [exact Hs |]. split; [| split; [exact Hb |]].
  - subst s0 p'. unfold LAI, resume_reinit, with_initial. cbn [SLA Mleaf].
    replace 2.0 with 2 by lra. field. exact HSLA.
  - apply run_bounds; try assumption.
Qed.

Lemma cold_start_within_bounds_witness :
  let p' := with_initial loam (cell 0.1 0.5) in
  bounds p' (run p' (day 20 10 :: day 0 (- 3) :: nil)%list (resume_reinit p')).
Proof.
  assert (Hc : ER_coeff (cell 0.1 0.5)
               * pcr_pow (Rmax 0.05 (hveg (cell 0.1 0.5)))
                   (ER_exp (cell 0.1 0.5)) <= 1).
  { cbn [ER_coeff hveg ER_exp cell cell_with].
    rewrite (Rmax_right 0.05 1) by lra. rewrite pcr_pow_one. lra. }
  assert (HP : List.Forall (fun f => 0 <= PRECIP f)
                 (day 20 10 :: day 0 (- 3) :: nil)%list).
  { repeat (apply List.Forall_cons; [cbn; lra |]). apply List.Forall_nil. }
  intros p'.
  destruct (cold_start_within_bounds loam (cell 0.1 0.5)
              (day 20 10 :: day 0 (- 3) :: nil)%list)
    as (_ & _ & _ & Hr);
    [cbn; lra .. | exact Hc | exact HP | exact Hr].
Defined.

(** ** Extrema along the profile *)

Lemma nanmax_spec (l : list R) :
  l <> nil ->
  exists m, nanmax l = Some m /\ In m l /\ forall x, In x l -> x <= m.
Proof.
  induction l as [| x l IH]; [congruence |]. intros _.
  destruct l as [| y l'].
  - exists x. cbn. split; [reflexivity |]. split; [left; reflexivity |].
    intros z [<- | []]. lra.
  - destruct IH as (m & Hm & Hin & Hub); [discriminate |].
    exists (Rmax x m). cbn [nanmax] in *. rewrite Hm.
    split; [reflexivity |]. split.
    + unfold Rmax. destruct (Rle_dec x m); [right; exact Hin | left; reflexivity].
    + intros z [<- | Hz]; [apply Rmax_l |].
      apply Rle_trans with m; [apply Hub; exact Hz | apply Rmax_r].
Qed.

Lemma nanmin_spec (l : list R) :
  l <> nil ->
  exists m, nanmin l = Some m /\ In m l /\ forall x, In x l -> m <= x.
Proof.
  induction l as [| x l IH]; [congruence |]. intros _.
  destruct l as [| y l'].
  - exists x. cbn. split; [reflexivity |]. split; [left; reflexivity |].
    intros z [<- | []]. lra.
  - destruct IH as (m & Hm & Hin & Hub); [discriminate |].
    exists (Rmin x m). cbn [nanmin] in *. rewrite Hm.
    split; [reflexivity |]. split.
    + unfold Rmin. destruct (Rle_dec x m); [left; reflexivity | right; exact Hin].
    + intros z [<- | Hz]; [apply Rmin_l |].
      apply Rle_trans with m; [apply Rmin_r | apply Hub; exact Hz].
Qed.

Lemma nanmax_is (l : list R) (m : R) :
  In m l -> (forall x, In x l -> x <= m) -> nanmax l = Some m.
Proof.
  intros Hin Hub.
  destruct (nanmax_spec l) as (m' & Hm & Hin' & Hub').
  { intros ->. exact Hin. }
  rewrite Hm. f_equal. apply Rle_antisym; [apply Hub | apply Hub']; assumption.
Qed.

Lemma nanmin_is (l : list R) (m : R) :
  In m l -> (forall x, In x l -> m <= x) -> nanmin l = Some m.
Proof.
  intros Hin Hub.
  destruct (nanmin_spec l) as (m' & Hm & Hin' & Hub').
  { intros ->. exact Hin. }
  rewrite Hm. f_equal. apply Rle_antisym; [apply Hub' | apply Hub]; assumption.
Qed.

Lemma pcr_eq_iff (x y : R) : pcr_eq x y = true <-> x = y.
Proof.
  unfold pcr_eq. destruct (Req_dec_T x y); split; congruence.
Qed.

Lemma pcr_le_iff (x y : R) : pcr_le x y = true <-> x <= y.
Proof.
  unfold pcr_le. destruct (Rle_dec x y); split; intros; congruence || assumption.
Qed.

Lemma pcr_ge_iff (x y : R) : pcr_ge x y = true <-> y <= x.
Proof.
  unfold pcr_ge. apply pcr_le_iff.
Qed.

Lemma unit_clip_range (a b : R) : 0 <= unit_clip a b <= 1.
Proof.
  unfold unit_clip. destruct (Req_dec_T b 0).
  - destruct (Rlt_dec a 0); lra.
  - split; [apply Rmax_l |]. apply Rmax_lub; [lra | apply Rmin_l].
Qed.

Lemma unit_clip_inside (a b : R) : 0 <= a <= b -> 0 < b -> unit_clip a b = a / b.
Proof.
  intros Ha Hb. unfold unit_clip. destruct (Req_dec_T b 0); [lra |].
  assert (Hi : 0 < / b) by (apply Rinv_0_lt_compat; exact Hb).
  assert (H0 : 0 <= a / b) by (unfold Rdiv; nra).
  assert (H1 : a / b <= 1).
  { apply Rmult_le_reg_r with b; [exact Hb |].
    unfold Rdiv. rewrite Rmult_assoc, Rinv_l by lra. lra. }
  rewrite Rmin_right by exact H1. rewrite Rmax_right by exact H0. reflexivity.
Qed.

Lemma between (a b c : R) (lo hi : R) :
  lo <= a <= hi -> lo <= b <= hi -> 0 <= c <= 1 -> lo <= a + (b - a) * c <= hi.
Proof. intros Ha Hb Hc. split; nra. Qed.

Lemma z_lim_le_last (z a b : R) : Rmin (Rmax z a) b <= b.
Proof. apply Rmin_r. Qed.

Lemma z_lim_cases (z a b : R) :
  Rmin (Rmax z a) b = b \/ a <= Rmin (Rmax z a) b.
Proof.
  unfold Rmin. destruct (Rle_dec (Rmax z a) b); [right; apply Rmax_r | left; reflexivity].
Qed.

Lemma z_lim_idempotent (z a b : R) :
  Rmin (Rmax (Rmin (Rmax z a) b) a) b = Rmin (Rmax z a) b.
Proof.
  destruct (Rle_dec z a); destruct (Rle_dec a b); destruct (Rle_dec z b);
    pick_extrema; lra.
Qed.

Lemma last_In {A : Type} (l : list A) (d : A) : l <> nil -> In (last l d) l.
Proof.
  induction l as [| x l IH]; [congruence |]. intros _.
  destruct l as [| y l']; [left; reflexivity |].
  right. apply IH. discriminate.
Qed.

(** ** The lookup in the height-above-drainage profile *)

Lemma interp_hand_selects (z0 : R) (first : R * R) (rest : Profile)
      (lo plo up pup : R) :
  let hand := (first :: rest)%list in
  let z := Rmin (Rmax z0 (fst first)) (fst (last hand first)) in
  selects z hand lo plo up pup ->
  interp_hand z0 hand
  = Some (plo + (pup - plo) * unit_clip (z - lo) (up - lo)).
Proof.
  intros hand z H. subst z hand. unfold interp_hand. cbv beta iota zeta.
  set (hand := (first :: rest)%list) in *.
  set (z := Rmin (Rmax z0 (fst first)) (fst (last hand first))) in *.
  destruct H as (Hlo & Hup & Hz & Hbelow & Habove & Hplo & Hpup).
  destruct Hlo as (llo & Hllo & Hflo & Hslo).
  destruct Hup as (lup & Hlup & Hfup & Hsup).
  set (iLower := filter (fun l => pcr_le (fst l) z) hand).
  set (iUpper := filter (fun l => pcr_ge (fst l) z) hand).
  assert (HinL : forall l, In l iLower <-> In l hand /\ fst l <= z).
  { intros l. unfold iLower. rewrite filter_In, pcr_le_iff. tauto. }
  assert (HinU : forall l, In l iUpper <-> In l hand /\ z <= fst l).
  { intros l. unfold iUpper. rewrite filter_In, pcr_ge_iff. tauto. }
  assert (Emax : nanmax (map fst iLower) = Some lo).
  { apply nanmax_is.
    - apply in_map_iff. exists llo. split; [exact Hflo |].
      apply HinL. split; [exact Hllo | lra].
    - intros x Hx. apply in_map_iff in Hx. destruct Hx as (l & <- & Hl).
      apply HinL in Hl. destruct Hl as [Hl1 Hl2]. apply Hbelow; assumption. }
  assert (Emin : nanmin (map fst iUpper) = Some up).
  { apply nanmin_is.
    - apply in_map_iff. exists lup. split; [exact Hfup |].
      apply HinU. split; [exact Hlup | lra].
    - intros x Hx. apply in_map_iff in Hx. destruct Hx as (l & <- & Hl).
      apply HinU in Hl. destruct Hl as [Hl1 Hl2]. apply Habove; assumption. }
  rewrite Emax, Emin.
  set (atLower := filter (fun l => pcr_eq (fst l) lo) iLower).
  set (atUpper := filter (fun l => pcr_eq (fst l) up) iUpper).
  assert (HaL : forall l, In l atLower <-> In l hand /\ fst l = lo).
  { intros l. unfold atLower. rewrite filter_In, pcr_eq_iff, HinL.
    split; [tauto |]. intros [H1 H2]. repeat split; try assumption. lra. }
  assert (HaU : forall l, In l atUpper <-> In l hand /\ fst l = up).
  { intros l. unfold atUpper. rewrite filter_In, pcr_eq_iff, HinU.
    split; [tauto |]. intros [H1 H2]. repeat split; try assumption. lra. }
  assert (E1 : nanmax (map snd atLower) = Some plo).
  { apply nanmax_is.
    - apply in_map_iff. exists llo. split; [exact Hslo |]. apply HaL. tauto.
    - intros x Hx. apply in_map_iff in Hx. destruct Hx as (l & <- & Hl).
      apply HaL in Hl. apply Hplo; tauto. }
  assert (E2 : nanmax (map fst atLower) = Some lo).
  { apply nanmax_is.
    - apply in_map_iff. exists llo. split; [exact Hflo |]. apply HaL. tauto.
    - intros x Hx. apply in_map_iff in Hx. destruct Hx as (l & <- & Hl).
      apply HaL in Hl. lra. }
  assert (E3 : nanmax (map snd atUpper) = Some pup).
  { apply nanmax_is.
    - apply in_map_iff. exists lup. split; [exact Hsup |]. apply HaU. tauto.
    - intros x Hx. apply in_map_iff in Hx. destruct Hx as (l & <- & Hl).
      apply HaU in Hl. apply Hpup; tauto. }
  assert (E4 : nanmax (map fst atUpper) = Some up).
  { apply nanmax_is.
    - apply in_map_iff. exists lup. split; [exact Hfup |]. apply HaU. tauto.
    - intros x Hx. apply in_map_iff in Hx. destruct Hx as (l & <- & Hl).
      apply HaU in Hl. lra. }
  rewrite E1, E2, E3, E4. reflexivity.
Qed.

Lemma selects_exists (z0 : R) (first : R * R) (rest : Profile) :
  let hand := (first :: rest)%list in
  let z := Rmin (Rmax z0 (fst first)) (fst (last hand first)) in
  exists lo plo up pup, selects z hand lo plo up pup.
Proof.
  intros hand z.
  assert (Hne : hand <> nil) by discriminate.
  pose proof (last_In hand first Hne) as Hlast.
  assert (Hfirst : In first hand) by (left; reflexivity).
  set (iLower := filter (fun l => pcr_le (fst l) z) hand).
  set (iUpper := filter (fun l => pcr_ge (fst l) z) hand).
  assert (HinL : forall l, In l iLower <-> In l hand /\ fst l <= z).
  { intros l. unfold iLower. rewrite filter_In, pcr_le_iff. tauto. }
  assert (HinU : forall l, In l iUpper <-> In l hand /\ z <= fst l).
  { intros l. unfold iUpper. rewrite filter_In, pcr_ge_iff. tauto. }
  assert (HU : In (last hand first) iUpper).
  { apply HinU. split; [exact Hlast | apply Rmin_r]. }
  assert (HL : exists l, In l iLower).
  { destruct (z_lim_cases z0 (fst first) (fst (last hand first))) as [E | E].
    - exists (last hand first). apply HinL. split; [exact Hlast |].
      fold z in E. lra.
    - exists first. apply HinL. split; [exact Hfirst | exact E]. }
  destruct HL as (l0 & Hl0).
  destruct (nanmax_spec (map fst iLower)) as (lo & _ & Hlo & Hlo_ub).
  { intros E. apply map_eq_nil in E. rewrite E in Hl0. exact Hl0. }
  destruct (nanmin_spec (map fst iUpper)) as (up & _ & Hup & Hup_lb).
  { intros E. apply map_eq_nil in E. rewrite E in HU. exact HU. }
  apply in_map_iff in Hlo. destruct Hlo as (llo & Hflo & Hllo).
  apply in_map_iff in Hup. destruct Hup as (lup & Hfup & Hlup).
  apply HinL in Hllo. apply HinU in Hlup.
  set (atLower := filter (fun l => pcr_eq (fst l) lo) hand).
  set (atUpper := filter (fun l => pcr_eq (fst l) up) hand).
  assert (HaL : forall l, In l atLower <-> In l hand /\ fst l = lo).
  { intros l. unfold atLower. rewrite filter_In, pcr_eq_iff. tauto. }
  assert (HaU : forall l, In l atUpper <-> In l hand /\ fst l = up).
  { intros l. unfold atUpper. rewrite filter_In, pcr_eq_iff. tauto. }
  destruct (nanmax_spec (map snd atLower)) as (plo & _ & Hplo & Hplo_ub).
  { intros E. apply map_eq_nil in E.
    assert (H : In llo atLower) by (apply HaL; tauto).
    rewrite E in H. exact H. }
  destruct (nanmax_spec (map snd atUpper)) as (pup & _ & Hpup & Hpup_ub).
  { intros E. apply map_eq_nil in E.
    assert (H : In lup atUpper) by (apply HaU; tauto).
    rewrite E in H. exact H. }
  apply in_map_iff in Hplo. destruct Hplo as (l1 & Hs1 & Hl1).
  apply in_map_iff in Hpup. destruct Hpup as (l2 & Hs2 & Hl2).
  apply HaL in Hl1. apply HaU in Hl2.
  exists lo, plo, up, pup. unfold selects.
  split; [exists l1; tauto |]. split; [exists l2; tauto |].
  split; [lra |]. split; [| split; [| split]].
  - intros l Hl Hle. apply Hlo_ub. apply in_map_iff. exists l.
    split; [reflexivity |]. apply HinL. tauto.
  - intros l Hl Hle. apply Hup_lb. apply in_map_iff. exists l.
    split; [reflexivity |]. apply HinU. tauto.
  - intros l Hl Hle. apply Hplo_ub. apply in_map_iff. exists l.
    split; [reflexivity |]. apply HaL. tauto.
  - intros l Hl Hle. apply Hpup_ub. apply in_map_iff. exists l.
    split; [reflexivity |]. apply HaU. tauto.
Qed.

Lemma selects_value_range (z : R) (hand : Profile) (lo plo up pup a b : R) :
  selects z hand lo plo up pup ->
  (forall l, In l hand -> a <= snd l <= b) ->
  a <= plo + (pup - plo) * unit_clip (z - lo) (up - lo) <= b.
Proof.
  intros (Hlo & Hup & _) Hr.
  destruct Hlo as (l1 & H1 & _ & <-). destruct Hup as (l2 & H2 & _ & <-).
  apply between; [apply Hr; exact H1 | apply Hr; exact H2 | apply unit_clip_range].
Qed.

Lemma interp_hand_some (z : R) (hand : Profile) :
  hand <> nil ->
  exists v, interp_hand z hand = Some v
            /\ forall a b, (forall l, In l hand -> a <= snd l <= b) -> a <= v <= b.
Proof.
  intros Hne. destruct hand as [| first rest]; [congruence |].
  destruct (selects_exists z first rest) as (lo & plo & up & pup & Hsel).
  eexists. split; [apply (interp_hand_selects z first rest _ _ _ _ Hsel) |].
  intros a b Hr. exact (selects_value_range _ _ _ _ _ _ a b Hsel Hr).
Qed.

(** X18.  [interp_hand] (lines 66-90) returns a number for every elevation
    and every non-empty profile, sorted or not, and the number lies within any
    bounds that hold for the percentiles of the profile. *)
Theorem interp_hand_defined_within_percentiles :
  forall (z : R) (hand : Profile),
    hand <> nil ->
    exists v, interp_hand z hand = Some v
              /\ forall a b, (forall l, In l hand -> a <= snd l <= b) ->
                             a <= v <= b.
Proof.
  intros z hand Hne. destruct hand as [| first rest]; [congruence |].
  destruct (selects_exists z first rest) as (lo & plo & up & pup & Hsel).
  exists (plo + (pup - plo)
                * unit_clip
                    (Rmin (Rmax z (fst first))
                       (fst (last (first :: rest)%list first)) - lo)
                    (up - lo)).
  split; [exact (interp_hand_selects z first rest lo plo up pup Hsel) |].
  intros a b Hr. exact (selects_value_range _ _ _ _ _ _ a b Hsel Hr).
Qed.

Lemma interp_hand_defined_within_percentiles_witness :
  exists v, interp_hand 3 steps = Some v /\ 0 <= v <= 50.
Proof.
  destruct (interp_hand_defined_within_percentiles 3 steps) as (v & Hv & Hr).
  - discriminate.
  - exists v. split; [exact Hv |]. apply Hr.
    intros l [<- | [<- | [<- | []]]]; cbn; lra.
Defined.

(** X19.  [interp_hand] reads the elevation only through its clamp to the
    first and last level: an elevation at or below the first level gives the
    result of the first level, one at or above the last that of the last. *)
Theorem interp_hand_clamps_elevation :
  forall (z : R) (first : R * R) (rest : Profile),
    let hand := (first :: rest)%list in
    let bottom := fst first in
    let top := fst (last hand first) in
    interp_hand (Rmin (Rmax z bottom) top) hand = interp_hand z hand
    /\ (z <= bottom -> bottom <= top ->
        interp_hand z hand = interp_hand bottom hand)
    /\ (top <= z -> bottom <= top ->
        interp_hand z hand = interp_hand top hand).
Proof.
  intros z first rest hand bottom top.
  assert (Hc : forall x y, Rmin (Rmax x bottom) top = Rmin (Rmax y bottom) top ->
                           interp_hand x hand = interp_hand y hand).
  { intros x y E. subst hand bottom top. unfold interp_hand.
    cbv beta iota zeta. rewrite E. reflexivity. }
  split; [| split].
  - apply Hc. apply z_lim_idempotent.
  - intros H1 H2. apply Hc. pick_extrema. reflexivity.
  - intros H1 H2. apply Hc. pick_extrema. reflexivity.
Qed.

Lemma interp_hand_clamps_elevation_witness :
  interp_hand (- 5) steps = interp_hand 0 steps
  /\ interp_hand 9 steps = interp_hand 4 steps.
Proof.
  destruct (interp_hand_clamps_elevation (- 5) (0, 0)
              ((2, 10) :: (4, 50) :: nil)%list) as (_ & Hlow & _).
  destruct (interp_hand_clamps_elevation 9 (0, 0)
              ((2, 10) :: (4, 50) :: nil)%list) as (_ & _ & Hhigh).
  split.
  - apply Hlow; cbn; lra.
  - apply Hhigh; cbn; lra.
Defined.

(** X20.  Between two neighbouring levels [a < b] of the profile (no level
    strictly between them), [interp_hand] is the linear interpolation of
    their percentiles, and at either level it returns that level's
    percentile (the largest, if the elevation is listed more than once). *)
Theorem interp_hand_linear_between_levels :
  forall (z : R) (first : R * R) (rest : Profile) (a pa b pb : R),
    let hand := (first :: rest)%list in
    fst first <= a -> b <= fst (last hand first) ->
    In (a, pa) hand -> In (b, pb) hand ->
    a <= z <= b -> a < b ->
    (forall l, In l hand -> fst l <= a \/ b <= fst l) ->
    (forall l, In l hand -> fst l = a -> snd l <= pa) ->
    (forall l, In l hand -> fst l = b -> snd l <= pb) ->
    interp_hand z hand = Some (pa + (pb - pa) * ((z - a) / (b - a)))
    /\ interp_hand a hand = Some pa
    /\ interp_hand b hand = Some pb.
Proof.
  intros z first rest a pa b pb hand Hfa Hlb Ha Hb Hab Hlt Hadj Hpa Hpb.
  subst hand. set (hand := (first :: rest)%list) in *.
  assert (Hz : fst first <= z <= fst (last hand first)) by lra.
  assert (Hlim : forall x, fst first <= x <= fst (last hand first) ->
                 Rmin (Rmax x (fst first)) (fst (last hand first)) = x).
  { intros x Hx. rewrite Rmax_left by lra. apply Rmin_left. lra. }
  assert (Hknot : forall c pc, In (c, pc) hand ->
            fst first <= c <= fst (last hand first) ->
            (forall l, In l hand -> fst l = c -> snd l <= pc) ->
            interp_hand c hand = Some pc).
  { intros c pc Hc Hr Hpc.
    pose proof (interp_hand_selects c first rest c pc c pc) as E.
    cbv zeta in E. fold hand in E. rewrite (Hlim c Hr) in E.
    rewrite E.
    - f_equal. ring.
    - unfold selects.
      split; [exists (c, pc); tauto |]. split; [exists (c, pc); tauto |].
      split; [lra |]. repeat split; auto. }
  split; [| split; [apply Hknot; auto; lra | apply Hknot; auto; lra]].
  destruct (Req_dec_T z a) as [Eza | Nza].
  { subst z. rewrite (Hknot a pa Ha ltac:(lra) Hpa). f_equal.
    unfold Rdiv. ring. }
  destruct (Req_dec_T z b) as [Ezb | Nzb].
  { subst z. rewrite (Hknot b pb Hb ltac:(lra) Hpb). f_equal.
    field. lra. }
  pose proof (interp_hand_selects z first rest a pa b pb) as E.
  cbv zeta in E. fold hand in E. rewrite (Hlim z Hz) in E.
  rewrite E.
  - rewrite unit_clip_inside by lra. reflexivity.
  - unfold selects.
    split; [exists (a, pa); tauto |]. split; [exists (b, pb); tauto |].
    split; [lra |]. split; [| split; [| split; assumption]].
    + intros l Hl Hle. destruct (Hadj l Hl); lra.
    + intros l Hl Hle. destruct (Hadj l Hl); lra.
Qed.

Lemma interp_hand_linear_between_levels_witness :
  interp_hand 3 steps = Some (10 + (50 - 10) * ((3 - 2) / (4 - 2))).
Proof.
  destruct (interp_hand_linear_between_levels 3 (0, 0)
              ((2, 10) :: (4, 50) :: nil)%list 2 10 4 50) as (H & _).
  - cbn. lra.
  - cbn. lra.
  - cbn. tauto.
  - cbn. tauto.
  - lra.
  - lra.
  - intros l [<- | [<- | [<- | []]]]; cbn; lra.
  - intros l [<- | [<- | [<- | []]]]; cbn; lra.
  - intros l [<- | [<- | [<- | []]]]; cbn; lra.
  - exact H.
Defined.

Lemma selects_monotone (hand : Profile) (z1 z2 : R)
      (lo1 plo1 up1 pup1 lo2 plo2 up2 pup2 : R) :
  rising hand -> z1 <= z2 ->
  selects z1 hand lo1 plo1 up1 pup1 ->
  selects z2 hand lo2 plo2 up2 pup2 ->
  plo1 + (pup1 - plo1) * unit_clip (z1 - lo1) (up1 - lo1)
  <= plo2 + (pup2 - plo2) * unit_clip (z2 - lo2) (up2 - lo2).
Proof.
  intros Hr Hz (Hlo1 & Hup1 & Hz1 & Hb1 & Ha1 & _) (Hlo2 & Hup2 & Hz2 & Hb2 & Ha2 & _).
  destruct Hlo1 as (a1 & Ia1 & Fa1 & Sa1). destruct Hup1 as (b1 & Ib1 & Fb1 & Sb1).
  destruct Hlo2 as (a2 & Ia2 & Fa2 & Sa2). destruct Hup2 as (b2 & Ib2 & Fb2 & Sb2).
  assert (P1 : plo1 <= pup1).
  { rewrite <- Sa1, <- Sb1. apply Hr; try assumption. lra. }
  assert (P2 : plo2 <= pup2).
  { rewrite <- Sa2, <- Sb2. apply Hr; try assumption. lra. }
  pose proof (unit_clip_range (z1 - lo1) (up1 - lo1)) as C1.
  pose proof (unit_clip_range (z2 - lo2) (up2 - lo2)) as C2.
  destruct (Rle_dec up1 lo2) as [Hcase | Hcase].
  - assert (P12 : pup1 <= plo2).
    { rewrite <- Sb1, <- Sa2. apply Hr; try assumption. lra. }
    nra.
  - assert (Hlt : lo2 < up1) by lra.
    assert (U1 : z2 < up1).
    { destruct (Rlt_dec z2 up1) as [H | H]; [exact H |].
      pose proof (Hb2 b1 Ib1 ltac:(lra)). lra. }
    assert (L2 : lo2 <= z1).
    { destruct (Rle_dec lo2 z1) as [H | H]; [exact H |].
      pose proof (Ha1 a2 Ia2 ltac:(lra)). lra. }
    assert (El : lo1 = lo2).
    { pose proof (Hb1 a2 Ia2 ltac:(lra)). pose proof (Hb2 a1 Ia1 ltac:(lra)). lra. }
    assert (Eu : up1 = up2).
    { pose proof (Ha1 b2 Ib2 ltac:(lra)). pose proof (Ha2 b1 Ib1 ltac:(lra)). lra. }
    assert (Epl : plo1 = plo2).
    { rewrite <- Sa1, <- Sa2. apply Rle_antisym; apply Hr; try assumption; lra. }
    assert (Epu : pup1 = pup2).
    { rewrite <- Sb1, <- Sb2. apply Rle_antisym; apply Hr; try assumption; lra. }
    rewrite <- El, <- Eu, <- Epl, <- Epu.
    rewrite !unit_clip_inside by lra.
    assert (Hi : 0 < / (up1 - lo1)) by (apply Rinv_0_lt_compat; lra).
    assert (Hq : (z1 - lo1) / (up1 - lo1) <= (z2 - lo1) / (up1 - lo1)).
    { unfold Rdiv. apply Rmult_le_compat_r; lra. }
    apply Rplus_le_compat_l. apply Rmult_le_compat_l; [lra | exact Hq].
Qed.

Lemma z_lim_monotone (z1 z2 a b : R) :
  z1 <= z2 -> Rmin (Rmax z1 a) b <= Rmin (Rmax z2 a) b.
Proof.
  intros H. apply Rle_min_compat_r. apply Rle_max_compat_r. exact H.
Qed.

Lemma interp_hand_rising (hand : Profile) (z1 z2 v1 v2 : R) :
  rising hand -> z1 <= z2 ->
  interp_hand z1 hand = Some v1 -> interp_hand z2 hand = Some v2 ->
  v1 <= v2.
Proof.
  intros Hr Hz E1 E2. destruct hand as [| first rest]; [discriminate |].
  destruct (selects_exists z1 first rest) as (lo1 & plo1 & up1 & pup1 & S1).
  destruct (selects_exists z2 first rest) as (lo2 & plo2 & up2 & pup2 & S2).
  rewrite (interp_hand_selects z1 first rest _ _ _ _ S1) in E1.
  rewrite (interp_hand_selects z2 first rest _ _ _ _ S2) in E2.
  injection E1 as <-. injection E2 as <-.
  cbv zeta in S1, S2.
  apply (selects_monotone _ _ _ _ _ _ _ _ _ _ _ Hr
           (z_lim_monotone z1 z2 _ _ Hz) S1 S2).
Qed.

(** X21.  On a profile whose percentile does not fall as the elevation
    rises, [interp_hand] does not decrease with the elevation. *)
Theorem interp_hand_monotone_in_elevation :
  forall (hand : Profile) (z1 z2 : R),
    hand <> nil -> rising hand -> z1 <= z2 ->
    exists v1 v2, interp_hand z1 hand = Some v1
                  /\ interp_hand z2 hand = Some v2
                  /\ v1 <= v2.
Proof.
  intros hand z1 z2 Hne Hr Hz.
  destruct (interp_hand_some z1 hand Hne) as (v1 & E1 & _).
  destruct (interp_hand_some z2 hand Hne) as (v2 & E2 & _).
  exists v1, v2. split; [exact E1 |]. split; [exact E2 |].
  exact (interp_hand_rising hand z1 z2 v1 v2 Hr Hz E1 E2).
Qed.

Lemma steps_rising : rising steps.
Proof.
  intros l l' Hl Hl'. cbn in Hl, Hl'.
  destruct Hl as [<- | [<- | [<- | []]]]; destruct Hl' as [<- | [<- | [<- | []]]];
    cbn; lra.
Qed.

Lemma interp_hand_monotone_in_elevation_witness :
  exists v1 v2, interp_hand 1 steps = Some v1
                /\ interp_hand 3 steps = Some v2
                /\ v1 <= v2.
Proof.
  apply (interp_hand_monotone_in_elevation steps 1 3).
  - discriminate.
  - exact steps_rising.
  - lra.
Defined.

(** X22.  The three lookups of a timestep (lines 831-849) are defined for
    every non-empty profile; with percentiles in [0, 100] and [fPotDeep] in
    [0, 1] they make [fg], [fUg] and [fsat] fractions in [0, 1].  On a rising
    profile the lookup for deep roots is at least that for shallow roots,
    and with a capillary fringe of at most 1 m the fraction with
    groundwater access [fUg] is at least the saturated fraction [fg]. *)
Theorem hand_fractions_in_unit_interval :
  forall (hand : Profile) (porosity psi_s : R) (p : Param) (f : Forcing)
         (s : State),
    hand <> nil ->
    (forall l, In l hand -> 0 <= snd l <= 100) ->
    0 <= fPotDeep p <= 1 ->
    exists t, hand_lookups hand porosity psi_s s = Some t
      /\ (let f' := with_hand f t in
          0 <= fg f' <= 1 /\ 0 <= fUg p f' <= 1 /\ 0 <= fsat p f' s <= 1
          /\ (rising hand ->
              hand_shallow f' <= hand_deep f'
              /\ (- psi_s <= 1 -> fg f' <= fUg p f'))).
Proof.
  intros hand por psi p f s Hne Hperc Hdeep.
  destruct (interp_hand_some (z_fringe hand por psi s) hand Hne) as (a & Ea & Ra).
  destruct (interp_hand_some (z_roots hand por 1.0 s) hand Hne) as (b & Eb & Rb).
  destruct (interp_hand_some (z_roots hand por 7.0 s) hand Hne) as (c & Ec & Rc).
  specialize (Ra 0 100 Hperc). specialize (Rb 0 100 Hperc).
  specialize (Rc 0 100 Hperc).
  exists (a, b, c). unfold hand_lookups. rewrite Ea, Eb, Ec.
  split; [reflexivity |]. cbv zeta. set (f' := with_hand f (a, b, c)).
  assert (Hg : 0 <= fg f' <= 1).
  { unfold fg, f', with_hand. cbn [hand_fringe fst snd]. lra. }
  assert (HU : 0 <= fUg p f' <= 1).
  { unfold fUg, fUgShallow, fUgDeep, f', with_hand.
    cbn [hand_shallow hand_deep fst snd]. split; nra. }
  split; [exact Hg |]. split; [exact HU |]. split.
  - unfold fsat. fold (fg f'). split.
    + apply Rmin_glb; [lra |].
      apply Rle_trans with (fg f'); [lra | apply Rmax_r].
    + apply Rmin_l.
  - intros Hr.
    assert (Hbc : b <= c).
    { apply (interp_hand_rising hand (z_roots hand por 1.0 s)
               (z_roots hand por 7.0 s) b c Hr); [| exact Eb | exact Ec].
      unfold z_roots. lra. }
    split; [exact Hbc |].
    intros Hpsi.
    assert (Hab : a <= b).
    { apply (interp_hand_rising hand (z_fringe hand por psi s)
               (z_roots hand por 1.0 s) a b Hr); [| exact Ea | exact Eb].
      unfold z_fringe, z_roots. replace 1e3 with 1000 by lra. lra. }
    unfold fg, fUg, fUgShallow, fUgDeep, f', with_hand.
    cbn [hand_fringe hand_shallow hand_deep fst snd]. nra.
Qed.

Lemma hand_fractions_in_unit_interval_witness :
  exists t, hand_lookups steps 0.4 (- 0.2) half_full = Some t
    /\ 0 <= fg (with_hand calm_day t) <= 1
    /\ fg (with_hand calm_day t) <= fUg (cell 0.1 0.5) (with_hand calm_day t).
Proof.
  destruct (hand_fractions_in_unit_interval steps 0.4 (- 0.2) (cell 0.1 0.5)
              calm_day half_full) as (t & Ht & Hg & _ & _ & Hr).
  - discriminate.
  - intros l [<- | [<- | [<- | []]]]; cbn; lra.
  - cbn. lra.
  - exists t. split; [exact Ht |]. split; [exact Hg |].
    destruct (Hr steps_rising) as [_ Hle]. apply Hle. lra.
Defined.

(** ** Day length and effective wind speed *)

Lemma sun_angle_fraction (x : R) : 0 <= acos x / PI <= 1.
Proof.
  pose proof (acos_bound x) as [H0 H1]. pose proof PI_RGT_0 as HP.
  assert (Hi : 0 < / PI) by (apply Rinv_0_lt_compat; lra).
  split.
  - unfold Rdiv. nra.
  - apply Rmult_le_reg_r with PI; [lra |].
    unfold Rdiv. rewrite Rmult_assoc, Rinv_l by lra. lra.
Qed.

Lemma daylength_range (latitude : R) (doy : nat) :
  0.02 <= daylength_fday latitude doy <= 1.
Proof.
  unfold daylength_fday.
  pose proof (sun_angle_fraction
                (1 - Rmin (Rmax 0 (daylength_m latitude doy)) 2)) as [H0 H1].
  split.
  - apply Rmin_glb; [apply Rmax_l | lra].
  - apply Rmin_r.
Qed.

Lemma daylength_equator (doy : nat) : daylength_fday 0 doy = 1 / 2.
Proof.
  unfold daylength_fday, daylength_m. pose proof PI_RGT_0 as HP.
  replace (0 * PI / 180) with 0 by lra. rewrite tan_0.
  replace (1 - 0 * tan (23.439 * PI / 180
                        * cos (2 * PI * (INR doy + 9) / 365.25))) with 1 by ring.
  rewrite (Rmax_right 0 1) by lra. rewrite (Rmin_left 1 2) by lra.
  replace (1 - 1) with 0 by ring. rewrite acos_0.
  replace (PI / 2 / PI) with (1 / 2) by (field; lra).
  rewrite Rmax_right by lra. apply Rmin_left. lra.
Qed.

(** X23.  The day-length fraction (lines 751-776) lies in [0.02, 1] at
    every latitude and day of the year; the outer [min] with 1 never binds;
    at the equator it is one half on every day. *)
Theorem daylength_fraction_range :
  forall (latitude : R) (doy : nat),
    0.02 <= daylength_fday latitude doy <= 1
    /\ daylength_fday latitude doy
       = Rmax 0.02
           (acos (1 - Rmin (Rmax 0 (daylength_m latitude doy)) 2) / PI)
    /\ daylength_fday 0 doy = 1 / 2.
Proof.
  intros latitude doy.
  pose proof (sun_angle_fraction
                (1 - Rmin (Rmax 0 (daylength_m latitude doy)) 2)) as [H0 H1].
  split; [apply daylength_range |]. split; [| apply daylength_equator].
  unfold daylength_fday. apply Rmin_left. apply Rmax_lub; lra.
Qed.

(** X24.  With the day-length fraction of lines 764-776 the effective
    wind speed [u1] (lines 800-804) is between 1 and 37.75 times a
    non-negative measured wind speed, and 1.75 times it at the equator. *)
Theorem effective_wind_speed_range :
  forall (f : Forcing) (latitude : R) (doy : nat),
    0 <= WINDSPEED f ->
    let f' := with_fday f latitude doy in
    WINDSPEED f <= u1 f' <= 37.75 * WINDSPEED f
    /\ u1 (with_fday f 0 doy) = 1.75 * WINDSPEED f.
Proof.
  intros f latitude doy HW f'.
  assert (Hu : forall d, 0.02 <= d <= 1 ->
            WINDSPEED f <= WINDSPEED f * (1 - (1 - d) * 0.25) / d
                        <= 37.75 * WINDSPEED f).
  { intros d Hd. assert (Hi : 0 < / d) by (apply Rinv_0_lt_compat; lra).
    replace (WINDSPEED f * (1 - (1 - d) * 0.25) / d)
      with (WINDSPEED f * (0.25 + 0.75 * / d)).
    2:{ replace 0.25 with (1 / 4) by lra. replace 0.75 with (3 / 4) by lra.
        field. lra. }
    assert (H1 : 1 <= / d).
    { rewrite <- Rinv_1. apply Rinv_le_contravar; lra. }
    assert (H2 : / d <= 50).
    { replace 50 with (/ 0.02) by lra. apply Rinv_le_contravar; lra. }
    split; nra. }
  split.
  - unfold u1, f', with_fday. cbn [WINDSPEED fday]. apply Hu.
    apply daylength_range.
  - unfold u1, with_fday. cbn [WINDSPEED fday].
    rewrite daylength_equator. lra.
Qed.

Lemma effective_wind_speed_range_witness :
  WINDSPEED (day 4 10) <= u1 (with_fday (day 4 10) 52 172)
  /\ u1 (with_fday (day 4 10) 0 172) = 1.75 * WINDSPEED (day 4 10).
Proof.
  destruct (effective_wind_speed_range (day 4 10) 52 172) as [[H1 _] H2].
  - cbn. lra.
  - split; [exact H1 | exact H2].
Defined.

